(** * The Battlefield 6 stat tracker bot

    A shallow embedding of the tracker bot (the version with a persisted
    player list: [parseTrackerUrl], [searchPlayers], [createStatsEmbed],
    [statsChanged], [postPlayerStats], [postAllStats] and the
    [messageCreate] command handler), followed by the properties of the
    polling loop, the change detector, the presenter and the commands.
    The listeners of the process (ready, exit and the signals) and the poll
    loop of the version without a player file (index.js) come after the
    examples, with their own properties at the end.

    Conventions of the model.
    - JavaScript strings are byte strings holding UTF-8 text.
    - A JavaScript number is the rational it denotes (finite numbers;
      negative zero is zero).
    - The state the program keeps in module-level variables
      ([trackedPlayers], [lastStats]), the players file and everything the
      program does to the outside (requests, pauses, replies, posted
      messages, file writes) are one [World] threaded through a state and
      exception monad; what the outside answers is an [Env].
    - The [Env] also holds what the libraries decide: whether
      [EmbedBuilder] accepts the embed a command builds for its reply, and
      what the runtime's [toLowerCase] makes of a text. *)

From Stdlib Require Import ZArith QArith Qround Qabs String Ascii List Lia DecimalString.
From stdpp Require Import gmap strings list.

Open Scope string_scope.

(** ** JavaScript values *)

Module JS.

(** The primitive values JSON text can denote, and [undefined]. *)
Inductive jsval : Type :=
  | JUndefined
  | JNull
  | JBool (b : bool)
  | JNum (q : Q)
  | JStr (s : string).

(** ToBoolean. *)
Definition truthy (v : jsval) : bool :=
  match v with
  | JUndefined | JNull => false
  | JBool b => b
  | JNum q => negb (Qeq_bool q 0)
  | JStr s => negb (String.eqb s "")
  end.

(** Two values that are the same value: numbers that are equal, and
    otherwise the same primitive. *)
Definition same_value (a b : jsval) : Prop :=
  match a, b with
  | JNum x, JNum y => x == y
  | _, _ => a = b
  end.

(** [a === b] on primitives (also the SameValueZero of [Map] keys: the two
    differ on NaN only, which no JSON text denotes). *)
Definition strict_eq (a b : jsval) : bool :=
  match a, b with
  | JUndefined, JUndefined => true
  | JNull, JNull => true
  | JBool x, JBool y => Bool.eqb x y
  | JNum x, JNum y => Qeq_bool x y
  | JStr x, JStr y => String.eqb x y
  | _, _ => false
  end.

(** [a || b]. *)
Definition or (a b : jsval) : jsval := if truthy a then a else b.

(** What [JSON.parse] gives for a response body: a primitive or an object.
    The program reads named properties only, so an array is an object
    without any of them. Property values are primitives; an object or an
    array as the value of a property is outside the model. *)
Inductive json : Type :=
  | Prim (v : jsval)
  | Obj (o : gmap string jsval).

Definition json_truthy (d : json) : bool :=
  match d with
  | Prim v => truthy v
  | Obj _ => true
  end.

(** [d.k] and [d[k]]. Reading a property of [null] throws; every read in
    the program stands behind a truthiness test of [d]. *)
Definition prop (d : json) (k : string) : jsval :=
  match d with
  | Obj o => default JUndefined (o !! k)
  | Prim _ => JUndefined
  end.

(** *** Strings *)

Definition is_upper (c : ascii) : bool :=
  let n := nat_of_ascii c in (65 <=? n)%nat && (n <=? 90)%nat.
Definition is_lower (c : ascii) : bool :=
  let n := nat_of_ascii c in (97 <=? n)%nat && (n <=? 122)%nat.
Definition is_digit (c : ascii) : bool :=
  let n := nat_of_ascii c in (48 <=? n)%nat && (n <=? 57)%nat.

Fixpoint map_string (f : ascii -> ascii) (s : string) : string :=
  match s with
  | EmptyString => EmptyString
  | String c r => String (f c) (map_string f r)
  end.

(** What [toLowerCase] does to text of ASCII characters: the letters A to Z
    are folded. The program's [toLowerCase] is the runtime's, which an
    [Env] brings; the examples take this function for it. *)
Definition toLowerCase_ASCII : string -> string :=
  map_string (fun c => if is_upper c then ascii_of_nat (nat_of_ascii c + 32) else c).

(** [toUpperCase]: the letters a to z; other code points are left as they
    are. *)
Definition toUpperCase : string -> string :=
  map_string (fun c => if is_lower c then ascii_of_nat (nat_of_ascii c - 32) else c).

(** White space of [trim] in text of ASCII characters: tab, line feed,
    vertical tab, form feed, carriage return and space. (The runtime's
    [trim] also strips the white space outside ASCII, such as U+00A0.) *)
Definition is_space (c : ascii) : bool :=
  let n := nat_of_ascii c in ((9 <=? n)%nat && (n <=? 13)%nat) || (n =? 32)%nat.

Fixpoint trimStart (s : string) : string :=
  match s with
  | String c r => if is_space c then trimStart r else s
  | EmptyString => EmptyString
  end.

Fixpoint trimEnd (s : string) : string :=
  match s with
  | EmptyString => EmptyString
  | String c r =>
      match trimEnd r with
      | EmptyString => if is_space c then EmptyString else String c EmptyString
      | r' => String c r'
      end
  end.

Definition trim (s : string) : string := trimEnd (trimStart s).

(** [s.startsWith(p)]. *)
Fixpoint startsWith (p s : string) : bool :=
  match p, s with
  | EmptyString, _ => true
  | String a p', String b s' => Ascii.eqb a b && startsWith p' s'
  | String _ _, EmptyString => false
  end.

(** [s.slice(n)], n not negative. *)
Fixpoint slice (n : nat) (s : string) : string :=
  match n, s with
  | O, _ => s
  | S k, String _ r => slice k r
  | S _, EmptyString => EmptyString
  end.

(** [s.split(sep)] for a separator of one character. *)
Fixpoint split (sep : ascii) (s : string) : list string :=
  match s with
  | EmptyString => [EmptyString]
  | String c r =>
      if Ascii.eqb c sep then EmptyString :: split sep r
      else match split sep r with
           | p :: ps => String c p :: ps
           | [] => [String c EmptyString]
           end
  end.

Fixpoint all_chars (f : ascii -> bool) (s : string) : bool :=
  match s with
  | EmptyString => true
  | String c r => f c && all_chars f r
  end.

(** [/^\d+$/.test(s)]. *)
Definition test_digits (s : string) : bool :=
  negb (String.eqb s "") && all_chars is_digit s.

(** [encodeURIComponent]: letters, digits and [- _ . ! ~ * ' ( )] stay, every
    other byte of the UTF-8 text becomes [%XX]. *)
Definition is_unreserved (c : ascii) : bool :=
  is_upper c || is_lower c || is_digit c
  || existsb (Ascii.eqb c) ["-"; "_"; "."; "!"; "~"; "*"; "'"; "("; ")"]%char.

Definition hex_digit (n : nat) : ascii :=
  if (n <? 10)%nat then ascii_of_nat (48 + n) else ascii_of_nat (55 + n).

Fixpoint encodeURIComponent (s : string) : string :=
  match s with
  | EmptyString => EmptyString
  | String c r =>
      if is_unreserved c then String c (encodeURIComponent r)
      else let n := nat_of_ascii c in
           String "%" (String (hex_digit (n / 16)) (String (hex_digit (n mod 16))
             (encodeURIComponent r)))
  end.

(** *** Numbers to text *)

Definition Z_to_string (z : Z) : string := NilZero.string_of_int (Z.to_int z).

Fixpoint zeros (n : nat) : string :=
  match n with
  | O => EmptyString
  | S k => String "0" (zeros k)
  end.

Definition pad_zeros (width : nat) (s : string) : string :=
  zeros (width - String.length s) ++ s.

Definition is_negative (q : Q) : bool := negb (Qle_bool 0 q).

(** The integer nearest to [q], the larger one of two. *)
Definition round_half_up (q : Q) : Z := Qfloor (q + (1 # 2)).

(** [x.toFixed(d)] (below 1e21): the sign, then the nearest multiple of
    10^-d of the magnitude with exactly [d] decimals. *)
Definition toFixed (d : nat) (q : Q) : string :=
  let n := round_half_up (Qabs q * inject_Z (10 ^ Z.of_nat d)) in
  let ds := pad_zeros (S d) (Z_to_string n) in
  let k := (String.length ds - d)%nat in
  (if is_negative q then "-" else "")
  ++ match d with
     | O => ds
     | _ => substring 0 k ds ++ "." ++ substring k d ds
     end.

(** Digits in groups of three, separated by commas. *)
Fixpoint group_thousands (fuel : nat) (n : Z) : string :=
  match fuel with
  | O => Z_to_string n
  | S f =>
      if (n <? 1000)%Z then Z_to_string n
      else group_thousands f (n / 1000) ++ "," ++ pad_zeros 3 (Z_to_string (n mod 1000))
  end.

Fixpoint strip_zeros (s : string) : string :=
  match s with
  | EmptyString => EmptyString
  | String c r =>
      match strip_zeros r with
      | EmptyString => if Ascii.eqb c "0" then EmptyString else String c EmptyString
      | r' => String c r'
      end
  end.

(** [x.toLocaleString()] of a number in the en-US locale: grouped integer
    digits and at most three decimals, halves rounded away from zero. It
    is exact on the integers, which is what the counted fields hold; the
    runtime rounds the double, and prints in the locale of the host. *)
Definition Number_toLocaleString (q : Q) : string :=
  let n := round_half_up (Qabs q * 1000) in
  let i := (n / 1000)%Z in
  let f := strip_zeros (pad_zeros 3 (Z_to_string (n mod 1000))) in
  (if is_negative q then "-" else "")
  ++ group_thousands (String.length (Z_to_string i)) i
  ++ (if String.eqb f "" then "" else "." ++ f).

Definition is_integer (q : Q) : bool := Qeq_bool q (inject_Z (Qfloor q)).

End JS.
Export JS.

(** ** Players, messages and the world *)

(** A tracked player, [{ personaId, name, platform }]. [name] and
    [personaId] are whatever the API answered (or the file holds); a
    missing property is [JUndefined]. *)
Record Player : Type := {
  name : jsval;
  platform : string;
  personaId : jsval
}.

(** An entry of [searchPlayers]' result. *)
Record SearchResult : Type := {
  sr_name : jsval;
  sr_personaId : jsval;
  sr_platform : string;
  sr_rank : jsval;
  sr_kills : jsval
}.

(** An embed field [{ name, value, inline }]. *)
Record Field : Type := {
  label : string;
  value : string;
  inline : bool
}.

(** What [createStatsEmbed] builds (the timestamp, the time of the call, is
    left out). *)
Record Embed : Type := {
  title : string;
  color : Z;
  footer : string;
  description : option string;
  fields : list Field;
  thumbnail : option jsval
}.

(** The replies of the command handler, one constructor for each text or
    embed of the source, carrying the values it is built from. *)
Inductive Reply : Type :=
  | SearchUsage                                  (* Please provide a player name ... *)
  | Searching (playerName : string)              (* Searching for players matching ... *)
  | NoPlayersFound (playerName : string)         (* No players found matching ... *)
  | SearchResults (playerName : string) (results : list SearchResult)
                                                 (* embed: Search Results for ... *)
  | AddUsage                                     (* Please provide a tracker.gg URL. *)
  | InvalidUrl                                   (* Invalid tracker.gg URL format. *)
  | LookingUp (playerId : string)                (* Looking up player with ID ... *)
  | NotOnAnyPlatform (playerId : string)         (* Could not find ... on any platform. *)
  | TrackUsage                                   (* Please provide a player ID. *)
  | CouldNotFind (playerId : string)             (* Could not find player with ID ... *)
  | AlreadyTracked (foundPlayer : Player)        (* ... is already being tracked! *)
  | PlayerAdded (foundPlayer : Player) (total : nat)
                                                 (* embed: Player Added to Tracking *)
  | NoPlayersTracked                             (* No players are currently being tracked. *)
  | TrackedList (players : list Player)          (* embed: Tracked Players *)
  | UntrackUsage                                 (* Please provide a player ID. *)
  | NotTracked (playerId : string)               (* ... is not being tracked. *)
  | Removed (removedPlayer : Player)             (* Removed ... from tracking. *)
  | Updating                                     (* Updating stats... *)
  | Updated                                      (* Stats updated! *)
  | Help.                                        (* embed: BF6 Tracker Bot Commands *)

(** What a request comes back with: [fetch] rejects, or there is a response
    with its [ok] flag and the value [response.json()] resolves to ([None]:
    it rejects). *)
Record Response : Type := {
  ok : bool;
  body : option json
}.

Inductive FetchOutcome : Type :=
  | NetworkError
  | Answer (r : Response).

(** The outside: the answer to the n-th request by its URL, whether the
    channel is in the client's cache, whether the n-th send, reply and
    file write go through, whether [EmbedBuilder] accepts the embed that
    the source builds for a reply (it throws on a title, a field name or a
    field value that is not a string within its limits, and on more than
    25 fields), and the runtime's [String.prototype.toLowerCase]. *)
Record Env : Type := {
  net : nat -> string -> FetchOutcome;
  channel : bool;
  send_ok : nat -> bool;
  reply_ok : nat -> bool;
  write_ok : nat -> bool;
  builds : Reply -> bool;
  String_toLowerCase : string -> string
}.

(** What the program did to the outside, oldest first. *)
Inductive Event : Type :=
  | Fetched (url : string)
  | Slept (ms : nat)
  | Replied (r : Reply)
  | Sent (e : Embed) (delivered : bool)
  | Wrote (players : list Player) (written : bool).

(** The players file. [JSON.stringify] of a list of players and
    [JSON.parse] of the text are inverse to each other (a property that is
    undefined is left out and reads as undefined again), so a file that
    holds such text is the list the text parses to. [Unreadable] is a file
    whose read or whose [JSON.parse] throws. A file that parses to a value
    that is no list of players, which the program never writes, is outside
    the model. *)
Inductive FileContent : Type :=
  | Json (players : list Player)
  | Unreadable.

Record World : Type := {
  trackedPlayers : list Player;
  lastStats : list (jsval * json);
  file : option FileContent;
  trace : list Event;
  fetches : nat;
  sends : nat;
  replies : nat;
  writes : nat
}.

(** *** The [Map] of last posted stats, as the list of its entries *)

Definition Map_get (k : jsval) (m : list (jsval * json)) : option json :=
  snd <$> List.find (fun e => strict_eq (fst e) k) m.

(** [m.set(k, v)]: the entry of [k] gets the value, a new key goes last. *)
Definition Map_set (k : jsval) (v : json) (m : list (jsval * json)) : list (jsval * json) :=
  if existsb (fun e => strict_eq (fst e) k) m
  then map (fun e => if strict_eq (fst e) k then (fst e, v) else e) m
  else (m ++ [(k, v)])%list.

Definition Map_delete (k : jsval) (m : list (jsval * json)) : list (jsval * json) :=
  List.filter (fun e => negb (strict_eq (fst e) k)) m.

(** *** A state and exception monad over the world *)

Inductive Result (A : Type) : Type :=
  | Ok (a : A)
  | Thrown.
Arguments Ok {A} a.
Arguments Thrown {A}.

Definition M (A : Type) : Type := World -> Result A * World.

#[global] Instance M_ret : MRet M := fun A a w => (Ok a, w).
#[global] Instance M_bind : MBind M := fun A B f c w =>
  match c w with
  | (Ok a, w') => f a w'
  | (Thrown, w') => (Thrown, w')
  end.

Definition throw {A : Type} : M A := fun w => (Thrown, w).

(** [try { c } catch { h }]. *)
Definition try_catch {A : Type} (c h : M A) : M A := fun w =>
  match c w with
  | (Ok a, w') => (Ok a, w')
  | (Thrown, w') => h w'
  end.

Definition gets {A : Type} (f : World -> A) : M A := fun w => (Ok (f w), w).
Definition modify (f : World -> World) : M unit := fun w => (Ok tt, f w).

(** A pure computation that may throw. *)
Definition lift {A : Type} (r : option A) : M A :=
  match r with
  | Some a => mret a
  | None => throw
  end.

Definition set_trackedPlayers (l : list Player) (w : World) : World :=
  {| trackedPlayers := l; lastStats := lastStats w; file := file w; trace := trace w;
     fetches := fetches w; sends := sends w; replies := replies w; writes := writes w |}.

Definition set_lastStats (m : list (jsval * json)) (w : World) : World :=
  {| trackedPlayers := trackedPlayers w; lastStats := m; file := file w; trace := trace w;
     fetches := fetches w; sends := sends w; replies := replies w; writes := writes w |}.

Definition record (e : Event) (w : World) : World :=
  {| trackedPlayers := trackedPlayers w; lastStats := lastStats w; file := file w;
     trace := trace w ++ [e];
     fetches := fetches w + (if e is Fetched _ then 1 else 0);
     sends := sends w + (if e is Sent _ _ then 1 else 0);
     replies := replies w + (if e is Replied _ then 1 else 0);
     writes := writes w + (if e is Wrote _ _ then 1 else 0) |}.

Definition set_file (c : FileContent) (w : World) : World :=
  {| trackedPlayers := trackedPlayers w; lastStats := lastStats w; file := Some c;
     trace := trace w; fetches := fetches w; sends := sends w; replies := replies w;
     writes := writes w |}.

Section Effects.

Variable env : Env.

(** [await fetch(url)]. *)
Definition fetch (url : string) : M Response := fun w =>
  match net env (fetches w) url with
  | NetworkError => (Thrown, record (Fetched url) w)
  | Answer r => (Ok r, record (Fetched url) w)
  end.

(** [await response.json()]. *)
Definition response_json (r : Response) : M json := lift (body r).

(** [await new Promise(resolve => setTimeout(resolve, ms))]. *)
Definition sleep (ms : nat) : M unit := modify (record (Slept ms)).

(** [await message.reply(r)]. *)
Definition reply (r : Reply) : M unit := fun w =>
  (if reply_ok env (replies w) then Ok tt else Thrown, record (Replied r) w).

(** [await message.reply({ embeds: [embed] })] after the embed of [r] is
    built: when the builder throws, nothing is sent. *)
Definition reply_embed (r : Reply) : M unit :=
  if builds env r then reply r else throw.

(** [await channel.send({ embeds: [e] })]. *)
Definition send (e : Embed) : M unit := fun w =>
  let delivered := send_ok env (sends w) in
  (if delivered then Ok tt else Thrown, record (Sent e delivered) w).

(** [fs.writeFileSync(PLAYERS_FILE, JSON.stringify(players, null, 2))]. *)
Definition writeFileSync (players : list Player) : M unit := fun w =>
  let written := write_ok env (writes w) in
  if written then (Ok tt, set_file (Json players) (record (Wrote players true) w))
  else (Thrown, record (Wrote players false) w).

End Effects.

(** ** The program *)

Module Bot.

Definition API_BASE_URL : string := "https://api.gametools.network/bf6/stats".

Definition platforms : list string := ["pc"; "xbox"; "psn"].

Definition keyFields : list string :=
  ["kills"; "deaths"; "score"; "wins"; "losses"; "rank"].

(** [data && (data.userName || data.name || data.personaId)]. *)
Definition recognizable (data : json) : bool :=
  json_truthy data
  && truthy (or (or (prop data "userName") (prop data "name")) (prop data "personaId")).

(** [statsChanged(oldStats, newStats)]; [None] is the [undefined] that
    [lastStats.get] gives for a key it does not hold. *)
Definition statsChanged (oldStats : option json) (newStats : json) : bool :=
  match oldStats with
  | None => true
  | Some old =>
      if negb (json_truthy old) then true
      else existsb (fun field =>
             if negb (strict_eq (prop old field) JUndefined)
                && negb (strict_eq (prop newStats field) JUndefined)
             then negb (strict_eq (prop old field) (prop newStats field))
             else false) keyFields
  end.

Section Program.

(** The runtime's own conversions, taken as they are: the path of
    [new URL(url)] ([None]: the constructor throws), the number a string
    converts to ([None]: NaN) and the text of a number that is not an
    integer. *)
Variable URL_pathname : string -> option string.
Variable StringToNumber : string -> option Q.
Variable Number_toString_fraction : Q -> string.

Variable env : Env.

(** The text of a number: the decimal digits of an integer (below 1e21),
    and what the runtime gives for any other number. *)
Definition Number_toString (q : Q) : string :=
  if is_integer q then Z_to_string (Qfloor q) else Number_toString_fraction q.

(** ToString, as a template literal applies it. *)
Definition ToString (v : jsval) : string :=
  match v with
  | JUndefined => "undefined"
  | JNull => "null"
  | JBool true => "true"
  | JBool false => "false"
  | JNum q => Number_toString q
  | JStr s => s
  end.

(** ToNumber of a defined value; [None] is NaN. *)
Definition ToNumber (v : jsval) : option Q :=
  match v with
  | JUndefined => None
  | JNull => Some 0%Q
  | JBool b => Some (if b then 1%Q else 0%Q)
  | JNum q => Some q
  | JStr s => StringToNumber s
  end.

(** [saveTrackedPlayers()]. *)
Definition saveTrackedPlayers : M unit :=
  try_catch (players ← gets trackedPlayers; writeFileSync env players) (mret tt).

(** [loadTrackedPlayers()]. *)
Definition loadTrackedPlayers : M unit :=
  content ← gets file;
  match content with
  | Some (Json players) => modify (set_trackedPlayers players)
  | Some Unreadable => modify (set_trackedPlayers [])
  | None => modify (set_trackedPlayers []);; saveTrackedPlayers
  end.

(** [fetchPlayerStats(playerName, platform, personaId)]; the [null] it
    returns on failure is [Prim JNull]. *)
Definition fetchPlayerStats (playerName : jsval) (platform : string) (personaId : jsval)
  : M json :=
  try_catch
    (let url := API_BASE_URL ++ "?name=" ++ encodeURIComponent (ToString playerName)
                ++ "&platform=" ++ platform in
     let url := if truthy personaId
                then url ++ "&personaId=" ++ encodeURIComponent (ToString personaId)
                else url in
     response ← fetch env url;
     if negb (ok response) then mret (Prim JNull)
     else response_json response)
    (mret (Prim JNull)).

(** [parseTrackerUrl(url)]. *)
Definition parseTrackerUrl (url : string) : option string :=
  match URL_pathname url with
  | None => None
  | Some pathname =>
      let pathParts :=
        List.filter (fun p => negb (String.eqb p "")) (split "/" pathname) in
      if (3 <=? length pathParts)%nat
         && String.eqb (nth 0 pathParts "") "bf6"
         && String.eqb (nth 1 pathParts "") "profile"
      then
        let thirdPart := nth 2 pathParts "" in
        if test_digits thirdPart then Some thirdPart else None
      else None
  end.

(** The entry [searchPlayers] pushes for the data of a platform. *)
Definition search_entry (data : json) (playerName platform : string) : SearchResult :=
  {| sr_name := or (or (prop data "userName") (prop data "name")) (JStr playerName);
     sr_personaId := or (or (prop data "personaId") (prop data "id")) JNull;
     sr_platform := platform;
     sr_rank := or (prop data "rank") JNull;
     sr_kills := or (prop data "kills") JNull |}.

(** The body of [searchPlayers]' loop for one platform. *)
Definition searchPlayers_step (playerName platform : string) (results : list SearchResult)
  : M (list SearchResult) :=
  try_catch
    (let url := API_BASE_URL ++ "?name=" ++ encodeURIComponent playerName
                ++ "&platform=" ++ platform in
     response ← fetch env url;
     results ← (if ok response then
                  data ← response_json response;
                  if recognizable data
                  then mret (results ++ [search_entry data playerName platform])%list
                  else mret results
                else mret results);
     sleep 500;;
     mret results)
    (mret results).

Fixpoint searchPlayers_loop (playerName : string) (todo : list string)
    (results : list SearchResult) : M (list SearchResult) :=
  match todo with
  | [] => mret results
  | platform :: rest =>
      results ← searchPlayers_step playerName platform results;
      searchPlayers_loop playerName rest results
  end.

(** [searchPlayers(playerName)]. *)
Definition searchPlayers (playerName : string) : M (list SearchResult) :=
  searchPlayers_loop playerName platforms [].

(** *** The presenter *)

(** [v.toLocaleString()], [v.toFixed(d)] and [v.toString()] of a defined
    value; [None] is the TypeError of a value without the method. *)
Definition method_toLocaleString (v : jsval) : option string :=
  match v with
  | JNum q => Some (Number_toLocaleString q)
  | JStr s => Some s
  | JBool b => Some (ToString (JBool b))
  | JNull | JUndefined => None
  end.

Definition method_toFixed (d : nat) (v : jsval) : option string :=
  match v with
  | JNum q => Some (toFixed d q)
  | _ => None
  end.

Definition method_toString (v : jsval) : option string :=
  match v with
  | JNum _ | JStr _ | JBool _ => Some (ToString v)
  | JNull | JUndefined => None
  end.

Definition Qtruncate (q : Q) : Z := if is_negative q then Qceiling q else Qfloor q.

(** [x % y]: the remainder has the sign of [x]. *)
Definition remainder (x y : Q) : Q := x - y * inject_Z (Qtruncate (x / y)).

Definition integer_text (z : option Z) : string :=
  match z with
  | Some z => Z_to_string z
  | None => "NaN"
  end.

(** The text of the time played: [hours] and [minutes] of the source. *)
Definition timePlayed_text (v : jsval) : option string :=
  let seconds := ToNumber v in
  let hours := (fun s => Qfloor (s / 3600)) <$> seconds in
  let minutes := (fun s => Qfloor (remainder s 3600 / 60)) <$> seconds in
  Some (integer_text hours ++ "h " ++ integer_text minutes ++ "m").

(** [if (v !== undefined) fields.push({ name, value: text(v), inline: true })]:
    the fields pushed, or [None] when [text] throws. *)
Definition field_of (v : jsval) (name : string) (text : jsval -> option string)
  : option (list Field) :=
  if strict_eq v JUndefined then Some []
  else s ← text v; Some [ {| label := name; value := s; inline := true |} ].

(** [createStatsEmbed(stats, playerName, platform)]: the embed that the
    calls ask [EmbedBuilder] for; [None]: [toLocaleString], [toString] or
    [toFixed] is called on a value without it, and the function throws.
    The builder's own checks (a title within 256 characters, a thumbnail
    that is a URL) are left out: where they fail the function throws as
    well. *)
Definition createStatsEmbed (stats : json) (playerName : jsval) (platform : string)
  : option Embed :=
  let player := or (prop stats "userName") (prop stats "name") in
  kills ← field_of (prop stats "kills") "💀 Kills" method_toLocaleString;
  deaths ← field_of (prop stats "deaths") "☠️ Deaths" method_toLocaleString;
  kdRatio ← field_of (prop stats "kdRatio") "📊 K/D Ratio" (method_toFixed 2);
  score ← field_of (prop stats "score") "⭐ Score" method_toLocaleString;
  wins ← field_of (prop stats "wins") "🏆 Wins" method_toLocaleString;
  losses ← field_of (prop stats "losses") "❌ Losses" method_toLocaleString;
  winPercent ← field_of (prop stats "winPercent") "📈 Win %"
                 (fun v => s ← method_toFixed 1 v; Some (s ++ "%"));
  killsPerMinute ← field_of (prop stats "killsPerMinute") "⚡ Kills/Min" (method_toFixed 2);
  timePlayed ← field_of (prop stats "timePlayed") "⏱️ Time Played" timePlayed_text;
  rank ← field_of (prop stats "rank") "🎖️ Rank" method_toString;
  scorePerMinute ← field_of (prop stats "scorePerMinute") "📊 SPM" (method_toFixed 0);
  Some {| title := "🎮 " ++ ToString playerName ++ "'s Battlefield 6 Stats";
          color := 39423;
          footer := "Platform: " ++ toUpperCase platform;
          description := if truthy player then Some ("**Player:** " ++ ToString player)
                         else None;
          fields := firstn 25 (kills ++ deaths ++ kdRatio ++ score ++ wins ++ losses
                               ++ winPercent ++ killsPerMinute ++ timePlayed ++ rank
                               ++ scorePerMinute)%list;
          thumbnail := if truthy (prop stats "avatar") then Some (prop stats "avatar")
                       else None |}.

(** *** The poll loop *)

(** [player.personaId || `${player.name}_${player.platform}`]. *)
Definition playerKey (player : Player) : jsval :=
  or (personaId player) (JStr (ToString (name player) ++ "_" ++ platform player)).

(** [postPlayerStats(player)]. *)
Definition postPlayerStats (player : Player) : M unit :=
  if negb (channel env) then mret tt
  else
    stats ← fetchPlayerStats (name player) (platform player) (personaId player);
    if negb (json_truthy stats) then mret tt
    else
      let key := playerKey player in
      lastStatsData ← gets (fun w => Map_get key (lastStats w));
      if negb (statsChanged lastStatsData stats) then mret tt
      else
        embed ← lift (createStatsEmbed stats (name player) (platform player));
        try_catch
          (send env embed;;
           modify (fun w => set_lastStats (Map_set key stats (lastStats w)) w))
          (mret tt).

Fixpoint postAllStats_loop (players : list Player) : M unit :=
  match players with
  | [] => mret tt
  | player :: rest =>
      postPlayerStats player;;
      sleep 2000;;
      postAllStats_loop rest
  end.

(** [postAllStats()]. *)
Definition postAllStats : M unit :=
  players ← gets trackedPlayers;
  if (length players =? 0)%nat then mret tt
  else postAllStats_loop players.

(** *** The command handler *)

(** The test both [!add] and [!track] give to [trackedPlayers.find]:
    [(p.personaId && p.personaId === foundPlayer.personaId) ||
     (p.name === foundPlayer.name && p.platform === foundPlayer.platform)]. *)
Definition sameAs (foundPlayer p : Player) : bool :=
  (truthy (personaId p) && strict_eq (personaId p) (personaId foundPlayer))
  || (strict_eq (name p) (name foundPlayer)
      && String.eqb (platform p) (platform foundPlayer)).

(** The player an id lookup builds from the answer of a platform. *)
Definition foundPlayer_of (data : json) (playerId platform : string) : Player :=
  {| name := or (or (prop data "userName") (prop data "name")) (JStr "Unknown");
     personaId := or (or (prop data "personaId") (prop data "id")) (JStr playerId);
     platform := platform |}.

(** One turn of [!add]'s loop over the platforms; [Some]: the loop breaks. *)
Definition add_probe_step (playerId platform : string) : M (option Player) :=
  try_catch
    (let apiUrl := API_BASE_URL ++ "?personaId=" ++ encodeURIComponent playerId
                   ++ "&platform=" ++ platform in
     response ← fetch env apiUrl;
     foundPlayer ← (if ok response then
                      data ← response_json response;
                      if recognizable data
                      then mret (Some (foundPlayer_of data playerId platform))
                      else mret None
                    else mret None);
     match foundPlayer with
     | Some _ => mret foundPlayer
     | None => sleep 500;; mret None
     end)
    (mret None).

Fixpoint add_probe (playerId : string) (todo : list string) : M (option Player) :=
  match todo with
  | [] => mret None
  | platform :: rest =>
      foundPlayer ← add_probe_step playerId platform;
      match foundPlayer with
      | Some _ => mret foundPlayer
      | None => add_probe playerId rest
      end
  end.

(** One turn of [!track]'s loop over the platforms. *)
Definition track_probe_step (playerId platform : string) : M (option Player) :=
  try_catch
    (let url := API_BASE_URL ++ "?personaId=" ++ encodeURIComponent playerId
                ++ "&platform=" ++ platform in
     response ← fetch env url;
     if ok response then
       data ← response_json response;
       if recognizable data
       then mret (Some (foundPlayer_of data playerId platform))
       else mret None
     else mret None)
    (mret None).

Fixpoint track_probe (playerId : string) (todo : list string) : M (option Player) :=
  match todo with
  | [] => mret None
  | platform :: rest =>
      foundPlayer ← track_probe_step playerId platform;
      match foundPlayer with
      | Some _ => mret foundPlayer
      | None => track_probe playerId rest
      end
  end.

(** [!search <name>]. *)
Definition handle_search (content : string) : M unit :=
  let playerName := trim (slice 8 content) in
  if String.eqb playerName "" then reply env SearchUsage
  else
    reply env (Searching playerName);;
    results ← searchPlayers playerName;
    if (length results =? 0)%nat then reply env (NoPlayersFound playerName)
    else reply_embed env (SearchResults playerName results).

(** What [!add] does with the player its lookup found. *)
Definition add_found (foundPlayer : Player) : M unit :=
  players ← gets trackedPlayers;
  match List.find (sameAs foundPlayer) players with
  | Some _ => reply env (AlreadyTracked foundPlayer)
  | None =>
      modify (fun w => set_trackedPlayers (trackedPlayers w ++ [foundPlayer]) w);;
      saveTrackedPlayers;;
      total ← gets (fun w => length (trackedPlayers w));
      reply_embed env (PlayerAdded foundPlayer total)
  end.

(** [!add <url>]. *)
Definition handle_add (content : string) : M unit :=
  let url := trim (slice 5 content) in
  if String.eqb url "" then reply env AddUsage
  else
    match parseTrackerUrl url with
    | None => reply env InvalidUrl
    | Some playerId =>
        if String.eqb playerId "" then reply env InvalidUrl
        else
          reply env (LookingUp playerId);;
          foundPlayer ← add_probe playerId platforms;
          match foundPlayer with
          | None => reply env (NotOnAnyPlatform playerId)
          | Some foundPlayer => add_found foundPlayer
          end
    end.

(** What [!track] does with the player its lookup found. *)
Definition track_found (foundPlayer : Player) : M unit :=
  players ← gets trackedPlayers;
  match List.find (sameAs foundPlayer) players with
  | Some _ => reply env (AlreadyTracked foundPlayer)
  | None =>
      modify (fun w => set_trackedPlayers (trackedPlayers w ++ [foundPlayer]) w);;
      saveTrackedPlayers;;
      total ← gets (fun w => length (trackedPlayers w));
      reply_embed env (PlayerAdded foundPlayer total)
  end.

(** [!track <id>]. *)
Definition handle_track (content : string) : M unit :=
  let playerId := trim (slice 7 content) in
  if String.eqb playerId "" then reply env TrackUsage
  else
    foundPlayer ← track_probe playerId platforms;
    match foundPlayer with
    | None => reply env (CouldNotFind playerId)
    | Some foundPlayer => track_found foundPlayer
    end.

(** [!list]. *)
Definition handle_list : M unit :=
  players ← gets trackedPlayers;
  if (length players =? 0)%nat then reply env NoPlayersTracked
  else reply_embed env (TrackedList players).

(** The test [!untrack] gives to [trackedPlayers.findIndex]:
    [(p.personaId && p.personaId === playerId) ||
     p.name.toLowerCase() === playerId.toLowerCase()];
    [None]: [p.name] has no [toLowerCase], the test throws. *)
Definition untrack_test (playerId : string) (p : Player) : option bool :=
  if truthy (personaId p) && strict_eq (personaId p) (JStr playerId) then Some true
  else match name p with
       | JStr s => Some (String.eqb (String_toLowerCase env s)
                                    (String_toLowerCase env playerId))
       | _ => None
       end.

(** [players.findIndex(test)] with the element found; [Some None] is the
    index -1 and [None] a test that throws. *)
Fixpoint findIndex {A : Type} (test : A -> option bool) (l : list A)
  : option (option (nat * A)) :=
  match l with
  | [] => Some None
  | x :: r =>
      match test x with
      | None => None
      | Some true => Some (Some (O, x))
      | Some false =>
          match findIndex test r with
          | None => None
          | Some None => Some None
          | Some (Some (i, y)) => Some (Some (S i, y))
          end
      end
  end.

(** [!untrack <id>]. *)
Definition handle_untrack (content : string) : M unit :=
  let playerId := trim (slice 9 content) in
  if String.eqb playerId "" then reply env UntrackUsage
  else
    players ← gets trackedPlayers;
    found ← lift (findIndex (untrack_test playerId) players);
    match found with
    | None => reply env (NotTracked playerId)
    | Some (index, removedPlayer) =>
        modify (fun w => set_trackedPlayers (delete index (trackedPlayers w)) w);;
        saveTrackedPlayers;;
        let playerKey := playerKey removedPlayer in
        modify (fun w => set_lastStats (Map_delete playerKey (lastStats w)) w);;
        reply env (Removed removedPlayer)
    end.

(** [!update] and [!bf6update]. *)
Definition handle_update : M unit :=
  reply env Updating;;
  postAllStats;;
  reply env Updated.

(** The [messageCreate] listener, given whether the author is a bot and the
    text of the message. *)
Definition messageCreate (author_bot : bool) (message_content : string) : M unit :=
  if author_bot then mret tt
  else
    let content := trim message_content in
    if startsWith "!search " content then handle_search content
    else if startsWith "!add " content then handle_add content
    else if startsWith "!track " content then handle_track content
    else if String.eqb content "!list" then handle_list
    else if startsWith "!untrack " content then handle_untrack content
    else if String.eqb content "!update" || String.eqb content "!bf6update"
    then handle_update
    else if String.eqb content "!help" || String.eqb content "!bf6help"
    then reply env Help
    else mret tt.


End Program.

End Bot.
Export Bot.

(** ** The vocabulary of the properties *)

Module Spec.

Section Vocabulary.

Variable Number_toString_fraction : Q -> string.
Variable env : Env.

#[local] Abbreviation ToString := (ToString Number_toString_fraction).
#[local] Abbreviation playerKey := (playerKey Number_toString_fraction).
#[local] Abbreviation saveTrackedPlayers := (saveTrackedPlayers env).

(** The segments of a path: the pieces between slashes that are not empty. *)
Definition path_segments (pathname : string) : list string :=
  List.filter (fun p => negb (String.eqb p "")) (split "/" pathname).

(** A string of decimal digits, at least one. *)
Definition only_digits (s : string) : Prop :=
  s <> ""
  /\ Forall (fun c => (48 <= nat_of_ascii c <= 57)%nat) (list_ascii_of_string s).

(** The character occurs in the string. *)
Fixpoint holds (c : ascii) (s : string) : Prop :=
  match s with
  | EmptyString => False
  | String c' r => c' = c \/ holds c r
  end.

(** The URL [fetchPlayerStats] requests for a tracked player. *)
Definition stats_url (player : Player) : string :=
  let url := API_BASE_URL ++ "?name=" ++ encodeURIComponent (ToString (name player))
             ++ "&platform=" ++ platform player in
  if truthy (personaId player)
  then url ++ "&personaId=" ++ encodeURIComponent (ToString (personaId player))
  else url.

(** The stats a request brings: the body of an answer that is ok, parses
    and is not a falsy value; anything else is a failed fetch. *)
Definition fetched_stats (o : FetchOutcome) : option json :=
  match o with
  | Answer {| ok := true; body := Some d |} => if json_truthy d then Some d else None
  | _ => None
  end.

(** The messages posted to the channel, and the URLs requested, in a trace. *)
Definition delivered (tr : list Event) : list Embed :=
  flat_map (fun e => match e with Sent m true => [m] | _ => [] end) tr.

Definition requested (tr : list Event) : list string :=
  flat_map (fun e => match e with Fetched url => [url] | _ => [] end) tr.

(** The URL an id lookup requests for a platform. *)
Definition probe_url (playerId platform : string) : string :=
  API_BASE_URL ++ "?personaId=" ++ encodeURIComponent playerId ++ "&platform=" ++ platform.

(** The URL a search by name requests for a platform. *)
Definition search_url (playerName platform : string) : string :=
  API_BASE_URL ++ "?name=" ++ encodeURIComponent playerName ++ "&platform=" ++ platform.

(** The data of an answer that is ok and parses. *)
Definition answered (o : FetchOutcome) : option json :=
  match o with
  | Answer {| ok := true; body := Some d |} => Some d
  | _ => None
  end.

(** A trace without its pauses. *)
Definition without_pauses (tr : list Event) : list Event :=
  List.filter (fun e => match e with Slept _ => false | _ => true end) tr.

(** Two worlds that are the same but for the pauses in their traces. *)
Definition same_but_pauses (w1 w2 : World) : Prop :=
  trackedPlayers w1 = trackedPlayers w2
  /\ lastStats w1 = lastStats w2
  /\ file w1 = file w2
  /\ fetches w1 = fetches w2
  /\ sends w1 = sends w2
  /\ replies w1 = replies w2
  /\ writes w1 = writes w2
  /\ without_pauses (trace w1) = without_pauses (trace w2).

(** The entries a search has for the platform it asks with its [i]-th
    request: one for data that is there and recognizable, none otherwise. *)
Definition search_hit (playerName : string) (w : World) (i : nat) (platform : string)
  : list SearchResult :=
  match answered (net env (fetches w + i) (search_url playerName platform)) with
  | Some data => if recognizable data then [search_entry data playerName platform] else []
  | None => []
  end.

(** Data that defines one of userName, name and personaId. *)
Definition defines_player (data : json) : bool :=
  negb (strict_eq (prop data "userName") JUndefined)
  || negb (strict_eq (prop data "name") JUndefined)
  || negb (strict_eq (prop data "personaId") JUndefined).

(** A relation between the world before and the world after that holds of
    no change, composes, and holds of recording any event but a write. *)
Class Frame (R : World -> World -> Prop) : Prop := {
  frame_refl : forall w, R w w;
  frame_trans : forall w1 w2 w3, R w1 w2 -> R w2 w3 -> R w1 w3;
  frame_record : forall e w, (forall l b, e <> Wrote l b) -> R w (record e w)
}.

(** A computation all of whose runs are within [R]. *)
Definition respects (R : World -> World -> Prop) {A : Type} (c : M A) : Prop :=
  forall w, R w (snd (c w)).

(** The store is as it was: the tracked list, the file and the writes. *)
Definition store_kept (w w' : World) : Prop :=
  trackedPlayers w' = trackedPlayers w /\ file w' = file w /\ writes w' = writes w.

(** The store and the cache are as they were. *)
Definition state_kept (w w' : World) : Prop :=
  store_kept w w' /\ lastStats w' = lastStats w.

(** Two players with the same identity key, the key of the cache. *)
Definition same_key (p q : Player) : bool := strict_eq (playerKey p) (playerKey q).

(** The world after [trackedPlayers.push(foundPlayer); saveTrackedPlayers()]. *)
Definition pushed (foundPlayer : Player) (w : World) : World :=
  snd (saveTrackedPlayers
         (set_trackedPlayers (trackedPlayers w ++ [foundPlayer]) w)).

(** The world after [trackedPlayers.splice(index, 1); saveTrackedPlayers()]. *)
Definition spliced (index : nat) (w : World) : World :=
  snd (saveTrackedPlayers
         (set_trackedPlayers (delete index (trackedPlayers w)) w)).

End Vocabulary.

(** A tracked player an [!untrack] argument names: by its personaId, or by
    its name whatever the case of the letters. *)
Definition named_by (env : Env) (playerId : string) (p : Player) : bool :=
  strict_eq (personaId p) (JStr playerId)
  || match name p with
     | JStr s => String.eqb (String_toLowerCase env s) (String_toLowerCase env playerId)
     | _ => false
     end.

(** A player whose name is a string, as a tracked player's is meant to be. *)
Definition named (p : Player) : Prop := exists s, name p = JStr s.

(** The events of a trace are no writes. *)
Definition no_writes (evs : list Event) : Prop :=
  Forall (fun e => forall l b, e <> Wrote l b) evs.

(** The trace goes on, without a write. *)
Definition goes_on (w w' : World) : Prop :=
  exists evs, trace w' = (trace w ++ evs)%list /\ no_writes evs.

(** Nothing but the trace changed, and the trace went on without a write. *)
Definition quiet (w w' : World) : Prop :=
  state_kept w w' /\ goes_on w w'.

(** The store is as it was after some events that are no writes. *)
Definition store_untouched (w w' : World) : Prop :=
  store_kept w w' /\ goes_on w w'.

(** The one write made was of the tracked list as it now is; all that came
    after it is at most one reply (none when the embed of the reply could
    not be built); and the file holds the list if the write went
    through. *)
Definition saved_before_reply (env : Env) (w w' : World) : Prop :=
  exists evs after,
    no_writes evs
    /\ trace w' = (trace w ++ evs
                   ++ Wrote (trackedPlayers w') (write_ok env (writes w)) :: after)%list
    /\ (after = [] \/ exists r, after = [Replied r])
    /\ (write_ok env (writes w) = true -> file w' = Some (Json (trackedPlayers w'))).

(** Two players that share a personaId, and two with the same name and
    platform. *)
Definition shares_personaId (p q : Player) : bool :=
  truthy (personaId p) && strict_eq (personaId p) (personaId q).

Definition same_name_platform (p q : Player) : bool :=
  strict_eq (name p) (name q) && String.eqb (platform p) (platform q).

(** No two players of the list share a personaId, and no two have the same
    name and platform. *)
Fixpoint distinct_players (l : list Player) : bool :=
  match l with
  | [] => true
  | p :: r =>
      forallb (fun q => negb (shares_personaId p q || same_name_platform p q)) r
      && distinct_players r
  end.

(** Every player of the list has a personaId. *)
Definition all_have_personaId (l : list Player) : bool :=
  forallb (fun p => truthy (personaId p)) l.

(** No two players of the list have the same identity key. *)
Fixpoint distinct_keys (key : Player -> jsval) (l : list Player) : bool :=
  match l with
  | [] => true
  | p :: r => forallb (fun q => negb (strict_eq (key p) (key q))) r && distinct_keys key r
  end.

(** The tracked list after each of a sequence of messages, none from a bot. *)
Definition after_messages (URL_pathname : string -> option string)
    (StringToNumber : string -> option Q) (Number_toString_fraction : Q -> string)
    (env : Env) (messages : list string) (w : World) : World :=
  fold_left (fun w content =>
               snd (messageCreate URL_pathname StringToNumber Number_toString_fraction
                      env false content w))
            messages w.

End Spec.
Export Spec.

(** ** A reference runtime

    Stand-ins for the runtime's conversions, used where a property is
    evaluated on concrete input: the path of a URL written
    [scheme://authority/path?query#fragment] (no dot segments, no escapes),
    and conversions that know no string and no fraction. *)

Fixpoint after_scheme (s : string) : option string :=
  match s with
  | String ":" (String "/" (String "/" r)) => Some r
  | String c r => if Ascii.eqb c "/" then None else after_scheme r
  | EmptyString => None
  end.

Fixpoint from_slash (s : string) : string :=
  match s with
  | EmptyString => "/"
  | String c r =>
      if Ascii.eqb c "/" then s
      else if Ascii.eqb c "?" || Ascii.eqb c "#" then "/"
      else from_slash r
  end.

Fixpoint until_query (s : string) : string :=
  match s with
  | EmptyString => EmptyString
  | String c r =>
      if Ascii.eqb c "?" || Ascii.eqb c "#" then EmptyString
      else String c (until_query r)
  end.

Definition plain_pathname (url : string) : option string :=
  match after_scheme url with
  | Some r => if String.eqb r "" then None else Some (until_query (from_slash r))
  | None => None
  end.

Definition no_StringToNumber (s : string) : option Q := None.
Definition no_fraction (q : Q) : string := "".

(** A snapshot of the examples: the object with the given properties. *)
Definition object (l : list (string * jsval)) : json := Obj (list_to_map l).

(** *** Example worlds *)

Definition empty_world : World :=
  {| trackedPlayers := []; lastStats := []; file := Some (Json []); trace := [];
     fetches := 0; sends := 0; replies := 0; writes := 0 |}.

Definition tracking (players : list Player) : World :=
  set_trackedPlayers players empty_world.

Definition alice : Player := {| name := JStr "Alice"; platform := "pc"; personaId := JStr "1001" |}.
Definition bob : Player := {| name := JStr "Bob"; platform := "xbox"; personaId := JStr "1002" |}.

Definition bob_stats : json :=
  object [("userName", JStr "Bob"); ("kills", JNum 10); ("deaths", JNum 4)].

(** Everything goes through, and every request is answered by [answers]. *)
Definition env_of (answers : nat -> string -> FetchOutcome) : Env :=
  {| net := answers; channel := true; send_ok := fun _ => true;
     reply_ok := fun _ => true; write_ok := fun _ => true;
     builds := fun _ => true; String_toLowerCase := toLowerCase_ASCII |}.

(** The first request fails, every later one brings Bob's stats. *)
Definition first_fails : Env :=
  env_of (fun n _ => match n with
                     | O => NetworkError
                     | _ => Answer {| ok := true; body := Some bob_stats |}
                     end).

(** The message the poll loop posts for Bob's stats. *)
Definition bob_embed : Embed :=
  {| title := "🎮 Bob's Battlefield 6 Stats";
     color := 39423;
     footer := "Platform: XBOX";
     description := Some "**Player:** Bob";
     fields := [ {| label := "💀 Kills"; value := "10"; inline := true |};
                 {| label := "☠️ Deaths"; value := "4"; inline := true |} ];
     thumbnail := None |}.

(** Data with a name that is the empty string, and an outside where every
    request is answered with it. *)
Definition blank_name_data : json := object [("name", JStr ""); ("kills", JNum 12)].

Definition blank_names : Env :=
  env_of (fun _ _ => Answer {| ok := true; body := Some blank_name_data |}).

(** A player of the file that has no personaId, and an outside where pc
    answers every lookup with a player named New and no id. *)
Definition legacy : Player :=
  {| name := JStr "Old"; platform := "pc"; personaId := JUndefined |}.

Definition newcomer : Player :=
  {| name := JStr "New"; platform := "pc"; personaId := JStr "Old_pc" |}.

Definition renamed : Env :=
  env_of (fun _ _ => Answer {| ok := true; body := Some (object [("userName", JStr "New")]) |}).

(** Bob again, under another id. *)
Definition bob_again : Player :=
  {| name := JStr "Bob"; platform := "xbox"; personaId := JStr "2002" |}.


(** ** The process: start, shutdown and the timer *)

Module Process.

Section Listeners.

Variable URL_pathname : string -> option string.
Variable StringToNumber : string -> option Q.
Variable Number_toString_fraction : Q -> string.
Variable env : Env.

(** The listener of [exit]: [saveTrackedPlayers]. *)
Definition on_exit : M unit := saveTrackedPlayers env.

(** [process.exit()], as the program takes part in it: the listeners of
    [exit] run. *)
Definition process_exit : M unit := on_exit.

(** The listeners of [SIGINT] and of [SIGTERM]:
    [saveTrackedPlayers(); process.exit()]. *)
Definition on_SIGINT : M unit := saveTrackedPlayers env;; process_exit.
Definition on_SIGTERM : M unit := saveTrackedPlayers env;; process_exit.

(** The [ready] listener: [loadTrackedPlayers(); postAllStats()]. The pass
    is not awaited: what it throws is a rejection that goes to the
    [unhandledRejection] listener, which logs it. The pass is run here to
    its end before anything else is delivered. *)
Definition ready : M unit :=
  loadTrackedPlayers env;;
  try_catch (postAllStats StringToNumber Number_toString_fraction env) (mret tt).

(** What the client and the timer deliver once the bot is ready: a message,
    or a tick of the interval that [ready] set to [postAllStats]. *)
Inductive Delivery : Type :=
  | Message (author_bot : bool) (content : string)
  | Tick.

Definition deliver (d : Delivery) : M unit :=
  match d with
  | Message author_bot content =>
      messageCreate URL_pathname StringToNumber Number_toString_fraction env
        author_bot content
  | Tick => postAllStats StringToNumber Number_toString_fraction env
  end.

(** The world after a sequence of deliveries, each handled to its end
    before the next one starts; what a handler throws is logged and the
    next delivery is handled. (Handlers of the program can also interleave
    at an [await]; these runs are the ones where they do not.) *)
Definition after_deliveries (ds : list Delivery) (w : World) : World :=
  fold_left (fun w d => snd (deliver d w)) ds w.

End Listeners.

(** A new process over the same outside: [lastStats] is a new [Map] and
    [trackedPlayers] an empty array again; the file stays. *)
Definition restart (w : World) : World := set_lastStats [] (set_trackedPlayers [] w).

End Process.
Export Process.

(** ** The lines of a search result *)

Module Embeds.

Section SearchEmbed.

Variable Number_toString_fraction : Q -> string.

#[local] Abbreviation ToString := (ToString Number_toString_fraction).

(** The lines [playerInfo] that the callback of [results.forEach] computes
    for one result, before it hands them to the builder; [None]:
    [toLocaleString] is called on a value without it. *)
Definition playerInfo (player : SearchResult) : option (list string) :=
  let playerInfo := ["**Platform:** " ++ toUpperCase (sr_platform player)] in
  let playerInfo :=
    if truthy (sr_personaId player)
    then (playerInfo ++ [("**ID:** `" ++ ToString (sr_personaId player) ++ "`")%string])%list
    else playerInfo in
  let playerInfo :=
    if negb (strict_eq (sr_rank player) JNull)
    then (playerInfo ++ [("**Rank:** " ++ ToString (sr_rank player))%string])%list
    else playerInfo in
  if negb (strict_eq (sr_kills player) JNull)
  then
    kills ← method_toLocaleString Number_toString_fraction (sr_kills player);
    Some (playerInfo ++ [("**Kills:** " ++ kills)%string])%list
  else Some playerInfo.

End SearchEmbed.

End Embeds.
Export Embeds.

(** ** The version without a player file (index.js)

    The players are those of the configuration, [CONFIG.PLAYERS]; the
    program reads their name and platform. [createStatsEmbed] and
    [statsChanged] are, line by line, those of the later version. *)

Module IndexJs.

Section Program.

Variable StringToNumber : string -> option Q.
Variable Number_toString_fraction : Q -> string.
Variable env : Env.
Variable PLAYERS : list Player.

#[local] Abbreviation ToString := (ToString Number_toString_fraction).

(** [fetchPlayerStats(playerName, platform)]. *)
Definition fetchPlayerStats (playerName : jsval) (platform : string) : M json :=
  try_catch
    (let url := API_BASE_URL ++ "?name=" ++ encodeURIComponent (ToString playerName)
                ++ "&platform=" ++ platform in
     response ← fetch env url;
     if negb (ok response) then mret (Prim JNull)
     else response_json response)
    (mret (Prim JNull)).

(** [postPlayerStats(playerName, platform)]. *)
Definition postPlayerStats (playerName : jsval) (platform : string) : M unit :=
  if negb (channel env) then mret tt
  else
    stats ← fetchPlayerStats playerName platform;
    if negb (json_truthy stats) then mret tt
    else
      let playerKey := JStr (ToString playerName ++ "_" ++ platform) in
      lastStatsData ← gets (fun w => Map_get playerKey (lastStats w));
      if negb (statsChanged lastStatsData stats) then mret tt
      else
        embed ← lift (createStatsEmbed StringToNumber Number_toString_fraction
                        stats playerName platform);
        try_catch
          (send env embed;;
           modify (fun w => set_lastStats (Map_set playerKey stats (lastStats w)) w))
          (mret tt).

Fixpoint postAllStats_loop (players : list Player) : M unit :=
  match players with
  | [] => mret tt
  | player :: rest =>
      postPlayerStats (name player) (platform player);;
      sleep 2000;;
      postAllStats_loop rest
  end.

(** [postAllStats()]. *)
Definition postAllStats : M unit :=
  if (length PLAYERS =? 0)%nat then mret tt
  else postAllStats_loop PLAYERS.

End Program.

End IndexJs.

(** ** More vocabulary *)

Module Vocabulary.

(** The properties of a snapshot that [createStatsEmbed] shows, each with
    the label of its field, in the order of the source. *)
Definition stat_fields : list (string * string) :=
  [ ("kills", "💀 Kills"); ("deaths", "☠️ Deaths"); ("kdRatio", "📊 K/D Ratio");
    ("score", "⭐ Score"); ("wins", "🏆 Wins"); ("losses", "❌ Losses");
    ("winPercent", "📈 Win %"); ("killsPerMinute", "⚡ Kills/Min");
    ("timePlayed", "⏱️ Time Played"); ("rank", "🎖️ Rank"); ("scorePerMinute", "📊 SPM") ].

(** The properties shown with [toLocaleString] or [toString], and those
    shown with [toFixed]. *)
Definition counted_fields : list string :=
  ["kills"; "deaths"; "score"; "wins"; "losses"; "rank"].

Definition ratio_fields : list string :=
  ["kdRatio"; "winPercent"; "killsPerMinute"; "scorePerMinute"].

Definition defined (v : jsval) : bool := negb (strict_eq v JUndefined).

Definition is_number (v : jsval) : bool :=
  match v with
  | JNum _ => true
  | _ => false
  end.

(** The player an id lookup has for the platform it asks with its [i]-th
    request: the player built from data that is there and recognizable. *)
Definition probe_hit (env : Env) (playerId : string) (w : World) (i : nat)
    (platform : string) : option Player :=
  match answered (net env (fetches w + i) (probe_url playerId platform)) with
  | Some data =>
      if recognizable data then Some (foundPlayer_of data playerId platform) else None
  | None => None
  end.

(** The first of the options that is there. *)
Fixpoint first_of {A : Type} (l : list (option A)) : option A :=
  match l with
  | [] => None
  | Some a :: _ => Some a
  | None :: r => first_of r
  end.

(** How many of the options are looked at to find the first that is there. *)
Fixpoint asked {A : Type} (l : list (option A)) : nat :=
  match l with
  | [] => 0
  | Some _ :: _ => 1
  | None :: r => S (asked r)
  end.

(** The trace goes on with events that all satisfy [P]. *)
Definition goes_on_with (P : Event -> Prop) (w w' : World) : Prop :=
  exists evs, trace w' = (trace w ++ evs)%list /\ Forall P evs.

(** A computation all of whose runs add only events that satisfy [P]. *)
Definition emits (P : Event -> Prop) {A : Type} (c : M A) : Prop :=
  forall w, goes_on_with P w (snd (c w)).

(** The replies that tell how a command is used. *)
Definition is_usage (r : Reply) : bool :=
  match r with
  | SearchUsage | AddUsage | TrackUsage | UntrackUsage => true
  | _ => false
  end.

(** Events that are no reply telling how a command is used. *)
Definition no_usage (e : Event) : Prop :=
  match e with
  | Replied r => is_usage r = false
  | _ => True
  end.

(** The events of a command that is no update: no message to the channel,
    requests only of the URLs of a search by name and of a lookup by id on
    pc, xbox and psn, and pauses of half a second. *)
Definition of_a_lookup (e : Event) : Prop :=
  match e with
  | Sent _ _ => False
  | Fetched url =>
      exists text platform,
        In platform platforms
        /\ (url = search_url text platform \/ url = probe_url text platform)
  | Slept ms => ms = 500%nat
  | _ => True
  end.

(** A string of white space only. *)
Fixpoint all_space (s : string) : bool :=
  match s with
  | EmptyString => true
  | String c r => is_space c && all_space r
  end.

(** The file holds the tracked list, or it is unreadable and the list is
    empty: what a start leaves and the commands keep while the writes go
    through. *)
Definition in_step (w : World) : Prop :=
  file w = Some (Json (trackedPlayers w))
  \/ (file w = Some Unreadable /\ trackedPlayers w = []).

End Vocabulary.
Export Vocabulary.

(** *** More examples *)

(** A snapshot whose K/D ratio is a text, and an outside where every
    request is answered with it. *)
Definition text_ratio_stats : json :=
  object [("userName", JStr "Bob"); ("kills", JNum 10); ("kdRatio", JStr "2.5")].

Definition text_ratios : Env :=
  env_of (fun _ _ => Answer {| ok := true; body := Some text_ratio_stats |}).

(** An outside where every request brings Bob's stats. *)
Definition always_bob : Env :=
  env_of (fun _ _ => Answer {| ok := true; body := Some bob_stats |}).

(** An outside without the channel and one where no write goes through. *)
Definition no_channel : Env :=
  {| net := net first_fails; channel := false; send_ok := fun _ => true;
     reply_ok := fun _ => true; write_ok := fun _ => true;
     builds := fun _ => true; String_toLowerCase := toLowerCase_ASCII |}.

Definition read_only : Env :=
  {| net := net first_fails; channel := true; send_ok := fun _ => true;
     reply_ok := fun _ => true; write_ok := fun _ => false;
     builds := fun _ => true; String_toLowerCase := toLowerCase_ASCII |}.

(** An outside where the first send fails, and one where no reply is
    delivered. *)
Definition one_send_fails : Env :=
  {| net := net always_bob; channel := true;
     send_ok := fun n => match n with O => false | _ => true end;
     reply_ok := fun _ => true; write_ok := fun _ => true;
     builds := fun _ => true; String_toLowerCase := toLowerCase_ASCII |}.

Definition no_replies : Env :=
  {| net := net first_fails; channel := true; send_ok := fun _ => true;
     reply_ok := fun _ => false; write_ok := fun _ => true;
     builds := fun _ => true; String_toLowerCase := toLowerCase_ASCII |}.

(** A player whose personaId is a number, and an outside where every
    request is answered with this id and the builder takes a field value
    only if it is a string: the embed that tells of a player added is not
    built for a personaId that is a number. *)
Definition bob_7 : Player :=
  {| name := JStr "Bob"; platform := "pc"; personaId := JNum 7 |}.

Definition number_ids : Env :=
  {| net := fun _ _ => Answer {| ok := true;
                                 body := Some (object [("userName", JStr "Bob");
                                                       ("personaId", JNum 7)]) |};
     channel := true; send_ok := fun _ => true;
     reply_ok := fun _ => true; write_ok := fun _ => true;
     builds := fun r => match r with
                        | PlayerAdded f _ =>
                            match personaId f with
                            | JStr _ => true
                            | _ => false
                            end
                        | _ => true
                        end;
     String_toLowerCase := toLowerCase_ASCII |}.

(** A player whose name is a number, and an outside where every request
    is answered with this name. *)
Definition numbered : Player :=
  {| name := JNum 7; platform := "pc"; personaId := JStr "1003" |}.

Definition number_names : Env :=
  env_of (fun _ _ => Answer {| ok := true; body := Some (object [("userName", JNum 7)]) |}).
(** ** Properties of the pure functions *)

Lemma strict_eq_refl (v : jsval) : strict_eq v v = true.
Proof.
  destruct v as [ | | b | q | s ]; simpl; try reflexivity.
  - apply Bool.eqb_reflx.
  - apply Qeq_bool_iff. reflexivity.
  - apply String.eqb_refl.
Qed.

Lemma strict_eq_sym (a b : jsval) : strict_eq a b = strict_eq b a.
Proof.
  destruct a as [ | | x | x | x ], b as [ | | y | y | y ]; simpl; try reflexivity.
  - destruct x, y; reflexivity.
  - apply Bool.eq_true_iff_eq. rewrite !Qeq_bool_iff. split; intros H; symmetry; exact H.
  - apply String.eqb_sym.
Qed.

Lemma strict_eq_trans (a b c : jsval) :
  strict_eq a b = true -> strict_eq b c = true -> strict_eq a c = true.
Proof.
  destruct a as [ | | x | x | x ], b as [ | | y | y | y ], c as [ | | z | z | z ];
    simpl; try congruence.
  - destruct x, y, z; simpl; congruence.
  - rewrite !Qeq_bool_iff. intros H1 H2. rewrite H1. exact H2.
  - rewrite !String.eqb_eq. congruence.
Qed.

Lemma strict_eq_truthy (a b : jsval) :
  strict_eq a b = true -> truthy a = truthy b.
Proof.
  destruct a as [ | | x | x | x ], b as [ | | y | y | y ]; simpl; try congruence.
  - destruct x, y; simpl; congruence.
  - rewrite Qeq_bool_iff. intros H. f_equal.
    apply Bool.eq_true_iff_eq. rewrite !Qeq_bool_iff. rewrite H. reflexivity.
  - rewrite String.eqb_eq. congruence.
Qed.

(** *** The [Map] *)

Lemma strict_eq_left (a b c : jsval) :
  strict_eq a b = true -> strict_eq a c = strict_eq b c.
Proof.
  intros Hab. destruct (strict_eq b c) eqn:Hbc.
  - eapply strict_eq_trans; eassumption.
  - destruct (strict_eq a c) eqn:Hac; [ | reflexivity ].
    rewrite <- Hbc. symmetry. eapply strict_eq_trans; [ | exact Hac ].
    rewrite strict_eq_sym. exact Hab.
Qed.

Lemma find_none_existsb {A} (f : A -> bool) (l : list A) :
  existsb f l = false -> List.find f l = None.
Proof.
  induction l as [ | x r IH ]; simpl; [ reflexivity | ].
  destruct (f x); simpl; [ discriminate | exact IH ].
Qed.

Lemma find_app {A} (f : A -> bool) (l l' : list A) :
  List.find f (l ++ l') = match List.find f l with
                          | Some x => Some x
                          | None => List.find f l'
                          end.
Proof.
  induction l as [ | x r IH ]; simpl; [ reflexivity | ].
  destruct (f x); [ reflexivity | exact IH ].
Qed.

Lemma Map_get_set_same (k : jsval) (v : json) (m : list (jsval * json)) :
  Map_get k (Map_set k v m) = Some v.
Proof.
  unfold Map_get, Map_set.
  destruct (existsb _ m) eqn:Hex.
  - induction m as [ | [k0 v0] r IH ]; simpl in *; [ discriminate | ].
    destruct (strict_eq k0 k) eqn:Hk0; simpl.
    + rewrite Hk0. reflexivity.
    + rewrite Hk0. apply IH. exact Hex.
  - rewrite find_app, (find_none_existsb _ _ Hex). simpl.
    rewrite strict_eq_refl. reflexivity.
Qed.

Lemma Map_get_set_other (k k' : jsval) (v : json) (m : list (jsval * json)) :
  strict_eq k k' = false -> Map_get k' (Map_set k v m) = Map_get k' m.
Proof.
  intros Hne. unfold Map_get, Map_set.
  destruct (existsb _ m) eqn:Hex.
  - clear Hex. induction m as [ | [k0 v0] r IH ]; simpl; [ reflexivity | ].
    destruct (strict_eq k0 k) eqn:Hk0; simpl.
    + rewrite (strict_eq_left _ _ k' Hk0), Hne. exact IH.
    + destruct (strict_eq k0 k'); [ reflexivity | exact IH ].
  - rewrite find_app. destruct (List.find _ m); [ reflexivity | ].
    simpl. rewrite Hne. reflexivity.
Qed.

Lemma Map_get_delete_same (k : jsval) (m : list (jsval * json)) :
  Map_get k (Map_delete k m) = None.
Proof.
  unfold Map_get, Map_delete.
  induction m as [ | [k0 v0] r IH ]; simpl; [ reflexivity | ].
  destruct (strict_eq k0 k) eqn:Hk0; simpl; [ exact IH | ].
  rewrite Hk0. exact IH.
Qed.

Lemma Map_get_delete_other (k k' : jsval) (m : list (jsval * json)) :
  strict_eq k k' = false -> Map_get k' (Map_delete k m) = Map_get k' m.
Proof.
  intros Hne. unfold Map_get, Map_delete.
  induction m as [ | [k0 v0] r IH ]; simpl; [ reflexivity | ].
  destruct (strict_eq k0 k) eqn:Hk0; simpl.
  - rewrite (strict_eq_left _ _ k' Hk0), Hne. exact IH.
  - destruct (strict_eq k0 k'); [ reflexivity | exact IH ].
Qed.

Lemma strict_eq_same_value (a b : jsval) : strict_eq a b = true <-> same_value a b.
Proof.
  destruct a as [ | | x | x | x ], b as [ | | y | y | y ]; simpl;
    try (split; [ discriminate | intros [=] ]); try tauto.
  - rewrite Bool.eqb_true_iff. split; congruence.
  - apply Qeq_bool_iff.
  - rewrite String.eqb_eq. split; congruence.
Qed.

(** C1. [statsChanged] with no previous snapshot is true; with a
    previous snapshot, it is false whenever each of the fields kills,
    deaths, score, wins, losses and rank has the same value in both
    snapshots or is undefined in one of them (so the snapshots differ at
    most in other fields, or in fixed fields that one side does not
    define). *)
Theorem statsChanged_absent_or_same_key_fields :
  (forall current : json, statsChanged None current = true)
  /\ (forall A B : gmap string jsval,
        (forall field, In field keyFields ->
           same_value (prop (Obj A) field) (prop (Obj B) field)
           \/ prop (Obj A) field = JUndefined
           \/ prop (Obj B) field = JUndefined) ->
        statsChanged (Some (Obj A)) (Obj B) = false).
Proof.
  split; [ reflexivity | ].
  intros A B Hsame. unfold statsChanged.
  change (negb (json_truthy (Obj A))) with false. cbv iota.
  apply Bool.not_true_is_false. intros Hex.
  apply existsb_exists in Hex. destruct Hex as (field & Hin & Hdiff).
  destruct (Hsame field Hin) as [Heq | [HA | HB]].
  - apply strict_eq_same_value in Heq. rewrite Heq in Hdiff.
    destruct (negb _ && negb _); discriminate.
  - rewrite HA in Hdiff. discriminate.
  - rewrite HB in Hdiff. simpl in Hdiff. rewrite Bool.andb_false_r in Hdiff. discriminate.
Qed.

(** The snapshots differ in timePlayed and in deaths, which the previous
    one does not define. *)
Lemma statsChanged_absent_or_same_key_fields_witness :
  statsChanged
    (Some (object [("kills", JNum 100); ("timePlayed", JNum 7200)]))
    (object [("kills", JNum 100); ("timePlayed", JNum 7260); ("deaths", JNum 3)])
  = false.
Proof.
  apply (proj2 statsChanged_absent_or_same_key_fields).
  intros field Hin. simpl in Hin.
  destruct Hin as [<- | [<- | [<- | [<- | [<- | [<- | []]]]]]]; vm_compute; auto.
Defined.

(** C3. For the snapshot with exactly the fields kills 100, deaths 50 and
    kdRatio 2.0, whatever the player and the platform, [createStatsEmbed]
    returns an embed with exactly three fields, in this order: Kills with
    the grouped text of 100, Deaths with that of 50, and K/D Ratio with
    2.00, two decimals; no field has the label of score, wins, losses,
    win percent, kills per minute, time played, rank or score per
    minute. *)
Theorem createStatsEmbed_kills_deaths_kdRatio :
  forall (StringToNumber : string -> option Q) (Number_toString_fraction : Q -> string)
         (playerName : jsval) (platform : string),
  exists embed,
    createStatsEmbed StringToNumber Number_toString_fraction
      (object [("kills", JNum 100); ("deaths", JNum 50); ("kdRatio", JNum 2)])
      playerName platform = Some embed
    /\ fields embed =
         [ {| label := "💀 Kills"; value := "100"; inline := true |};
           {| label := "☠️ Deaths"; value := "50"; inline := true |};
           {| label := "📊 K/D Ratio"; value := "2.00"; inline := true |} ]
    /\ Number_toLocaleString 100 = "100"
    /\ Number_toLocaleString 50 = "50"
    /\ toFixed 2 2 = "2.00"
    /\ Forall (fun f => ~ In (label f)
                 ["⭐ Score"; "🏆 Wins"; "❌ Losses"; "📈 Win %"; "⚡ Kills/Min";
                  "⏱️ Time Played"; "🎖️ Rank"; "📊 SPM"]) (fields embed).
Proof.
  intros StringToNumber Number_toString_fraction playerName platform.
  eexists. split; [ vm_compute; reflexivity | ].
  repeat split; try (vm_compute; reflexivity).
  repeat constructor; simpl; intros H;
    repeat (destruct H as [H | H]; [ discriminate H | ]); exact H.
Qed.

(** *** The path of a tracker URL *)

(** The pieces of [split] put together again with the separator give the
    string back, and no piece holds the separator. *)
Lemma split_nonempty (sep : ascii) (s : string) : split sep s <> [].
Proof.
  destruct s as [ | c r ]; simpl; [ discriminate | ].
  destruct (Ascii.eqb c sep); [ discriminate | ].
  destruct (split sep r); discriminate.
Qed.

Lemma concat_split (sep : ascii) (s : string) :
  String.concat (String sep EmptyString) (split sep s) = s.
Proof.
  induction s as [ | c r IH ]; simpl; [ reflexivity | ].
  destruct (Ascii.eqb_spec c sep) as [-> | Hne].
  - simpl. pose proof (split_nonempty sep r) as Hne.
    destruct (split sep r) as [ | p ps ]; [ contradiction | ].
    simpl in *. rewrite IH. reflexivity.
  - pose proof (split_nonempty sep r) as Hsplit.
    destruct (split sep r) as [ | p ps ]; [ contradiction | ].
    simpl in *. destruct ps; simpl in *; rewrite <- IH; reflexivity.
Qed.

Lemma split_without_separator (sep : ascii) (s p : string) :
  In p (split sep s) -> ~ holds sep p.
Proof.
  revert p. induction s as [ | c r IH ]; simpl; intros p Hin.
  - destruct Hin as [<- | []]. simpl. tauto.
  - destruct (Ascii.eqb_spec c sep) as [-> | Hne].
    + destruct Hin as [<- | Hin]; [ simpl; tauto | auto ].
    + pose proof (split_nonempty sep r) as Hsplit.
      destruct (split sep r) as [ | q qs ]; [ contradiction | ].
      destruct Hin as [<- | Hin].
      * simpl. intros [Heq | Hq]; [ contradiction | ].
        apply (IH q); [ left; reflexivity | exact Hq ].
      * apply IH. right. exact Hin.
Qed.

Lemma all_chars_is_digit (s : string) :
  all_chars is_digit s = true
  <-> Forall (fun c => (48 <= nat_of_ascii c <= 57)%nat) (list_ascii_of_string s).
Proof.
  induction s as [ | c r IH ]; simpl.
  - split; [ constructor | reflexivity ].
  - rewrite Bool.andb_true_iff, IH. unfold is_digit.
    rewrite Bool.andb_true_iff, !Nat.leb_le. split.
    + intros [Hc Hr]. constructor; assumption.
    + intros H. inversion H; subst. split; assumption.
Qed.

Lemma test_digits_only_digits (s : string) :
  test_digits s = true <-> only_digits s.
Proof.
  unfold test_digits, only_digits.
  rewrite Bool.andb_true_iff, Bool.negb_true_iff, all_chars_is_digit.
  rewrite String.eqb_neq. reflexivity.
Qed.

Lemma parseTrackerUrl_Some (URL_pathname : string -> option string)
    (url pathname : string) :
  URL_pathname url = Some pathname ->
  forall id, parseTrackerUrl URL_pathname url = Some id
             <-> exists rest, path_segments pathname = "bf6" :: "profile" :: id :: rest
                              /\ only_digits id.
Proof.
  intros H id. split.
  - intros Hparse. unfold parseTrackerUrl in Hparse. rewrite H in Hparse.
    fold (path_segments pathname) in Hparse.
    destruct (path_segments pathname) as [ | a [ | b [ | c rest ] ] ];
      try discriminate Hparse.
    simpl in Hparse.
    destruct (String.eqb_spec a "bf6") as [-> | ]; [ | discriminate Hparse ].
    destruct (String.eqb_spec b "profile") as [-> | ]; [ | discriminate Hparse ].
    simpl in Hparse. destruct (test_digits c) eqn:Hc; [ | discriminate Hparse ].
    injection Hparse as <-. exists rest. split; [ reflexivity | ].
    apply test_digits_only_digits. exact Hc.
  - intros (rest & Hseg & Hdigits). unfold parseTrackerUrl. rewrite H.
    fold (path_segments pathname). rewrite Hseg. simpl.
    apply test_digits_only_digits in Hdigits. rewrite Hdigits. reflexivity.
Qed.

(** C8. For every URL the runtime accepts, with its path: [parseTrackerUrl]
    returns an id exactly when the first two segments of the path are bf6
    and profile and the id is the third segment and consists of digits only;
    it returns null otherwise, and for a URL the runtime rejects. With the
    paths the runtime gives the two URLs of the examples, the first yields
    2481313248 and the second null. *)
Theorem parseTrackerUrl_third_segment :
  forall URL_pathname : string -> option string,
    (forall url pathname, URL_pathname url = Some pathname ->
       forall id, parseTrackerUrl URL_pathname url = Some id
                  <-> exists rest, path_segments pathname = "bf6" :: "profile" :: id :: rest
                                   /\ only_digits id)
    /\ (forall url, URL_pathname url = None -> parseTrackerUrl URL_pathname url = None)
    /\ (URL_pathname "https://site/bf6/profile/2481313248/overview"
          = Some "/bf6/profile/2481313248/overview" ->
        parseTrackerUrl URL_pathname "https://site/bf6/profile/2481313248/overview"
          = Some "2481313248")
    /\ (URL_pathname "https://site/bf6/profile/pc/SomeName"
          = Some "/bf6/profile/pc/SomeName" ->
        parseTrackerUrl URL_pathname "https://site/bf6/profile/pc/SomeName" = None).
Proof.
  intros URL_pathname. split; [ | repeat split ].
  - intros url pathname Hpath. apply parseTrackerUrl_Some. exact Hpath.
  - intros url Hnone. unfold parseTrackerUrl. rewrite Hnone. reflexivity.
  - intros Hpath. unfold parseTrackerUrl. rewrite Hpath. reflexivity.
  - intros Hpath. unfold parseTrackerUrl. rewrite Hpath. reflexivity.
Qed.

(** The two URLs of the examples, with the path of the reference runtime. *)
Lemma parseTrackerUrl_third_segment_witness :
  parseTrackerUrl plain_pathname "https://site/bf6/profile/2481313248/overview"
    = Some "2481313248"
  /\ parseTrackerUrl plain_pathname "https://site/bf6/profile/pc/SomeName" = None.
Proof.
  destruct (parseTrackerUrl_third_segment plain_pathname) as (_ & _ & Hid & Hname).
  split; [ apply Hid | apply Hname ]; reflexivity.
Defined.

(** ** Properties of the poll loop *)

Ltac run :=
  unfold mbind, M_bind, mret, M_ret, try_catch, throw, gets, modify, lift,
         fetch, response_json, sleep, reply, send, writeFileSync in *;
  simpl in *.

Section PollLoop.

Variable StringToNumber : string -> option Q.
Variable Number_toString_fraction : Q -> string.
Variable env : Env.

#[local] Abbreviation stats_url := (stats_url Number_toString_fraction).
#[local] Abbreviation playerKey := (playerKey Number_toString_fraction).
#[local] Abbreviation createStatsEmbed := (createStatsEmbed StringToNumber Number_toString_fraction).
#[local] Abbreviation postPlayerStats := (postPlayerStats StringToNumber Number_toString_fraction env).
#[local] Abbreviation postAllStats_loop := (postAllStats_loop StringToNumber Number_toString_fraction env).
#[local] Abbreviation postAllStats := (postAllStats StringToNumber Number_toString_fraction env).

Lemma fetchPlayerStats_run (p : Player) (w : World) :
  exists stats,
    fetchPlayerStats Number_toString_fraction env (name p) (platform p) (personaId p) w
    = (Ok stats, record (Fetched (stats_url p)) w)
    /\ fetched_stats (net env (fetches w) (stats_url p))
       = (if json_truthy stats then Some stats else None).
Proof.
  unfold fetchPlayerStats. fold (stats_url p). run.
  destruct (net env (fetches w) (stats_url p)) as [ | [ [ | ] [ d | ] ] ]; simpl;
    eexists; split; reflexivity.
Qed.

(** What one call of [postPlayerStats] does, case by case. *)
Lemma postPlayerStats_run (p : Player) (w : World) :
  postPlayerStats p w =
  if negb (channel env) then (Ok tt, w)
  else
    let w1 := record (Fetched (stats_url p)) w in
    match fetched_stats (net env (fetches w) (stats_url p)) with
    | None => (Ok tt, w1)
    | Some stats =>
        if statsChanged (Map_get (playerKey p) (lastStats w)) stats then
          match createStatsEmbed stats (name p) (platform p) with
          | None => (Thrown, w1)
          | Some e =>
              if send_ok env (sends w)
              then (Ok tt, set_lastStats (Map_set (playerKey p) stats (lastStats w))
                             (record (Sent e true) w1))
              else (Ok tt, record (Sent e false) w1)
          end
        else (Ok tt, w1)
    end.
Proof.
  unfold Bot.postPlayerStats. destruct (channel env); simpl; [ | reflexivity ].
  destruct (fetchPlayerStats_run p w) as (stats & Hrun & Hstats).
  unfold mbind at 1, M_bind at 1. rewrite Hrun, Hstats.
  destruct (json_truthy stats); simpl; [ | reflexivity ].
  run.
  destruct (statsChanged _ stats); simpl; [ | reflexivity ].
  destruct (Bot.createStatsEmbed _ _ stats _ _); simpl; [ | reflexivity ].
  rewrite Nat.add_0_r.
  destruct (send_ok env (sends w)); reflexivity.
Qed.

Lemma postAllStats_loop_cons (p : Player) (rest : list Player) (w : World) :
  postAllStats_loop (p :: rest) w =
  match postPlayerStats p w with
  | (Ok _, w1) => postAllStats_loop rest (record (Slept 2000) w1)
  | (Thrown, w1) => (Thrown, w1)
  end.
Proof.
  simpl. unfold mbind at 1, M_bind at 1.
  destruct (postPlayerStats p w) as [[[] | ] w1]; reflexivity.
Qed.

Lemma requested_app (tr tr' : list Event) :
  requested (tr ++ tr') = (requested tr ++ requested tr')%list.
Proof. apply flat_map_app. Qed.

Lemma delivered_app (tr tr' : list Event) :
  delivered (tr ++ tr') = (delivered tr ++ delivered tr')%list.
Proof. apply flat_map_app. Qed.

(** With the channel at hand, one call requests the player's URL once,
    whatever else it does. *)
Lemma postPlayerStats_requested (p : Player) (w : World) :
  channel env = true ->
  requested (trace (snd (postPlayerStats p w)))
  = (requested (trace w) ++ [stats_url p])%list.
Proof.
  intros Hchannel. rewrite postPlayerStats_run, Hchannel. simpl.
  destruct (fetched_stats _) as [stats | ]; simpl;
    [ | rewrite requested_app; reflexivity ].
  destruct (statsChanged _ stats); simpl; [ | rewrite requested_app; reflexivity ].
  destruct (createStatsEmbed stats _ _); simpl; [ | rewrite requested_app; reflexivity ].
  destruct (send_ok env (sends w)); simpl;
    rewrite !requested_app; simpl; rewrite app_nil_r; reflexivity.
Qed.

(** A pass requests the players' URLs in the order of the list, up to the
    player it stops at, and it takes all of them when it returns. *)
Lemma postAllStats_loop_requested (players : list Player) (w : World) :
  channel env = true ->
  exists k,
    requested (trace (snd (postAllStats_loop players w)))
    = (requested (trace w) ++ map stats_url (take k players))%list
    /\ (fst (postAllStats_loop players w) = Ok tt -> k = length players).
Proof.
  intros Hchannel. revert w.
  induction players as [ | p rest IH ]; intros w.
  - exists 0%nat. simpl. rewrite app_nil_r. split; reflexivity.
  - rewrite postAllStats_loop_cons.
    pose proof (postPlayerStats_requested p w Hchannel) as Hp.
    destruct (postPlayerStats p w) as [[[] | ] w1]; simpl in Hp.
    + destruct (IH (record (Slept 2000) w1)) as (k & Hk & Hall).
      exists (S k). split.
      * rewrite Hk. simpl. rewrite requested_app, Hp. simpl.
        rewrite app_nil_r, <- app_assoc. reflexivity.
      * intros Hok. simpl. f_equal. apply Hall. exact Hok.
    + exists 1%nat. simpl. split; [ exact Hp | discriminate ].
Qed.

Lemma postAllStats_run (w : World) :
  postAllStats w =
  if (length (trackedPlayers w) =? 0)%nat then (Ok tt, w)
  else postAllStats_loop (trackedPlayers w) w.
Proof.
  unfold Bot.postAllStats, mbind, M_bind, gets.
  destruct (length (trackedPlayers w) =? 0)%nat; reflexivity.
Qed.


End PollLoop.


(** ** Properties of the id lookups *)

Lemma foundPlayer_of_personaId (data : json) (playerId platform : string) :
  playerId <> "" -> truthy (personaId (foundPlayer_of data playerId platform)) = true.
Proof.
  intros Hid. unfold foundPlayer_of, or. simpl.
  destruct (truthy (if truthy (prop data "personaId") then _ else _)) eqn:H; [ exact H | ].
  simpl. apply Bool.negb_true_iff. apply String.eqb_neq. exact Hid.
Qed.


Section Lookups.

Variable env : Env.

Lemma add_probe_step_run (playerId platform : string) (w : World) :
  add_probe_step env playerId platform w =
  let w1 := record (Fetched (probe_url playerId platform)) w in
  match answered (net env (fetches w) (probe_url playerId platform)) with
  | Some data =>
      if recognizable data then (Ok (Some (foundPlayer_of data playerId platform)), w1)
      else (Ok None, record (Slept 500) w1)
  | None =>
      match net env (fetches w) (probe_url playerId platform) with
      | Answer {| ok := false |} => (Ok None, record (Slept 500) w1)
      | _ => (Ok None, w1)
      end
  end.
Proof.
  unfold add_probe_step. fold (probe_url playerId platform). run.
  destruct (net env (fetches w) (probe_url playerId platform)) as [ | [ [ | ] [ d | ] ] ];
    simpl; try reflexivity.
  destruct (recognizable d); reflexivity.
Qed.

Lemma track_probe_step_run (playerId platform : string) (w : World) :
  track_probe_step env playerId platform w =
  let w1 := record (Fetched (probe_url playerId platform)) w in
  match answered (net env (fetches w) (probe_url playerId platform)) with
  | Some data =>
      if recognizable data then (Ok (Some (foundPlayer_of data playerId platform)), w1)
      else (Ok None, w1)
  | None => (Ok None, w1)
  end.
Proof.
  unfold track_probe_step. fold (probe_url playerId platform). run.
  destruct (net env (fetches w) (probe_url playerId platform)) as [ | [ [ | ] [ d | ] ] ];
    simpl; try reflexivity.
  destruct (recognizable d); reflexivity.
Qed.

Lemma without_pauses_app (tr tr' : list Event) :
  without_pauses (tr ++ tr') = (without_pauses tr ++ without_pauses tr')%list.
Proof. apply List.filter_app. Qed.

Lemma requested_without_pauses (tr : list Event) :
  requested (without_pauses tr) = requested tr.
Proof.
  induction tr as [ | e tr IH ]; simpl; [ reflexivity | ].
  destruct e; simpl; rewrite IH; reflexivity.
Qed.

Lemma same_but_pauses_fetched (url : string) (w1 w2 : World) :
  same_but_pauses w1 w2 ->
  same_but_pauses (record (Fetched url) w1) (record (Fetched url) w2).
Proof.
  intros (Hplayers & Hstats & Hfile & Hfetches & Hsends & Hreplies & Hwrites & Htrace).
  repeat split; simpl; try congruence.
  rewrite !without_pauses_app, Htrace. reflexivity.
Qed.

Lemma same_but_pauses_slept (ms : nat) (w1 w2 : World) :
  same_but_pauses w1 w2 -> same_but_pauses (record (Slept ms) w1) w2.
Proof.
  intros (Hplayers & Hstats & Hfile & Hfetches & Hsends & Hreplies & Hwrites & Htrace).
  repeat split; simpl; rewrite ?Nat.add_0_r; try congruence.
  rewrite without_pauses_app, Htrace. simpl. apply app_nil_r.
Qed.

Lemma probe_steps_agree (playerId platform : string) (w1 w2 : World) :
  same_but_pauses w1 w2 ->
  fst (add_probe_step env playerId platform w1)
  = fst (track_probe_step env playerId platform w2)
  /\ same_but_pauses (snd (add_probe_step env playerId platform w1))
                     (snd (track_probe_step env playerId platform w2)).
Proof.
  intros Hsame. rewrite add_probe_step_run, track_probe_step_run.
  pose proof (same_but_pauses_fetched (probe_url playerId platform) _ _ Hsame) as Hfetched.
  destruct Hsame as (_ & _ & _ & Hfetches & _). rewrite <- Hfetches. simpl.
  destruct (net env (fetches w1) (probe_url playerId platform)) as [ | [ [ | ] [ d | ] ] ];
    simpl; try (split; [ reflexivity | ]; auto using same_but_pauses_slept).
  destruct (recognizable d); simpl;
    (split; [ reflexivity | ]; auto using same_but_pauses_slept).
Qed.

Lemma probes_agree (playerId : string) (todo : list string) (w1 w2 : World) :
  same_but_pauses w1 w2 ->
  fst (add_probe env playerId todo w1) = fst (track_probe env playerId todo w2)
  /\ same_but_pauses (snd (add_probe env playerId todo w1))
                     (snd (track_probe env playerId todo w2)).
Proof.
  revert w1 w2. induction todo as [ | platform rest IH ]; intros w1 w2 Hsame.
  - simpl. split; [ reflexivity | exact Hsame ].
  - simpl. unfold mbind, M_bind.
    destruct (probe_steps_agree playerId platform w1 w2 Hsame) as (Hfound & Hworlds).
    destruct (add_probe_step env playerId platform w1) as [[[p1 | ] | ] w1'];
      destruct (track_probe_step env playerId platform w2) as [[[p2 | ] | ] w2'];
      simpl in *; try discriminate Hfound.
    + split; assumption.
    + apply IH. exact Hworlds.
    + split; [ reflexivity | exact Hworlds ].
Qed.

(** A lookup requests the platforms' URLs in the order of the list, up to
    the platform it stops at. *)
Lemma track_probe_requested (playerId : string) (todo : list string) (w : World) :
  exists k,
    requested (trace (snd (track_probe env playerId todo w)))
    = (requested (trace w) ++ map (probe_url playerId) (take k todo))%list.
Proof.
  revert w. induction todo as [ | platform rest IH ]; intros w.
  - exists 0%nat. simpl. rewrite app_nil_r. reflexivity.
  - simpl. unfold mbind, M_bind. rewrite track_probe_step_run. simpl.
    assert (Hrec : exists k,
               requested (trace (snd (track_probe env playerId rest
                                         (record (Fetched (probe_url playerId platform)) w))))
               = (requested (trace w)
                  ++ map (probe_url playerId) (take k (platform :: rest)))%list).
    { destruct (IH (record (Fetched (probe_url playerId platform)) w)) as (k & Hk).
      exists (S k). rewrite Hk. simpl. rewrite requested_app, <- app_assoc. reflexivity. }
    destruct (answered _) as [d | ]; [ destruct (recognizable d) | ]; simpl; try exact Hrec.
    exists 1%nat. simpl. rewrite requested_app. reflexivity.
Qed.

Lemma same_but_pauses_refl (w : World) : same_but_pauses w w.
Proof. repeat split. Qed.

(** C9. For every player id and whatever the API answers, the lookup of
    [!add] and the lookup of [!track], started in the same world, return
    the same result (both return normally, with the same found player or
    with none), request the same URLs in the same order, the URLs of the
    platforms pc, xbox, psn up to the platform the lookup stops at, and
    leave worlds that differ only by the pauses of [!add]. *)
Theorem add_probe_same_as_track_probe :
  forall (playerId : string) (w : World),
    fst (add_probe env playerId platforms w) = fst (track_probe env playerId platforms w)
    /\ (exists foundPlayer, fst (track_probe env playerId platforms w) = Ok foundPlayer)
    /\ requested (trace (snd (add_probe env playerId platforms w)))
       = requested (trace (snd (track_probe env playerId platforms w)))
    /\ (exists k,
          requested (trace (snd (track_probe env playerId platforms w)))
          = (requested (trace w) ++ map (probe_url playerId) (take k platforms))%list)
    /\ same_but_pauses (snd (add_probe env playerId platforms w))
                       (snd (track_probe env playerId platforms w)).
Proof.
  intros playerId w.
  destruct (probes_agree playerId platforms w w (same_but_pauses_refl w)) as (Hfound & Hworlds).
  repeat split; try apply Hworlds.
  - exact Hfound.
  - clear. generalize platforms as todo. intros todo. revert w.
    induction todo as [ | platform rest IH ]; intros w; simpl.
    + eexists. reflexivity.
    + unfold mbind, M_bind. rewrite track_probe_step_run. simpl.
      destruct (answered _) as [d | ]; [ destruct (recognizable d) | ]; simpl;
        try apply IH.
      eexists. reflexivity.
  - destruct Hworlds as (_ & _ & _ & _ & _ & _ & _ & Htrace).
    rewrite <- requested_without_pauses, Htrace. apply requested_without_pauses.
  - apply track_probe_requested.
Qed.

Lemma track_probe_found (playerId : string) (todo : list string) (w w1 : World)
    (f : Player) :
  playerId <> "" ->
  track_probe env playerId todo w = (Ok (Some f), w1) ->
  truthy (personaId f) = true /\ In (platform f) todo.
Proof.
  intros Hid. revert w. induction todo as [ | platform rest IH ]; intros w; simpl.
  - intros [=].
  - unfold mbind, M_bind. rewrite track_probe_step_run. simpl.
    destruct (answered _) as [d | ]; [ destruct (recognizable d) | ]; simpl.
    + intros [= <- <-]. split; [ apply foundPlayer_of_personaId; exact Hid | ].
      left. reflexivity.
    + intros Hrest. apply IH in Hrest. tauto.
    + intros Hrest. apply IH in Hrest. tauto.
Qed.

Lemma add_probe_found (playerId : string) (todo : list string) (w w1 : World)
    (f : Player) :
  playerId <> "" ->
  add_probe env playerId todo w = (Ok (Some f), w1) ->
  truthy (personaId f) = true /\ In (platform f) todo.
Proof.
  intros Hid Hadd.
  destruct (probes_agree playerId todo w w (same_but_pauses_refl w)) as (Hfound & _).
  rewrite Hadd in Hfound. simpl in Hfound.
  destruct (track_probe env playerId todo w) as [r w2] eqn:Htrack.
  simpl in Hfound. subst r. eapply track_probe_found; eassumption.
Qed.

End Lookups.

(** ** Properties of the search *)

Section Search.

Variable env : Env.

#[local] Abbreviation search_hit := (search_hit env).

Lemma searchPlayers_step_run (playerName platform : string) (results : list SearchResult)
    (w : World) :
  exists w',
    searchPlayers_step env playerName platform results w
    = (Ok (results ++ search_hit playerName w 0 platform)%list, w')
    /\ fetches w' = S (fetches w)
    /\ requested (trace w') = (requested (trace w) ++ [search_url playerName platform])%list.
Proof.
  unfold searchPlayers_step, Spec.search_hit. fold (search_url playerName platform). run.
  rewrite Nat.add_0_r.
  destruct (net env (fetches w) (search_url playerName platform)) as [ | [ [ | ] [ d | ] ] ];
    simpl; [ | destruct (recognizable d) | | | ];
    eexists; (split; [ rewrite ?app_nil_r; reflexivity | ]); simpl;
    rewrite ?requested_app; simpl; rewrite ?app_nil_r; split; try reflexivity; lia.
Qed.

Lemma searchPlayers_loop_run (playerName : string) (todo : list string)
    (results : list SearchResult) (w : World) :
  exists w',
    searchPlayers_loop env playerName todo results w
    = (Ok (results ++ concat (imap (search_hit playerName w) todo))%list, w')
    /\ requested (trace w') = (requested (trace w) ++ map (search_url playerName) todo)%list.
Proof.
  revert results w. induction todo as [ | platform rest IH ]; intros results w.
  - exists w. simpl. rewrite !app_nil_r. split; reflexivity.
  - simpl. unfold mbind, M_bind.
    destruct (searchPlayers_step_run playerName platform results w)
      as (w1 & -> & Hfetches & Hrequested).
    destruct (IH (results ++ search_hit playerName w 0 platform)%list w1)
      as (w' & -> & Hrequested').
    exists w'. split.
    + rewrite <- app_assoc. do 5 f_equal. apply imap_ext. intros i p _.
      unfold Spec.search_hit, compose. rewrite Hfetches.
      replace (S (fetches w) + i)%nat with (fetches w + S i)%nat by lia. reflexivity.
    + rewrite Hrequested', Hrequested, <- app_assoc. reflexivity.
Qed.

Lemma search_hit_In (playerName : string) (w : World) (i : nat) (platform : string)
    (r : SearchResult) :
  In r (search_hit playerName w i platform)
  <-> exists data,
        answered (net env (fetches w + i) (search_url playerName platform)) = Some data
        /\ recognizable data = true
        /\ r = search_entry data playerName platform.
Proof.
  unfold Spec.search_hit.
  destruct (answered _) as [d | ]; [ destruct (recognizable d) eqn:Hd | ]; simpl; split.
  - intros [<- | []]. exists d. repeat split. exact Hd.
  - intros (data & [= <-] & _ & ->). left. reflexivity.
  - intros [].
  - intros (data & [= <-] & Hdata & _). congruence.
  - intros [].
  - intros (data & [=] & _).
Qed.

Lemma search_hit_platform (playerName : string) (w : World) (i : nat) (platform : string)
    (r : SearchResult) :
  In r (search_hit playerName w i platform) -> sr_platform r = platform.
Proof. rewrite search_hit_In. intros (data & _ & _ & ->). reflexivity. Qed.

Lemma search_hit_short (playerName : string) (w : World) (i : nat) (platform : string) :
  map sr_platform (search_hit playerName w i platform) = [platform]
  \/ search_hit playerName w i platform = [].
Proof.
  unfold Spec.search_hit.
  destruct (answered _) as [d | ]; [ destruct (recognizable d) | ]; simpl; auto.
Qed.

(** C6, amended. For every name, whatever the API answers, [searchPlayers]
    returns normally, having requested the URLs of pc, xbox and psn in this
    order, all three of them whatever any of them came back with; the list
    it returns holds the entries of pc, of xbox and of psn in this order,
    at most one for each, and an entry of a platform is in it exactly when
    the request of that platform was answered ok with a body that parses to
    truthy data whose userName, name or personaId is truthy, the entry
    being the one built from this data. *)
Theorem searchPlayers_one_entry_per_answering_platform :
  forall (playerName : string) (w : World),
  exists results w',
    searchPlayers env playerName w = (Ok results, w')
    /\ results = (search_hit playerName w 0 "pc" ++ search_hit playerName w 1 "xbox"
                  ++ search_hit playerName w 2 "psn")%list
    /\ requested (trace w')
       = (requested (trace w) ++ map (search_url playerName) ["pc"; "xbox"; "psn"])%list
    /\ map sr_platform results `sublist_of` ["pc"; "xbox"; "psn"]
    /\ (forall i platform r,
          ["pc"; "xbox"; "psn"] !! i = Some platform ->
          (In r results /\ sr_platform r = platform)
          <-> exists data,
                answered (net env (fetches w + i) (search_url playerName platform))
                = Some data
                /\ recognizable data = true
                /\ r = search_entry data playerName platform).
Proof.
  intros playerName w. unfold searchPlayers.
  destruct (searchPlayers_loop_run playerName platforms [] w) as (w' & Hrun & Hrequested).
  eexists. exists w'. split; [ exact Hrun | ]. simpl. rewrite !app_nil_r.
  split; [ reflexivity | ]. split; [ exact Hrequested | ]. split.
  - rewrite !map_app.
    destruct (search_hit_short playerName w 0 "pc") as [-> | ->];
      destruct (search_hit_short playerName w 1 "xbox") as [-> | ->];
      destruct (search_hit_short playerName w 2 "psn") as [-> | ->]; simpl;
      repeat first [ apply sublist_nil | apply sublist_skip | apply sublist_cons ].
  - intros i platform r Hi. rewrite <- search_hit_In, !in_app_iff.
    destruct i as [ | [ | [ | i ] ] ]; simpl in Hi; try discriminate Hi;
      injection Hi as <-; split.
    + intros [[H | [H | H]] Hp]; [ exact H | | ];
        apply search_hit_platform in H; congruence.
    + intros H. split; [ left; exact H | eapply search_hit_platform; exact H ].
    + intros [[H | [H | H]] Hp]; [ | exact H | ];
        apply search_hit_platform in H; congruence.
    + intros H. split; [ right; left; exact H | eapply search_hit_platform; exact H ].
    + intros [[H | [H | H]] Hp]; [ | | exact H ];
        apply search_hit_platform in H; congruence.
    + intros H. split; [ right; right; exact H | eapply search_hit_platform; exact H ].
Qed.

End Search.

(** C6 as stated fails: pc answers ok with data that defines name, as the
    empty string, and yet the search returns no entry. *)
Lemma searchPlayers_defined_name_no_entry :
  answered (net blank_names (fetches empty_world + 0) (search_url "Bob" "pc"))
    = Some blank_name_data
  /\ defines_player blank_name_data = true
  /\ fst (searchPlayers blank_names "Bob" empty_world) = Ok [].
Proof. repeat split; vm_compute; reflexivity. Qed.

(** The search for Bob when pc fails and xbox and psn answer with Bob's
    stats: the entries of xbox and psn. *)
Lemma searchPlayers_one_entry_per_answering_platform_witness :
  exists results w',
    searchPlayers first_fails "Bob" empty_world = (Ok results, w')
    /\ map sr_platform results = ["xbox"; "psn"].
Proof.
  destruct (searchPlayers_one_entry_per_answering_platform first_fails "Bob" empty_world)
    as (results & w' & Hrun & Hresults & _).
  exists results, w'. split; [ exact Hrun | ]. rewrite Hresults. reflexivity.
Defined.

(** ** What the parts of the program leave alone *)

#[global] Instance store_kept_frame : Frame store_kept.
Proof.
  split.
  - intros w. repeat split.
  - intros w1 w2 w3 (H1 & H2 & H3) (H1' & H2' & H3'). repeat split; congruence.
  - intros e w Hwrite. repeat split. simpl.
    destruct e; try apply Nat.add_0_r. destruct (Hwrite players written). reflexivity.
Qed.

#[global] Instance state_kept_frame : Frame state_kept.
Proof.
  split.
  - intros w. split; [ apply frame_refl | reflexivity ].
  - intros w1 w2 w3 [H1 H2] [H1' H2']. split; [ eapply frame_trans; eassumption | congruence ].
  - intros e w Hwrite. split; [ apply frame_record; exact Hwrite | reflexivity ].
Qed.

Section Frames.

Context (R : World -> World -> Prop) `{!Frame R}.
Variable env : Env.

Lemma respects_ret {A : Type} (a : A) : respects R (mret a).
Proof. intros w. apply frame_refl. Qed.

Lemma respects_throw {A : Type} : respects R (@throw A).
Proof. intros w. apply frame_refl. Qed.

Lemma respects_gets {A : Type} (f : World -> A) : respects R (gets f).
Proof. intros w. apply frame_refl. Qed.

Lemma respects_lift {A : Type} (r : option A) : respects R (lift r).
Proof. destruct r; [ apply respects_ret | apply respects_throw ]. Qed.

Lemma respects_bind {A B : Type} (c : M A) (f : A -> M B) :
  respects R c -> (forall a, respects R (f a)) -> respects R (c ≫= f).
Proof.
  intros Hc Hf w. unfold mbind, M_bind. specialize (Hc w).
  destruct (c w) as [[a | ] w1]; simpl in *; [ | exact Hc ].
  eapply frame_trans; [ exact Hc | apply Hf ].
Qed.

Lemma respects_try_catch {A : Type} (c h : M A) :
  respects R c -> respects R h -> respects R (try_catch c h).
Proof.
  intros Hc Hh w. unfold try_catch. specialize (Hc w).
  destruct (c w) as [[a | ] w1]; simpl in *; [ exact Hc | ].
  eapply frame_trans; [ exact Hc | apply Hh ].
Qed.

Lemma respects_fetch (url : string) : respects R (fetch env url).
Proof.
  intros w. unfold fetch.
  destruct (net env (fetches w) url); apply frame_record; discriminate.
Qed.

Lemma respects_response_json (r : Response) : respects R (response_json r).
Proof. apply respects_lift. Qed.

Lemma respects_sleep (ms : nat) : respects R (sleep ms).
Proof. intros w. apply frame_record. discriminate. Qed.

Lemma respects_reply (r : Reply) : respects R (reply env r).
Proof. intros w. apply frame_record. discriminate. Qed.

Lemma respects_reply_embed (r : Reply) : respects R (reply_embed env r).
Proof.
  unfold reply_embed. destruct (builds env r); [ apply respects_reply | apply respects_throw ].
Qed.

Lemma respects_send (e : Embed) : respects R (send env e).
Proof. intros w. apply frame_record. discriminate. Qed.

Lemma respects_if {A : Type} (b : bool) (c d : M A) :
  respects R c -> respects R d -> respects R (if b then c else d).
Proof. destruct b; auto. Qed.

End Frames.

Create HintDb respects.

#[global] Hint Resolve respects_ret respects_throw respects_gets respects_lift
  respects_fetch respects_response_json respects_sleep respects_reply respects_reply_embed
  respects_send
  : respects.

(** Takes a computation apart along its binds, handlers and tests. *)
Ltac frame_apply lem := apply lem; try typeclasses eauto.

Ltac respects_tac :=
  repeat first
    [ progress eauto with respects typeclass_instances
    | frame_apply respects_bind; [ | intros ? ]
    | frame_apply respects_try_catch
    | frame_apply respects_if
    | match goal with
      | |- respects _ (match ?x with _ => _ end) => destruct x
      | |- respects _ (let _ := _ in _) => cbv zeta
      end ].

Section FramedProgram.

Context (R : World -> World -> Prop) `{!Frame R}.
Variable StringToNumber : string -> option Q.
Variable Number_toString_fraction : Q -> string.
Variable env : Env.

Lemma respects_fetchPlayerStats (playerName : jsval) (platform : string) (personaId : jsval) :
  respects R (fetchPlayerStats Number_toString_fraction env playerName platform personaId).
Proof. unfold fetchPlayerStats. respects_tac. Qed.

Lemma respects_searchPlayers (playerName : string) :
  respects R (searchPlayers env playerName).
Proof.
  unfold searchPlayers. generalize (@nil SearchResult) as results.
  induction platforms as [ | platform rest IH ]; intros results; simpl.
  - respects_tac.
  - frame_apply respects_bind; [ unfold searchPlayers_step; respects_tac | intros; apply IH ].
Qed.

Lemma respects_add_probe (playerId : string) (todo : list string) :
  respects R (add_probe env playerId todo).
Proof.
  induction todo as [ | platform rest IH ]; simpl.
  - respects_tac.
  - frame_apply respects_bind; [ unfold add_probe_step; respects_tac | ].
    intros [ f | ]; [ respects_tac | apply IH ].
Qed.

Lemma respects_track_probe (playerId : string) (todo : list string) :
  respects R (track_probe env playerId todo).
Proof.
  induction todo as [ | platform rest IH ]; simpl.
  - respects_tac.
  - frame_apply respects_bind; [ unfold track_probe_step; respects_tac | ].
    intros [ f | ]; [ respects_tac | apply IH ].
Qed.

(** The poll loop, for a relation that also holds of a change of the cache. *)
Hypothesis frame_lastStats : forall m w, R w (set_lastStats m w).

Lemma respects_postPlayerStats (player : Player) :
  respects R (postPlayerStats StringToNumber Number_toString_fraction env player).
Proof.
  unfold postPlayerStats.
  frame_apply respects_if; [ respects_tac | ].
  frame_apply respects_bind; [ frame_apply respects_fetchPlayerStats | intros stats ].
  respects_tac. intros w. apply frame_lastStats.
Qed.

Lemma respects_postAllStats :
  respects R (postAllStats StringToNumber Number_toString_fraction env).
Proof.
  unfold postAllStats. frame_apply respects_bind; [ respects_tac | intros players ].
  frame_apply respects_if; [ respects_tac | ].
  induction players as [ | player rest IH ]; simpl; [ respects_tac | ].
  frame_apply respects_bind; [ frame_apply respects_postPlayerStats | intros _ ].
  frame_apply respects_bind; [ respects_tac | intros _; exact IH ].
Qed.

End FramedProgram.

(** ** Properties of the commands *)

Section Commands.

Variable URL_pathname : string -> option string.
Variable env : Env.

#[local] Abbreviation handle_add := (handle_add URL_pathname env).
#[local] Abbreviation parseTrackerUrl := (parseTrackerUrl URL_pathname).
#[local] Abbreviation pushed := (pushed env).

Lemma saveTrackedPlayers_run (w : World) :
  saveTrackedPlayers env w =
  (Ok tt,
   if write_ok env (writes w)
   then set_file (Json (trackedPlayers w)) (record (Wrote (trackedPlayers w) true) w)
   else record (Wrote (trackedPlayers w) false) w).
Proof.
  unfold saveTrackedPlayers. run. destruct (write_ok env (writes w)); reflexivity.
Qed.

Lemma add_found_run (foundPlayer : Player) (w : World) :
  add_found env foundPlayer w =
  match List.find (sameAs foundPlayer) (trackedPlayers w) with
  | Some _ => reply env (AlreadyTracked foundPlayer) w
  | None =>
      reply_embed env (PlayerAdded foundPlayer (length (trackedPlayers w ++ [foundPlayer])))
        (pushed foundPlayer w)
  end.
Proof.
  unfold add_found, Spec.pushed. unfold mbind at 1, M_bind at 1, gets at 1.
  destruct (List.find _ _); [ reflexivity | ].
  unfold mbind, M_bind, modify. rewrite saveTrackedPlayers_run. simpl.
  destruct (write_ok env (writes w)); reflexivity.
Qed.

Lemma track_found_run (foundPlayer : Player) (w : World) :
  track_found env foundPlayer w =
  match List.find (sameAs foundPlayer) (trackedPlayers w) with
  | Some _ => reply env (AlreadyTracked foundPlayer) w
  | None =>
      reply_embed env (PlayerAdded foundPlayer (length (trackedPlayers w ++ [foundPlayer])))
        (pushed foundPlayer w)
  end.
Proof.
  unfold track_found, Spec.pushed. unfold mbind at 1, M_bind at 1, gets at 1.
  destruct (List.find _ _); [ reflexivity | ].
  unfold mbind, M_bind, modify. rewrite saveTrackedPlayers_run. simpl.
  destruct (write_ok env (writes w)); reflexivity.
Qed.

Lemma handle_track_run (content : string) (w : World) :
  trim (slice 7 content) <> "" ->
  handle_track env content w =
  match track_probe env (trim (slice 7 content)) platforms w with
  | (Ok (Some f), w1) => track_found env f w1
  | (Ok None, w1) => reply env (CouldNotFind (trim (slice 7 content))) w1
  | (Thrown, w1) => (Thrown, w1)
  end.
Proof.
  intros Hid. unfold handle_track.
  destruct (String.eqb_spec (trim (slice 7 content)) "") as [ | _ ]; [ contradiction | ].
  unfold mbind, M_bind.
  destruct (track_probe env _ platforms w) as [[[f | ] | ] w1]; reflexivity.
Qed.

Lemma parseTrackerUrl_digits (url playerId : string) :
  parseTrackerUrl url = Some playerId -> playerId <> "".
Proof.
  intros Hparse.
  destruct (URL_pathname url) as [pathname | ] eqn:Hpath.
  - apply (parseTrackerUrl_Some URL_pathname url pathname Hpath) in Hparse.
    destruct Hparse as (rest & _ & Hdigits & _). exact Hdigits.
  - unfold Bot.parseTrackerUrl in Hparse. rewrite Hpath in Hparse. discriminate.
Qed.

Lemma handle_add_run (content playerId : string) (w : World) :
  trim (slice 5 content) <> "" ->
  parseTrackerUrl (trim (slice 5 content)) = Some playerId ->
  handle_add content w =
  match reply env (LookingUp playerId) w with
  | (Ok _, w0) =>
      match add_probe env playerId platforms w0 with
      | (Ok (Some f), w1) => add_found env f w1
      | (Ok None, w1) => reply env (NotOnAnyPlatform playerId) w1
      | (Thrown, w1) => (Thrown, w1)
      end
  | (Thrown, w0) => (Thrown, w0)
  end.
Proof.
  intros Hurl Hparse. unfold Bot.handle_add.
  destruct (String.eqb_spec (trim (slice 5 content)) "") as [ | _ ]; [ contradiction | ].
  rewrite Hparse.
  destruct (String.eqb_spec playerId "") as [Hid | _ ];
    [ apply parseTrackerUrl_digits in Hparse; contradiction | ].
  unfold mbind, M_bind.
  destruct (reply env (LookingUp playerId) w) as [[[] | ] w0]; [ | reflexivity ].
  destruct (add_probe env playerId platforms w0) as [[[f | ] | ] w1]; reflexivity.
Qed.

End Commands.

Lemma startsWith_split (p s : string) :
  startsWith p s = true -> exists rest, s = p ++ rest.
Proof.
  revert s. induction p as [ | c p IH ]; intros s H.
  - exists s. reflexivity.
  - destruct s as [ | c' s ]; [ discriminate H | ].
    simpl in H. apply Bool.andb_true_iff in H. destruct H as [Hc H].
    apply Ascii.eqb_eq in Hc. subst c'.
    destruct (IH s H) as (rest & Hrest). exists rest. rewrite Hrest. reflexivity.
Qed.

Section Dispatch.

Variable URL_pathname : string -> option string.
Variable StringToNumber : string -> option Q.
Variable Number_toString_fraction : Q -> string.
Variable env : Env.

(** A message that is not from a bot and whose text, trimmed, starts with
    [!add ], [!track ] or [!untrack ] runs the handler of that command on
    the trimmed text. *)
Lemma messageCreate_commands (message_content : string) (w : World) :
  let content := trim message_content in
  let run := messageCreate URL_pathname StringToNumber Number_toString_fraction env false
               message_content w in
  (startsWith "!add " content = true -> run = handle_add URL_pathname env content w)
  /\ (startsWith "!track " content = true -> run = handle_track env content w)
  /\ (startsWith "!untrack " content = true ->
      run = handle_untrack Number_toString_fraction env content w).
Proof.
  cbv zeta. unfold messageCreate. repeat split; intros H;
    destruct (startsWith_split _ _ H) as (rest & Hrest); rewrite Hrest;
    repeat match goal with
           | |- context [startsWith ?p ?s] =>
               let b := eval cbv in (startsWith p s) in change (startsWith p s) with b
           | |- context [String.eqb ?s ?t] =>
               let b := eval cbv in (String.eqb s t) in change (String.eqb s t) with b
           end;
    reflexivity.
Qed.
End Dispatch.

Section Tracking.

Variable URL_pathname : string -> option string.
Variable Number_toString_fraction : Q -> string.
Variable env : Env.

#[local] Abbreviation same_key := (same_key Number_toString_fraction).
#[local] Abbreviation playerKey := (playerKey Number_toString_fraction).

Lemma playerKey_personaId (p : Player) :
  truthy (personaId p) = true -> playerKey p = personaId p.
Proof. intros Hp. unfold Bot.playerKey, or. rewrite Hp. reflexivity. Qed.

Lemma find_sameAs (f p : Player) (players : list Player) :
  In p players -> sameAs f p = true -> exists q, List.find (sameAs f) players = Some q.
Proof.
  intros Hin Hsame. destruct (List.find (sameAs f) players) as [q | ] eqn:Hfind.
  - exists q. reflexivity.
  - apply (find_none _ _ Hfind) in Hin. congruence.
Qed.

(** A tracked player with the key of the found player and a personaId, or
    with its name and platform, is one the handlers' test finds. *)
Lemma clash_sameAs (f p : Player) :
  truthy (personaId f) = true ->
  (truthy (personaId p) = true /\ same_key p f = true) \/ same_name_platform p f = true ->
  sameAs f p = true.
Proof.
  intros Hf [[Hp Hkey] | Hname]; unfold sameAs.
  - unfold Spec.same_key in Hkey. rewrite !playerKey_personaId in Hkey by assumption.
    rewrite Hp, Hkey. reflexivity.
  - unfold same_name_platform in Hname. rewrite Hname. apply Bool.orb_true_r.
Qed.

Lemma found_rejected (f p : Player) (w : World) :
  In p (trackedPlayers w) -> sameAs f p = true ->
  add_found env f w = reply env (AlreadyTracked f) w
  /\ track_found env f w = reply env (AlreadyTracked f) w.
Proof.
  intros Hin Hsame. rewrite add_found_run, track_found_run.
  destruct (find_sameAs f p _ Hin Hsame) as (q & ->). split; reflexivity.
Qed.

(** C4, amended. When the player an [!track] or an [!add] command looked
    up has the identity key of a tracked entry that has a personaId, or the
    name and platform of a tracked entry, the command ends with the reply
    that the player is already tracked, and it leaves the tracked list as
    it was, makes no write and leaves the file as it was. *)
Theorem already_tracked_player_rejected :
  (forall (content : string) (w w1 : World) (f p : Player),
     trim (slice 7 content) <> "" ->
     track_probe env (trim (slice 7 content)) platforms w = (Ok (Some f), w1) ->
     In p (trackedPlayers w) ->
     (truthy (personaId p) = true /\ same_key p f = true) \/ same_name_platform p f = true ->
     exists r w',
       handle_track env content w = (r, w')
       /\ trace w' = (trace w1 ++ [Replied (AlreadyTracked f)])%list
       /\ trackedPlayers w' = trackedPlayers w
       /\ writes w' = writes w
       /\ file w' = file w)
  /\ (forall (content playerId : string) (w w1 : World) (f p : Player),
        trim (slice 5 content) <> "" ->
        parseTrackerUrl URL_pathname (trim (slice 5 content)) = Some playerId ->
        reply_ok env (replies w) = true ->
        add_probe env playerId platforms (record (Replied (LookingUp playerId)) w)
        = (Ok (Some f), w1) ->
        In p (trackedPlayers w) ->
        (truthy (personaId p) = true /\ same_key p f = true)
        \/ same_name_platform p f = true ->
        exists r w',
          handle_add URL_pathname env content w = (r, w')
          /\ trace w' = (trace w1 ++ [Replied (AlreadyTracked f)])%list
          /\ trackedPlayers w' = trackedPlayers w
          /\ writes w' = writes w
          /\ file w' = file w).
Proof.
  split.
  - intros content w w1 f p Hid Hprobe Hin Hclash.
    pose proof (respects_track_probe state_kept env (trim (slice 7 content)) platforms w)
      as Hkept.
    rewrite handle_track_run, Hprobe by exact Hid. rewrite Hprobe in Hkept.
    destruct Hkept as ((Hplayers & Hfile & Hwrites) & _).
    simpl in Hplayers, Hfile, Hwrites.
    destruct (track_probe_found env _ _ _ _ _ Hid Hprobe) as (Hf & _).
    rewrite <- Hplayers in Hin.
    rewrite (proj2 (found_rejected f p w1 Hin (clash_sameAs f p Hf Hclash))).
    eexists. eexists. split; [ reflexivity | ]. simpl. rewrite Nat.add_0_r. auto.
  - intros content playerId w w1 f p Hurl Hparse Hreply Hprobe Hin Hclash.
    pose proof (respects_add_probe state_kept env playerId platforms
                  (record (Replied (LookingUp playerId)) w)) as Hkept.
    rewrite (handle_add_run URL_pathname env content playerId w Hurl Hparse).
    unfold reply at 1. rewrite Hreply, Hprobe. rewrite Hprobe in Hkept.
    destruct Hkept as ((Hplayers & Hfile & Hwrites) & _).
    simpl in Hplayers, Hfile, Hwrites.
    destruct (add_probe_found env _ _ _ _ _
                (parseTrackerUrl_digits URL_pathname _ _ Hparse) Hprobe) as (Hf & _).
    rewrite <- Hplayers in Hin.
    rewrite (proj1 (found_rejected f p w1 Hin (clash_sameAs f p Hf Hclash))).
    eexists. eexists. split; [ reflexivity | ]. simpl. rewrite !Nat.add_0_r in *. auto.
Qed.

End Tracking.

(** Bob is tracked; [!track 2002] finds, on xbox, a player with Bob's
    name under the id 2002. *)
Lemma already_tracked_player_rejected_witness :
  exists r w',
    handle_track first_fails "!track 2002" (tracking [bob]) = (r, w')
    /\ trace w'
       = (trace (snd (track_probe first_fails "2002" platforms (tracking [bob])))
          ++ [Replied (AlreadyTracked bob_again)])%list
    /\ trackedPlayers w' = trackedPlayers (tracking [bob])
    /\ writes w' = writes (tracking [bob])
    /\ file w' = file (tracking [bob]).
Proof.
  apply (proj1 (already_tracked_player_rejected plain_pathname no_fraction first_fails)
           "!track 2002" (tracking [bob])
           (snd (track_probe first_fails "2002" platforms (tracking [bob])))
           bob_again bob).
  - discriminate.
  - vm_compute. reflexivity.
  - left. reflexivity.
  - right. vm_compute. reflexivity.
Defined.

Section Untracking.

Variable Number_toString_fraction : Q -> string.
Variable env : Env.

#[local] Abbreviation playerKey := (playerKey Number_toString_fraction).
#[local] Abbreviation handle_untrack := (handle_untrack Number_toString_fraction env).
#[local] Abbreviation untrack_test := (untrack_test env).
#[local] Abbreviation named_by := (named_by env).

Lemma untrack_test_named_by (playerId : string) (p : Player) :
  playerId <> "" -> named p ->
  untrack_test playerId p = Some (named_by playerId p).
Proof.
  intros Hid (s & Hs). unfold Bot.untrack_test, Spec.named_by. rewrite Hs.
  destruct (strict_eq (personaId p) (JStr playerId)) eqn:Heq.
  - rewrite (strict_eq_truthy _ _ Heq). simpl.
    apply String.eqb_neq in Hid. rewrite Hid. reflexivity.
  - rewrite Bool.andb_false_r. reflexivity.
Qed.

(** [findIndex] finds the first element the test holds of. *)
Lemma findIndex_first {A : Type} (test : A -> option bool) (spec : A -> bool)
    (before after : list A) (x : A) :
  (forall y, In y (before ++ x :: after)%list -> test y = Some (spec y)) ->
  Forall (fun y => spec y = false) before -> spec x = true ->
  findIndex test (before ++ x :: after)%list = Some (Some (List.length before, x)).
Proof.
  intros Htest Hbefore Hx. induction before as [ | y before IH ]; simpl.
  - rewrite (Htest x) by (left; reflexivity). rewrite Hx. reflexivity.
  - inversion Hbefore as [ | ? ? Hy Hrest ]; subst.
    rewrite (Htest y) by (left; reflexivity). rewrite Hy.
    rewrite IH; [ reflexivity | | exact Hrest ].
    intros z Hz. apply Htest. right. exact Hz.
Qed.

Lemma findIndex_none {A : Type} (test : A -> option bool) (spec : A -> bool) (l : list A) :
  (forall y, In y l -> test y = Some (spec y)) ->
  (forall y, In y l -> spec y = false) ->
  findIndex test l = Some None.
Proof.
  intros Htest Hnone. induction l as [ | y l IH ]; simpl; [ reflexivity | ].
  rewrite (Htest y), (Hnone y) by (left; reflexivity).
  rewrite IH; [ reflexivity | | ]; intros z Hz; [ apply Htest | apply Hnone ]; right; exact Hz.
Qed.

(** A list with an element the test holds of splits at the first one. *)
Lemma first_split {A : Type} (spec : A -> bool) (l : list A) :
  (exists x, In x l /\ spec x = true) ->
  exists before x after,
    l = (before ++ x :: after)%list /\ spec x = true
    /\ Forall (fun y => spec y = false) before.
Proof.
  induction l as [ | y l IH ]; intros (x & Hin & Hx); [ destruct Hin | ].
  destruct (spec y) eqn:Hy.
  - exists [], y, l. repeat split; [ exact Hy | constructor ].
  - destruct IH as (before & z & after & -> & Hz & Hbefore).
    + destruct Hin as [-> | Hin]; [ congruence | eauto ].
    + exists (y :: before), z, after. repeat split; [ exact Hz | ].
      constructor; assumption.
Qed.

Lemma delete_middle {A : Type} (before after : list A) (x : A) :
  delete (List.length before) (before ++ x :: after)%list = (before ++ after)%list.
Proof. induction before as [ | y before IH ]; simpl; [ reflexivity | f_equal; exact IH ]. Qed.

Lemma handle_untrack_run (content : string) (w : World) :
  trim (slice 9 content) <> "" ->
  handle_untrack content w =
  match findIndex (untrack_test (trim (slice 9 content))) (trackedPlayers w) with
  | None => (Thrown, w)
  | Some None => reply env (NotTracked (trim (slice 9 content))) w
  | Some (Some (index, removedPlayer)) =>
      reply env (Removed removedPlayer)
        (set_lastStats
           (Map_delete (playerKey removedPlayer) (lastStats (spliced env index w)))
           (spliced env index w))
  end.
Proof.
  intros Hid. unfold Bot.handle_untrack, spliced.
  destruct (String.eqb_spec (trim (slice 9 content)) "") as [ | _ ]; [ contradiction | ].
  unfold mbind at 1, M_bind at 1, gets at 1.
  destruct (findIndex _ (trackedPlayers w)) as [ [ [index removedPlayer] | ] | ];
    try reflexivity.
  unfold mbind, M_bind, lift, mret, M_ret, modify. rewrite saveTrackedPlayers_run. simpl.
  destruct (write_ok env (writes w)); reflexivity.
Qed.


End Untracking.



(** ** The tracked list and the file *)

#[global] Instance goes_on_frame : Frame goes_on.
Proof.
  split.
  - intros w. exists []. split; [ symmetry; apply app_nil_r | constructor ].
  - intros w1 w2 w3 (evs & H1 & Hevs) (evs' & H2 & Hevs').
    exists (evs ++ evs')%list. split.
    + rewrite H2, H1, app_assoc. reflexivity.
    + apply Forall_app. split; assumption.
  - intros e w Hwrite. exists [e]. split; [ reflexivity | ].
    constructor; [ exact Hwrite | constructor ].
Qed.

#[global] Instance store_untouched_frame : Frame store_untouched.
Proof.
  split.
  - intros w. split; [ apply (@frame_refl store_kept _) | apply (@frame_refl goes_on _) ].
  - intros w1 w2 w3 [H1 H2] [H1' H2'].
    split; [ eapply (@frame_trans store_kept _) | eapply (@frame_trans goes_on _) ];
      eassumption.
  - intros e w Hwrite.
    split; [ apply (@frame_record store_kept _) | apply (@frame_record goes_on _) ];
      exact Hwrite.
Qed.

#[global] Instance quiet_frame : Frame quiet.
Proof.
  split.
  - intros w. split; [ apply (@frame_refl state_kept _) | apply (@frame_refl goes_on _) ].
  - intros w1 w2 w3 [H1 H2] [H1' H2'].
    split; [ eapply (@frame_trans state_kept _) | eapply (@frame_trans goes_on _) ];
      eassumption.
  - intros e w Hwrite.
    split; [ apply (@frame_record state_kept _) | apply (@frame_record goes_on _) ];
      exact Hwrite.
Qed.

Lemma quiet_store_untouched (w w' : World) : quiet w w' -> store_untouched w w'.
Proof. intros [[Hstore _] Hon]. split; assumption. Qed.

Section Store.

Variable URL_pathname : string -> option string.
Variable StringToNumber : string -> option Q.
Variable Number_toString_fraction : Q -> string.
Variable env : Env.

(** After some quiet steps, a change of the list, the save and a change of
    the cache. *)
Lemma saved_after (w w1 : World) (l : list Player) (m : list (jsval * json)) :
  quiet w w1 ->
  let w' := set_lastStats m (snd (saveTrackedPlayers env (set_trackedPlayers l w1))) in
  trackedPlayers w' = l
  /\ trace w' = (trace w1 ++ [Wrote l (write_ok env (writes w))])%list
  /\ (write_ok env (writes w) = true -> file w' = Some (Json l)).
Proof.
  intros (((Hplayers & Hfile & Hwrites) & Hstats) & evs & Htrace & Hevs).
  cbv zeta. rewrite saveTrackedPlayers_run.
  cbn [writes trackedPlayers set_trackedPlayers]. rewrite Hwrites.
  destruct (write_ok env (writes w)); repeat split; try discriminate.
Qed.

(** The same, and then a text that is replied, or an embed that is built
    and replied. *)
Lemma saved_before_reply_after (w w1 : World) (l : list Player)
    (m : list (jsval * json)) (r : Reply) :
  quiet w w1 ->
  let w2 := set_lastStats m (snd (saveTrackedPlayers env (set_trackedPlayers l w1))) in
  (trackedPlayers (snd (reply env r w2)) = l
   /\ saved_before_reply env w (snd (reply env r w2)))
  /\ (trackedPlayers (snd (reply_embed env r w2)) = l
      /\ saved_before_reply env w (snd (reply_embed env r w2))).
Proof.
  intros Hquiet. cbv zeta.
  destruct (saved_after w w1 l m Hquiet) as (Hlist & Htrace & Hfile).
  destruct Hquiet as (_ & evs & Hon & Hevs).
  set (w2 := set_lastStats m (snd (saveTrackedPlayers env (set_trackedPlayers l w1)))) in *.
  assert (Hreplied : trackedPlayers (snd (reply env r w2)) = l
                     /\ saved_before_reply env w (snd (reply env r w2))).
  { split; [ exact Hlist | ]. exists evs, [Replied r].
    cbn [snd reply trackedPlayers trace file record].
    rewrite Hlist, Htrace, Hon, <- !app_assoc. repeat split; eauto. }
  split; [ exact Hreplied | ].
  unfold reply_embed. destruct (builds env r); [ exact Hreplied | ].
  split; [ exact Hlist | ]. exists evs, []. cbn [snd throw].
  rewrite Hlist, Htrace, Hon, <- !app_assoc. repeat split; auto.
Qed.

Lemma set_lastStats_same (w : World) : set_lastStats (lastStats w) w = w.
Proof. destruct w. reflexivity. Qed.

(** What [!track] does to the tracked list: nothing, or it appends a player
    with a personaId that the test finds in no tracked entry, and saves. *)
Lemma handle_track_outcome (content : string) (w : World) :
  let w' := snd (handle_track env content w) in
  store_untouched w w'
  \/ (exists f, trackedPlayers w' = (trackedPlayers w ++ [f])%list
                /\ List.find (sameAs f) (trackedPlayers w) = None
                /\ truthy (personaId f) = true
                /\ saved_before_reply env w w').
Proof.
  simpl. destruct (String.eqb_spec (trim (slice 7 content)) "") as [Hid | Hid].
  - left. unfold handle_track. apply String.eqb_eq in Hid. rewrite Hid.
    apply respects_reply. typeclasses eauto.
  - rewrite handle_track_run by exact Hid.
    pose proof (respects_track_probe quiet env (trim (slice 7 content)) platforms w) as Hquiet.
    destruct (track_probe env _ platforms w) as [[[f | ] | ] w1] eqn:Hprobe; simpl in Hquiet.
    + rewrite track_found_run.
      destruct (List.find (sameAs f) (trackedPlayers w1)) as [q | ] eqn:Hfind.
      * left. eapply frame_trans; [ apply quiet_store_untouched; exact Hquiet | ].
        apply respects_reply. typeclasses eauto.
      * right. exists f.
        destruct (track_probe_found env _ _ _ _ _ Hid Hprobe) as (Hf & _).
        pose proof (saved_before_reply_after w w1 (trackedPlayers w1 ++ [f])
                      (lastStats (pushed env f w1))
                      (PlayerAdded f (length (trackedPlayers w1 ++ [f]))) Hquiet)
          as [_ Hsaved].
        fold (pushed env f w1) in Hsaved. rewrite set_lastStats_same in Hsaved.
        destruct Hquiet as (((Hplayers & _) & _) & _).
        destruct Hsaved as (Hlist & Hsaved).
        rewrite <- Hplayers. repeat split; assumption.
    + left. eapply frame_trans; [ apply quiet_store_untouched; exact Hquiet | ].
      apply respects_reply. typeclasses eauto.
    + left. apply quiet_store_untouched. exact Hquiet.
Qed.

Lemma handle_add_outcome (content : string) (w : World) :
  let w' := snd (handle_add URL_pathname env content w) in
  store_untouched w w'
  \/ (exists f, trackedPlayers w' = (trackedPlayers w ++ [f])%list
                /\ List.find (sameAs f) (trackedPlayers w) = None
                /\ truthy (personaId f) = true
                /\ saved_before_reply env w w').
Proof.
  simpl. destruct (String.eqb_spec (trim (slice 5 content)) "") as [Hurl | Hurl].
  { left. unfold handle_add. apply String.eqb_eq in Hurl. rewrite Hurl.
    apply respects_reply. typeclasses eauto. }
  destruct (parseTrackerUrl URL_pathname (trim (slice 5 content))) as [playerId | ] eqn:Hparse.
  2: { left. unfold handle_add. apply String.eqb_neq in Hurl. rewrite Hurl, Hparse.
       apply respects_reply. typeclasses eauto. }
  rewrite (handle_add_run URL_pathname env content playerId w Hurl Hparse).
  pose proof (respects_reply quiet env (LookingUp playerId) w) as Hreply.
  destruct (reply env (LookingUp playerId) w) as [[[] | ] w0]; simpl in Hreply.
  2: { left. apply quiet_store_untouched. exact Hreply. }
  pose proof (respects_add_probe quiet env playerId platforms w0) as Hprobed.
  destruct (add_probe env playerId platforms w0) as [[[f | ] | ] w1] eqn:Hprobe;
    simpl in Hprobed;
    pose proof (frame_trans _ _ _ Hreply Hprobed) as Hquiet.
  - rewrite add_found_run.
    destruct (List.find (sameAs f) (trackedPlayers w1)) as [q | ] eqn:Hfind.
    + left. eapply frame_trans; [ apply quiet_store_untouched; exact Hquiet | ].
      apply respects_reply. typeclasses eauto.
    + right. exists f.
      destruct (add_probe_found env _ _ _ _ _
                  (parseTrackerUrl_digits URL_pathname _ _ Hparse) Hprobe) as (Hf & _).
      pose proof (saved_before_reply_after w w1 (trackedPlayers w1 ++ [f])
                    (lastStats (pushed env f w1))
                    (PlayerAdded f (length (trackedPlayers w1 ++ [f]))) Hquiet)
        as [_ Hsaved].
      fold (pushed env f w1) in Hsaved. rewrite set_lastStats_same in Hsaved.
      destruct Hquiet as (((Hplayers & _) & _) & _).
      destruct Hsaved as (Hlist & Hsaved).
      rewrite <- Hplayers. repeat split; assumption.
  - left. eapply frame_trans; [ apply quiet_store_untouched; exact Hquiet | ].
    apply respects_reply. typeclasses eauto.
  - left. apply quiet_store_untouched. exact Hquiet.
Qed.

Lemma findIndex_lookup {A : Type} (test : A -> option bool) (l : list A) (i : nat) (x : A) :
  findIndex test l = Some (Some (i, x)) -> l !! i = Some x.
Proof.
  revert i. induction l as [ | y l IH ]; intros i; simpl; [ discriminate | ].
  destruct (test y) as [ [ | ] | ]; try discriminate.
  - intros [= <- <-]. reflexivity.
  - destruct (findIndex test l) as [ [ [j z] | ] | ]; try discriminate.
    intros [= <- <-]. simpl. apply IH. reflexivity.
Qed.

(** What [!untrack] does to the tracked list: nothing, or it removes one
    player and saves. *)
Lemma handle_untrack_outcome (content : string) (w : World) :
  let w' := snd (handle_untrack Number_toString_fraction env content w) in
  store_untouched w w'
  \/ (exists i p, trackedPlayers w !! i = Some p
                  /\ trackedPlayers w' = delete i (trackedPlayers w)
                  /\ saved_before_reply env w w').
Proof.
  simpl. destruct (String.eqb_spec (trim (slice 9 content)) "") as [Hid | Hid].
  - left. unfold handle_untrack. apply String.eqb_eq in Hid. rewrite Hid.
    apply respects_reply. typeclasses eauto.
  - rewrite handle_untrack_run by exact Hid.
    destruct (findIndex _ (trackedPlayers w)) as [ [ [i p] | ] | ] eqn:Hfind.
    + right. exists i, p. split; [ eapply findIndex_lookup; exact Hfind | ].
      apply (saved_before_reply_after w w). apply frame_refl.
    + left. apply respects_reply. typeclasses eauto.
    + left. apply frame_refl.
Qed.

Lemma store_untouched_lastStats (m : list (jsval * json)) (w : World) :
  store_untouched w (set_lastStats m w).
Proof.
  split; [ repeat split | ]. exists []. split; [ symmetry; apply app_nil_r | constructor ].
Qed.

(** What a message does to the tracked list and the file: nothing, or the
    list changes by one player, as [!add], [!track] and [!untrack] change
    it, and is saved. *)
Lemma messageCreate_outcome (author_bot : bool) (content : string) (w : World) :
  let w' := snd (messageCreate URL_pathname StringToNumber Number_toString_fraction env
                   author_bot content w) in
  store_untouched w w'
  \/ (saved_before_reply env w w'
      /\ ((exists f, trackedPlayers w' = (trackedPlayers w ++ [f])%list
                     /\ List.find (sameAs f) (trackedPlayers w) = None
                     /\ truthy (personaId f) = true)
          \/ (exists i p, trackedPlayers w !! i = Some p
                          /\ trackedPlayers w' = delete i (trackedPlayers w)))).
Proof.
  simpl. unfold messageCreate.
  destruct author_bot; [ left; apply frame_refl | ].
  destruct (startsWith "!search " (trim content)).
  { left. pose proof (respects_searchPlayers store_untouched env) as Hsearch.
    assert (Hr : respects store_untouched (handle_search env (trim content)))
      by (unfold handle_search; respects_tac).
    apply Hr. }
  destruct (startsWith "!add " (trim content)).
  { destruct (handle_add_outcome (trim content) w) as [H | (f & H1 & H2 & H3 & H)];
      [ auto | right; eauto 10 ]. }
  destruct (startsWith "!track " (trim content)).
  { destruct (handle_track_outcome (trim content) w) as [H | (f & H1 & H2 & H3 & H)];
      [ auto | right; eauto 10 ]. }
  destruct (String.eqb (trim content) "!list").
  { left. assert (Hr : respects store_untouched (handle_list env))
      by (unfold handle_list; respects_tac).
    apply Hr. }
  destruct (startsWith "!untrack " (trim content)).
  { destruct (handle_untrack_outcome (trim content) w) as [H | (i & p & H1 & H2 & H)];
      [ auto | right; eauto 10 ]. }
  destruct (String.eqb (trim content) "!update" || String.eqb (trim content) "!bf6update").
  { left. pose proof (respects_postAllStats store_untouched StringToNumber
                        Number_toString_fraction env store_untouched_lastStats) as Hpass.
    assert (Hr : respects store_untouched
                   (handle_update StringToNumber Number_toString_fraction env))
      by (unfold handle_update; respects_tac).
    apply Hr. }
  destruct (String.eqb (trim content) "!help" || String.eqb (trim content) "!bf6help").
  { left. apply respects_reply. typeclasses eauto. }
  left. apply frame_refl.
Qed.

Lemma store_untouched_same_list (w w' : World) :
  store_untouched w w' -> trackedPlayers w' = trackedPlayers w.
Proof. intros [[H _] _]. exact H. Qed.

(** What [!untrack] does when it removes a player: the write, then the
    reply, a text. *)
Lemma handle_untrack_saved (content : string) (w : World) :
  let w' := snd (handle_untrack Number_toString_fraction env content w) in
  trackedPlayers w' <> trackedPlayers w ->
  exists r,
    trace w' = (trace w ++ [Wrote (trackedPlayers w') (write_ok env (writes w));
                            Replied r])%list
    /\ (write_ok env (writes w) = true -> file w' = Some (Json (trackedPlayers w'))).
Proof.
  cbv zeta. destruct (String.eqb_spec (trim (slice 9 content)) "") as [Hid | Hid].
  - unfold handle_untrack. apply String.eqb_eq in Hid. rewrite Hid.
    intros Hchanged. destruct Hchanged. reflexivity.
  - rewrite handle_untrack_run by exact Hid.
    destruct (findIndex _ (trackedPlayers w)) as [ [ [i p] | ] | ];
      try (intros Hchanged; destruct Hchanged; reflexivity).
    intros _. exists (Removed p).
    destruct (saved_after w w (delete i (trackedPlayers w))
                (Map_delete (playerKey Number_toString_fraction p)
                   (lastStats (spliced env i w)))
                (frame_refl w)) as (Hlist & Htrace & Hfile).
    unfold spliced in *. unfold reply. cbn [snd trackedPlayers trace file record].
    rewrite Hlist, Htrace. rewrite <- app_assoc. split; [ reflexivity | exact Hfile ].
Qed.

(** C7. When an [!add], an [!track] or an [!untrack] command, or any
    message at all, has changed the tracked list, it has written the list
    as it now is to the file, right after the change: this is the one
    write it made, and all it did after the write is at most one reply
    (the embed that tells of a player added may fail to be built, and
    then there is none; [!untrack] always goes on to reply). When this
    write went through, the file holds exactly the tracked list. *)
Theorem changed_list_is_saved :
  (forall (content : string) (w w' : World),
     w' = snd (handle_add URL_pathname env content w) ->
     trackedPlayers w' <> trackedPlayers w ->
     exists evs after,
       no_writes evs
       /\ trace w' = (trace w ++ evs
                      ++ Wrote (trackedPlayers w') (write_ok env (writes w)) :: after)%list
       /\ (after = [] \/ exists r, after = [Replied r])
       /\ (write_ok env (writes w) = true -> file w' = Some (Json (trackedPlayers w'))))
  /\ (forall (content : string) (w w' : World),
        w' = snd (handle_track env content w) ->
        trackedPlayers w' <> trackedPlayers w ->
        exists evs after,
          no_writes evs
          /\ trace w' = (trace w ++ evs
                         ++ Wrote (trackedPlayers w') (write_ok env (writes w)) :: after)%list
          /\ (after = [] \/ exists r, after = [Replied r])
          /\ (write_ok env (writes w) = true -> file w' = Some (Json (trackedPlayers w'))))
  /\ (forall (content : string) (w w' : World),
        w' = snd (handle_untrack Number_toString_fraction env content w) ->
        trackedPlayers w' <> trackedPlayers w ->
        exists r,
          trace w' = (trace w ++ [Wrote (trackedPlayers w') (write_ok env (writes w));
                                  Replied r])%list
          /\ (write_ok env (writes w) = true -> file w' = Some (Json (trackedPlayers w'))))
  /\ (forall (author_bot : bool) (content : string) (w w' : World),
        w' = snd (messageCreate URL_pathname StringToNumber Number_toString_fraction env
                    author_bot content w) ->
        trackedPlayers w' <> trackedPlayers w ->
        exists evs after,
          no_writes evs
          /\ trace w' = (trace w ++ evs
                         ++ Wrote (trackedPlayers w') (write_ok env (writes w)) :: after)%list
          /\ (after = [] \/ exists r, after = [Replied r])
          /\ (write_ok env (writes w) = true -> file w' = Some (Json (trackedPlayers w')))).
Proof.
  repeat apply conj.
  - intros content w w' -> Hchanged.
    destruct (handle_add_outcome content w) as [H | (f & _ & _ & _ & H)]; [ | exact H ].
    apply store_untouched_same_list in H. contradiction.
  - intros content w w' -> Hchanged.
    destruct (handle_track_outcome content w) as [H | (f & _ & _ & _ & H)]; [ | exact H ].
    apply store_untouched_same_list in H. contradiction.
  - intros content w w' -> Hchanged. apply handle_untrack_saved. exact Hchanged.
  - intros author_bot content w w' -> Hchanged.
    destruct (messageCreate_outcome author_bot content w) as [H | [H _]]; [ | exact H ].
    apply store_untouched_same_list in H. contradiction.
Qed.

End Store.

(** Alice is tracked; [!track 2002] finds Bob on xbox and adds him. *)
Lemma changed_list_is_saved_witness :
  exists evs after,
    no_writes evs
    /\ trace (snd (handle_track first_fails "!track 2002" (tracking [alice])))
       = (trace (tracking [alice]) ++ evs
          ++ Wrote (trackedPlayers (snd (handle_track first_fails "!track 2002"
                                          (tracking [alice]))))
               (write_ok first_fails (writes (tracking [alice])))
             :: after)%list
    /\ (after = [] \/ exists r, after = [Replied r])
    /\ (write_ok first_fails (writes (tracking [alice])) = true ->
        file (snd (handle_track first_fails "!track 2002" (tracking [alice])))
        = Some (Json (trackedPlayers (snd (handle_track first_fails "!track 2002"
                                             (tracking [alice])))))).
Proof.
  destruct (changed_list_is_saved plain_pathname no_StringToNumber no_fraction first_fails)
    as (_ & Htrack & _).
  apply (Htrack "!track 2002" (tracking [alice])).
  - reflexivity.
  - vm_compute. discriminate.
Defined.

(** The reply can be missing. A lookup answered with a personaId that is a
    number gives a player with this id; [!track] appends it and writes the
    list, and the builder then throws at the field of the id, whose value
    is no text: the handler rejects after the write and never replies. *)
Example track_saves_and_throws_before_the_reply :
  let run := handle_track number_ids "!track 7" empty_world in
  fst run = Thrown
  /\ trackedPlayers (snd run) = [bob_7]
  /\ file (snd run) = Some (Json [bob_7])
  /\ trace (snd run)
     = [Fetched "https://api.gametools.network/bf6/stats?personaId=7&platform=pc";
        Wrote [bob_7] true].
Proof. vm_compute. repeat split. Qed.

(** ** The uniqueness of tracked players *)

Lemma shares_personaId_sym (p q : Player) : shares_personaId p q = shares_personaId q p.
Proof.
  unfold shares_personaId. rewrite (strict_eq_sym (personaId q)).
  destruct (strict_eq (personaId p) (personaId q)) eqn:Heq.
  - rewrite (strict_eq_truthy _ _ Heq). reflexivity.
  - rewrite !Bool.andb_false_r. reflexivity.
Qed.

Lemma same_name_platform_sym (p q : Player) :
  same_name_platform p q = same_name_platform q p.
Proof.
  unfold same_name_platform.
  rewrite (strict_eq_sym (name q)), (String.eqb_sym (platform q)). reflexivity.
Qed.

Lemma sameAs_clash (f p : Player) :
  sameAs f p = shares_personaId p f || same_name_platform p f.
Proof. reflexivity. Qed.

Lemma find_none_forallb {A : Type} (g : A -> bool) (l : list A) :
  List.find g l = None -> forallb (fun x => negb (g x)) l = true.
Proof.
  induction l as [ | x l IH ]; simpl; [ reflexivity | ].
  destruct (g x); [ discriminate | exact IH ].
Qed.

Lemma forallb_delete {A : Type} (g : A -> bool) (i : nat) (l : list A) :
  forallb g l = true -> forallb g (delete i l) = true.
Proof.
  revert i. induction l as [ | x l IH ]; intros i; simpl; [ auto | ].
  rewrite Bool.andb_true_iff. intros [Hx Hl].
  destruct i as [ | i ]; simpl; [ exact Hl | ].
  rewrite Hx. apply IH. exact Hl.
Qed.

Lemma distinct_players_app (l : list Player) (f : Player) :
  distinct_players (l ++ [f])
  = distinct_players l
    && forallb (fun p => negb (shares_personaId p f || same_name_platform p f)) l.
Proof.
  induction l as [ | p l IH ]; simpl; [ reflexivity | ].
  rewrite forallb_app, IH. simpl.
  generalize (forallb (fun q => negb (shares_personaId p q || same_name_platform p q)) l).
  generalize (forallb (fun q => negb (shares_personaId q f || same_name_platform q f)) l).
  generalize (distinct_players l).
  generalize (shares_personaId p f || same_name_platform p f).
  intros [] [] [] []; reflexivity.
Qed.

Lemma distinct_players_delete (i : nat) (l : list Player) :
  distinct_players l = true -> distinct_players (delete i l) = true.
Proof.
  revert i. induction l as [ | p l IH ]; intros i; simpl; [ auto | ].
  rewrite Bool.andb_true_iff. intros [Hp Hl].
  destruct i as [ | i ]; simpl; [ exact Hl | ].
  rewrite (forallb_delete _ i l Hp). apply IH. exact Hl.
Qed.

(** Among players that all have a personaId, no shared personaId means no
    shared identity key. *)
Lemma distinct_players_keys (Number_toString_fraction : Q -> string) (l : list Player) :
  distinct_players l = true -> all_have_personaId l = true ->
  distinct_keys (playerKey Number_toString_fraction) l = true.
Proof.
  unfold all_have_personaId.
  induction l as [ | p l IH ]; simpl; [ reflexivity | ].
  rewrite !Bool.andb_true_iff. intros [Hp Hl] [Hid Hids].
  split; [ | apply IH; assumption ].
  rewrite forallb_forall in Hp, Hids |- *. intros q Hq.
  specialize (Hp q Hq). specialize (Hids q Hq).
  rewrite !playerKey_personaId by assumption.
  apply Bool.negb_true_iff in Hp. apply Bool.orb_false_iff in Hp. destruct Hp as [Hp _].
  unfold shares_personaId in Hp. rewrite Hid in Hp. simpl in Hp. rewrite Hp. reflexivity.
Qed.

Section Uniqueness.

Variable URL_pathname : string -> option string.
Variable StringToNumber : string -> option Q.
Variable Number_toString_fraction : Q -> string.
Variable env : Env.

Lemma appended_distinct (l : list Player) (f : Player) :
  distinct_players l = true ->
  List.find (sameAs f) l = None ->
  distinct_players (l ++ [f]) = true.
Proof.
  intros Hl Hfind. rewrite distinct_players_app, Hl. simpl.
  apply find_none_forallb in Hfind. exact Hfind.
Qed.

Lemma appended_all_have_personaId (l : list Player) (f : Player) :
  all_have_personaId l = true -> truthy (personaId f) = true ->
  all_have_personaId (l ++ [f]) = true.
Proof.
  unfold all_have_personaId. intros Hl Hf. rewrite forallb_app, Hl. simpl.
  rewrite Hf. reflexivity.
Qed.

Lemma messageCreate_distinct (content : string) (w : World) :
  distinct_players (trackedPlayers w) = true
  /\ all_have_personaId (trackedPlayers w) = true ->
  let w' := snd (messageCreate URL_pathname StringToNumber Number_toString_fraction env
                   false content w) in
  distinct_players (trackedPlayers w') = true
  /\ all_have_personaId (trackedPlayers w') = true.
Proof.
  intros [Hl Hids]. cbv zeta.
  destruct (messageCreate_outcome URL_pathname StringToNumber Number_toString_fraction env
              false content w)
    as [H | (_ & [(f & Hlist & Hfind & Hf) | (i & p & _ & Hlist)])].
  - apply store_untouched_same_list in H. rewrite H. split; assumption.
  - rewrite Hlist.
    split; [ apply appended_distinct | apply appended_all_have_personaId ]; assumption.
  - rewrite Hlist.
    split; [ apply distinct_players_delete | apply forallb_delete ]; assumption.
Qed.

Lemma after_messages_distinct (messages : list string) (w : World) :
  distinct_players (trackedPlayers w) = true
  /\ all_have_personaId (trackedPlayers w) = true ->
  let w' := after_messages URL_pathname StringToNumber Number_toString_fraction env
              messages w in
  distinct_players (trackedPlayers w') = true
  /\ all_have_personaId (trackedPlayers w') = true.
Proof.
  revert w. induction messages as [ | content rest IH ]; intros w Hw.
  - exact Hw.
  - apply (IH (snd (messageCreate URL_pathname StringToNumber Number_toString_fraction env
                      false content w))).
    apply messageCreate_distinct. exact Hw.
Qed.

(** C10, amended. The uniqueness that [!add] and [!track] keep is this: no
    two tracked entries share a personaId and no two have the same name and
    platform.
    - If it holds of the tracked list before an [!add] or an [!track]
      command, it holds after.
    - A looked-up player with the name and platform of a tracked entry is
      rejected as already tracked, whatever the personaIds and the identity
      keys of the two.
    - On a list whose entries all have a personaId, it implies that no two
      entries have the same identity key; and in every world reached from
      an empty tracked list by messages, it holds, every entry has a
      personaId, and no two entries have the same identity key. *)
Theorem tracked_players_stay_distinct :
  (forall (content : string) (w : World),
     distinct_players (trackedPlayers w) = true ->
     distinct_players (trackedPlayers (snd (handle_add URL_pathname env content w))) = true
     /\ distinct_players (trackedPlayers (snd (handle_track env content w))) = true)
  /\ (forall (f p : Player) (w : World),
        In p (trackedPlayers w) ->
        same_name_platform p f = true ->
        add_found env f w = reply env (AlreadyTracked f) w
        /\ track_found env f w = reply env (AlreadyTracked f) w)
  /\ (forall l : list Player,
        distinct_players l = true -> all_have_personaId l = true ->
        distinct_keys (playerKey Number_toString_fraction) l = true)
  /\ (forall (messages : list string) (w : World),
        trackedPlayers w = [] ->
        let l := trackedPlayers
                   (after_messages URL_pathname StringToNumber Number_toString_fraction env
                      messages w) in
        distinct_players l = true
        /\ all_have_personaId l = true
        /\ distinct_keys (playerKey Number_toString_fraction) l = true).
Proof.
  repeat apply conj.
  - intros content w Hl. split.
    + destruct (handle_add_outcome URL_pathname env content w)
        as [H | (f & Hlist & Hfind & _)].
      * apply store_untouched_same_list in H. rewrite H. exact Hl.
      * rewrite Hlist. apply appended_distinct; assumption.
    + destruct (handle_track_outcome env content w) as [H | (f & Hlist & Hfind & _)].
      * apply store_untouched_same_list in H. rewrite H. exact Hl.
      * rewrite Hlist. apply appended_distinct; assumption.
  - intros f p w Hin Hsame. apply (found_rejected env f p w Hin).
    rewrite sameAs_clash, Hsame. apply Bool.orb_true_r.
  - intros l. apply distinct_players_keys.
  - intros messages w Hempty. cbv zeta.
    destruct (after_messages_distinct messages w) as [Hl Hids].
    { rewrite Hempty. split; reflexivity. }
    repeat split; try assumption. apply distinct_players_keys; assumption.
Qed.

End Uniqueness.

(** Bob is tracked on xbox under the id 1002; a player found on xbox with
    Bob's name under the id 2002, another identity key, is rejected. *)
Lemma tracked_players_stay_distinct_witness :
  same_key no_fraction bob bob_again = false
  /\ add_found first_fails bob_again (tracking [bob])
     = reply first_fails (AlreadyTracked bob_again) (tracking [bob])
  /\ track_found first_fails bob_again (tracking [bob])
     = reply first_fails (AlreadyTracked bob_again) (tracking [bob]).
Proof.
  split; [ reflexivity | ].
  destruct (tracked_players_stay_distinct plain_pathname no_StringToNumber no_fraction
              first_fails) as (_ & Hrejected & _).
  apply (Hrejected bob_again bob (tracking [bob])).
  - left. reflexivity.
  - vm_compute. reflexivity.
Defined.

(** C4 as stated fails: the tracked entry has no personaId and the key
    Old_pc, its name, an underscore and its platform; [!track Old_pc] looks
    up a player whose personaId, and so whose key, is Old_pc; the two keys
    collide, and the player is added and the list of two saved. *)
Lemma same_key_yet_added :
  In legacy (trackedPlayers (tracking [legacy]))
  /\ fst (track_probe renamed "Old_pc" platforms (tracking [legacy])) = Ok (Some newcomer)
  /\ same_key no_fraction legacy newcomer = true
  /\ trackedPlayers (snd (handle_track renamed "!track Old_pc" (tracking [legacy])))
     = [legacy; newcomer]
  /\ file (snd (handle_track renamed "!track Old_pc" (tracking [legacy])))
     = Some (Json [legacy; newcomer]).
Proof. repeat split; try (vm_compute; reflexivity). left. reflexivity. Qed.

(** C10 as stated fails: the uniqueness kept is not stronger than that of
    identity keys. It holds of the one tracked entry before [!track Old_pc]
    and of the two entries after, and the two have the same key. *)
Lemma distinct_players_same_key :
  distinct_players (trackedPlayers (tracking [legacy])) = true
  /\ distinct_players
       (trackedPlayers (snd (handle_track renamed "!track Old_pc" (tracking [legacy]))))
     = true
  /\ distinct_keys (playerKey no_fraction)
       (trackedPlayers (snd (handle_track renamed "!track Old_pc" (tracking [legacy]))))
     = false.
Proof. repeat split; vm_compute; reflexivity. Qed.

(** ** More of the change detector and the presenter *)

Lemma existsb_pointwise {A : Type} (f g : A -> bool) (l : list A) :
  (forall x, f x = g x) -> existsb f l = existsb g l.
Proof.
  intros Hfg. induction l as [ | x l IH ]; simpl; [ reflexivity | ].
  rewrite Hfg, IH. reflexivity.
Qed.

(** X1. A snapshot compared with itself has not changed, unless it is a
    falsy value, which counts as no snapshot at all; and between two
    objects the detector is symmetric: it gives the same answer whichever
    of the two is taken as the previous snapshot. *)
Theorem statsChanged_same_snapshot_and_symmetric :
  (forall stats : json, statsChanged (Some stats) stats = negb (json_truthy stats))
  /\ (forall A B : gmap string jsval,
        statsChanged (Some (Obj A)) (Obj B) = statsChanged (Some (Obj B)) (Obj A)).
Proof.
  split.
  - intros stats. unfold statsChanged.
    destruct (json_truthy stats); cbn [negb]; cbv iota; [ | reflexivity ].
    apply Bool.not_true_is_false. intros Hex.
    apply existsb_exists in Hex. destruct Hex as (field & _ & Hdiff).
    rewrite strict_eq_refl in Hdiff. destruct (negb _ && negb _); discriminate.
  - intros A B. unfold statsChanged.
    change (negb (json_truthy (Obj A))) with false.
    change (negb (json_truthy (Obj B))) with false. cbv iota.
    apply existsb_pointwise. intros field.
    rewrite (strict_eq_sym (prop (Obj B) field) (prop (Obj A) field)).
    rewrite (Bool.andb_comm (negb (strict_eq (prop (Obj B) field) JUndefined))).
    reflexivity.
Qed.

Section Presenter.

Variable StringToNumber : string -> option Q.
Variable Number_toString_fraction : Q -> string.

#[local] Abbreviation createStatsEmbed :=
  (createStatsEmbed StringToNumber Number_toString_fraction).

Lemma strict_eq_undefined (v : jsval) : strict_eq v JUndefined = true <-> v = JUndefined.
Proof. destruct v; simpl; split; congruence. Qed.

(** A property that is undefined gives no field; one that is defined gives
    the field with its label, or makes the presenter throw. *)
Lemma field_of_Some (v : jsval) (name : string) (text : jsval -> option string)
    (fs : list Field) :
  Bot.field_of v name text = Some fs ->
  map label fs = (if defined v then [name] else [])
  /\ Forall (fun f => inline f = true) fs
  /\ (defined v = true -> text v <> None).
Proof.
  unfold Bot.field_of, defined. destruct (strict_eq v JUndefined); simpl.
  - intros [= <-]. repeat split; [ constructor | discriminate ].
  - destruct (text v) as [ s | ]; simpl; [ | discriminate ].
    intros [= <-]. repeat split; [ repeat constructor | discriminate ].
Qed.

Lemma field_of_None (v : jsval) (name : string) (text : jsval -> option string) :
  Bot.field_of v name text = None -> defined v = true /\ text v = None.
Proof.
  unfold Bot.field_of, defined. destruct (strict_eq v JUndefined); simpl; [ discriminate | ].
  destruct (text v); simpl; [ discriminate | auto ].
Qed.

Lemma filter_cons_app {A : Type} (f : A -> bool) (x : A) (l : list A) :
  List.filter f (x :: l) = ((if f x then [x] else []) ++ List.filter f l)%list.
Proof. simpl. destruct (f x); reflexivity. Qed.

Lemma map_if {A B : Type} (f : A -> B) (b : bool) (x : A) :
  map f (if b then [x] else []) = if b then [f x] else [].
Proof. destruct b; reflexivity. Qed.

(** X2. Whenever [createStatsEmbed] returns, the message has exactly one
    field for each of the eleven shown properties that the snapshot
    defines, in the fixed order of the source, each inline; so there are at
    most eleven fields and the cut at 25 never drops one. The description
    is there exactly when userName or name is truthy, and the thumbnail
    exactly when avatar is. *)
Theorem createStatsEmbed_one_field_per_defined_property :
  forall (stats : json) (playerName : jsval) (platform : string) (embed : Embed),
    createStatsEmbed stats playerName platform = Some embed ->
    map label (fields embed)
    = map snd (List.filter (fun kl => defined (prop stats (fst kl))) stat_fields)
    /\ (length (fields embed) <= 11)%nat
    /\ Forall (fun f => inline f = true) (fields embed)
    /\ (description embed <> None
        <-> truthy (or (prop stats "userName") (prop stats "name")) = true)
    /\ (thumbnail embed <> None <-> truthy (prop stats "avatar") = true).
Proof.
  intros stats playerName platform embed. unfold Bot.createStatsEmbed.
  destruct (Bot.field_of (prop stats "kills") _ _) as [ f1 | ] eqn:H1; [ | discriminate ].
  destruct (Bot.field_of (prop stats "deaths") _ _) as [ f2 | ] eqn:H2; [ | discriminate ].
  destruct (Bot.field_of (prop stats "kdRatio") _ _) as [ f3 | ] eqn:H3; [ | discriminate ].
  destruct (Bot.field_of (prop stats "score") _ _) as [ f4 | ] eqn:H4; [ | discriminate ].
  destruct (Bot.field_of (prop stats "wins") _ _) as [ f5 | ] eqn:H5; [ | discriminate ].
  destruct (Bot.field_of (prop stats "losses") _ _) as [ f6 | ] eqn:H6; [ | discriminate ].
  destruct (Bot.field_of (prop stats "winPercent") _ _) as [ f7 | ] eqn:H7; [ | discriminate ].
  destruct (Bot.field_of (prop stats "killsPerMinute") _ _) as [ f8 | ] eqn:H8;
    [ | discriminate ].
  destruct (Bot.field_of (prop stats "timePlayed") _ _) as [ f9 | ] eqn:H9; [ | discriminate ].
  destruct (Bot.field_of (prop stats "rank") _ _) as [ f10 | ] eqn:H10; [ | discriminate ].
  destruct (Bot.field_of (prop stats "scorePerMinute") _ _) as [ f11 | ] eqn:H11;
    [ | discriminate ].
  cbn [mbind option_bind]. intros [= <-]. cbn [fields description thumbnail].
  apply field_of_Some in H1, H2, H3, H4, H5, H6, H7, H8, H9, H10, H11.
  destruct H1 as (L1 & I1 & _), H2 as (L2 & I2 & _), H3 as (L3 & I3 & _),
    H4 as (L4 & I4 & _), H5 as (L5 & I5 & _), H6 as (L6 & I6 & _), H7 as (L7 & I7 & _),
    H8 as (L8 & I8 & _), H9 as (L9 & I9 & _), H10 as (L10 & I10 & _), H11 as (L11 & I11 & _).
  set (all := (f1 ++ f2 ++ f3 ++ f4 ++ f5 ++ f6 ++ f7 ++ f8 ++ f9 ++ f10 ++ f11)%list).
  assert (Hlabels : map label all
            = map snd (List.filter (fun kl => defined (prop stats (fst kl))) stat_fields)).
  { unfold all, stat_fields. rewrite !map_app, !filter_cons_app, !map_app, !map_if.
    cbn [fst snd List.filter map].
    rewrite L1, L2, L3, L4, L5, L6, L7, L8, L9, L10, L11, app_nil_r. reflexivity. }
  assert (Hlength : (length all <= 11)%nat).
  { rewrite <- (length_map label), Hlabels, length_map.
    apply (filter_length_le _ stat_fields). }
  assert (Hcut : firstn 25 all = all) by (apply firstn_all2; lia).
  rewrite Hcut. repeat split; try assumption.
  - unfold all. repeat (apply Forall_app; split); assumption.
  - destruct (truthy (or _ _)); [ reflexivity | congruence ].
  - destruct (truthy (or _ _)); [ discriminate | congruence ].
  - destruct (truthy (prop stats "avatar")); [ reflexivity | congruence ].
  - destruct (truthy (prop stats "avatar")); [ discriminate | congruence ].
Qed.

Lemma method_toLocaleString_None (v : jsval) :
  defined v = true -> (method_toLocaleString Number_toString_fraction v = None <-> v = JNull).
Proof. destruct v as [ | | [] | | ]; cbv [defined]; simpl; intros Hd; split; congruence. Qed.

Lemma method_toString_None (v : jsval) :
  defined v = true -> (method_toString Number_toString_fraction v = None <-> v = JNull).
Proof. destruct v as [ | | [] | | ]; cbv [defined]; simpl; intros Hd; split; congruence. Qed.

Lemma method_toFixed_None (d : nat) (v : jsval) :
  method_toFixed d v = None <-> is_number v = false.
Proof. destruct v; simpl; split; congruence. Qed.

Lemma percent_None (v : jsval) :
  (s ← method_toFixed 1 v; Some (s ++ "%")) = None <-> is_number v = false.
Proof. destruct v; simpl; split; congruence. Qed.

#[local] Ltac counted_throws H k :=
  split; [ intros _; left; exists k; split; [ simpl; tauto | ];
           apply field_of_None in H; destruct H as [Hd Hn];
           first [ apply (method_toLocaleString_None _ Hd) in Hn
                 | apply (method_toString_None _ Hd) in Hn ];
           exact Hn
         | reflexivity ].

#[local] Ltac ratio_throws H k :=
  split; [ intros _; right; exists k; split; [ simpl; tauto | ];
           apply field_of_None in H; destruct H as [Hd Hn];
           first [ apply method_toFixed_None in Hn | apply percent_None in Hn ];
           split; assumption
         | reflexivity ].

(** When the calls of [toLocaleString], [toString] and [toFixed] make the
    embedded presenter throw; the builder's own checks are no part of
    it. *)
Lemma createStatsEmbed_None :
  forall (stats : json) (playerName : jsval) (platform : string),
    createStatsEmbed stats playerName platform = None
    <-> (exists k, In k counted_fields /\ prop stats k = JNull)
        \/ (exists k, In k ratio_fields
                      /\ defined (prop stats k) = true
                      /\ is_number (prop stats k) = false).
Proof.
  intros stats playerName platform. unfold Bot.createStatsEmbed.
  destruct (Bot.field_of (prop stats "kills") _ _) as [ f1 | ] eqn:H1;
    [ | counted_throws H1 "kills" ].
  destruct (Bot.field_of (prop stats "deaths") _ _) as [ f2 | ] eqn:H2;
    [ | counted_throws H2 "deaths" ].
  destruct (Bot.field_of (prop stats "kdRatio") _ _) as [ f3 | ] eqn:H3;
    [ | ratio_throws H3 "kdRatio" ].
  destruct (Bot.field_of (prop stats "score") _ _) as [ f4 | ] eqn:H4;
    [ | counted_throws H4 "score" ].
  destruct (Bot.field_of (prop stats "wins") _ _) as [ f5 | ] eqn:H5;
    [ | counted_throws H5 "wins" ].
  destruct (Bot.field_of (prop stats "losses") _ _) as [ f6 | ] eqn:H6;
    [ | counted_throws H6 "losses" ].
  destruct (Bot.field_of (prop stats "winPercent") _ _) as [ f7 | ] eqn:H7;
    [ | ratio_throws H7 "winPercent" ].
  destruct (Bot.field_of (prop stats "killsPerMinute") _ _) as [ f8 | ] eqn:H8;
    [ | ratio_throws H8 "killsPerMinute" ].
  destruct (Bot.field_of (prop stats "timePlayed") _ _) as [ f9 | ] eqn:H9;
    [ | apply field_of_None in H9; destruct H9 as [_ H9]; discriminate ].
  destruct (Bot.field_of (prop stats "rank") _ _) as [ f10 | ] eqn:H10;
    [ | counted_throws H10 "rank" ].
  destruct (Bot.field_of (prop stats "scorePerMinute") _ _) as [ f11 | ] eqn:H11;
    [ | ratio_throws H11 "scorePerMinute" ].
  cbn [mbind option_bind]. split; [ discriminate | ]. intros Hbad. exfalso.
  apply field_of_Some in H1, H2, H3, H4, H5, H6, H7, H8, H10, H11.
  destruct H1 as (_ & _ & T1), H2 as (_ & _ & T2), H3 as (_ & _ & T3),
    H4 as (_ & _ & T4), H5 as (_ & _ & T5), H6 as (_ & _ & T6), H7 as (_ & _ & T7),
    H8 as (_ & _ & T8), H10 as (_ & _ & T10), H11 as (_ & _ & T11).
  destruct Hbad as [(k & Hin & Hnull) | (k & Hin & Hd & Hn)].
  - assert (Hd : defined (prop stats k) = true) by (rewrite Hnull; reflexivity).
    simpl in Hin.
    destruct Hin as [<- | [<- | [<- | [<- | [<- | [<- | []]]]]]];
      [ apply (T1 Hd) | apply (T2 Hd) | apply (T4 Hd) | apply (T5 Hd) | apply (T6 Hd)
      | apply (T10 Hd) ];
      first [ apply (method_toLocaleString_None _ Hd) | apply (method_toString_None _ Hd) ];
      exact Hnull.
  - simpl in Hin.
    destruct Hin as [<- | [<- | [<- | [<- | []]]]];
      [ apply (T3 Hd) | apply (T7 Hd) | apply (T8 Hd) | apply (T11 Hd) ];
      first [ apply method_toFixed_None | apply percent_None ]; exact Hn.
Qed.

(** X3. [createStatsEmbed] throws whenever kills, deaths, score, wins,
    losses or rank is null, and whenever kdRatio, winPercent,
    killsPerMinute or scorePerMinute is defined and is not a number:
    [toLocaleString], [toString] or [toFixed] is then called on a value
    without it, whatever the other properties, the name and the platform
    are. *)
Theorem createStatsEmbed_throws_without_the_method :
  forall (stats : json) (playerName : jsval) (platform : string),
    (exists k, In k counted_fields /\ prop stats k = JNull)
    \/ (exists k, In k ratio_fields
                  /\ defined (prop stats k) = true
                  /\ is_number (prop stats k) = false) ->
    createStatsEmbed stats playerName platform = None.
Proof. intros stats playerName platform. apply createStatsEmbed_None. Qed.

End Presenter.

(** A K/D ratio that is a text has no [toFixed]. *)
Lemma createStatsEmbed_throws_without_the_method_witness :
  createStatsEmbed no_StringToNumber no_fraction text_ratio_stats (JStr "Bob") "xbox" = None.
Proof.
  apply (createStatsEmbed_throws_without_the_method no_StringToNumber no_fraction
           text_ratio_stats (JStr "Bob") "xbox").
  right. exists "kdRatio". split; [ simpl; tauto | split; reflexivity ].
Defined.

(** Bob's snapshot defines kills and deaths, and userName. *)
Lemma createStatsEmbed_one_field_per_defined_property_witness :
  map label (fields bob_embed)
  = map snd (List.filter (fun kl => defined (prop bob_stats (fst kl))) stat_fields)
  /\ (length (fields bob_embed) <= 11)%nat
  /\ Forall (fun f => inline f = true) (fields bob_embed)
  /\ (description bob_embed <> None
      <-> truthy (or (prop bob_stats "userName") (prop bob_stats "name")) = true)
  /\ (thumbnail bob_embed <> None <-> truthy (prop bob_stats "avatar") = true).
Proof.
  apply (createStatsEmbed_one_field_per_defined_property no_StringToNumber no_fraction
           bob_stats (JStr "Bob") "xbox" bob_embed).
  vm_compute. reflexivity.
Defined.

(** ** More of the poll loop *)

Section PollMore.

Variable StringToNumber : string -> option Q.
Variable Number_toString_fraction : Q -> string.
Variable env : Env.

#[local] Abbreviation stats_url := (stats_url Number_toString_fraction).
#[local] Abbreviation playerKey := (playerKey Number_toString_fraction).
#[local] Abbreviation createStatsEmbed := (createStatsEmbed StringToNumber Number_toString_fraction).
#[local] Abbreviation postPlayerStats := (postPlayerStats StringToNumber Number_toString_fraction env).
#[local] Abbreviation postAllStats_loop := (postAllStats_loop StringToNumber Number_toString_fraction env).
#[local] Abbreviation postAllStats := (postAllStats StringToNumber Number_toString_fraction env).
#[local] Abbreviation handle_update := (handle_update StringToNumber Number_toString_fraction env).

Lemma handle_update_run (w : World) :
  handle_update w =
  if reply_ok env (replies w) then
    match postAllStats (record (Replied Updating) w) with
    | (Ok _, w1) => reply env Updated w1
    | (Thrown, w1) => (Thrown, w1)
    end
  else (Thrown, record (Replied Updating) w).
Proof.
  unfold Bot.handle_update. unfold mbind at 1, M_bind at 1. unfold reply at 1.
  destruct (reply_ok env (replies w)); [ | reflexivity ].
  unfold mbind, M_bind.
  destruct (postAllStats (record (Replied Updating) w)) as [[[] | ] w1]; reflexivity.
Qed.

(** X4. When the presenter throws for a player whose stats were fetched
    and have changed, the pass stops at this player: the request for the
    player is all that was done, the players after it in the list are not
    requested and nothing is posted for them. An [!update] on such a list
    ends there too, without its second reply. *)
Theorem render_throw_ends_the_pass :
  forall (p : Player) (rest : list Player) (w : World) (stats : json),
    channel env = true ->
    fetched_stats (net env (fetches w) (stats_url p)) = Some stats ->
    statsChanged (Map_get (playerKey p) (lastStats w)) stats = true ->
    createStatsEmbed stats (name p) (platform p) = None ->
    postAllStats_loop (p :: rest) w = (Thrown, record (Fetched (stats_url p)) w)
    /\ (trackedPlayers w = p :: rest ->
        reply_ok env (replies w) = true ->
        handle_update w
        = (Thrown, record (Fetched (stats_url p)) (record (Replied Updating) w))).
Proof.
  intros p rest w stats Hchannel Hfetched Hchanged Hthrows. split.
  - rewrite postAllStats_loop_cons, postPlayerStats_run, Hchannel. cbn [negb]. cbv zeta iota.
    rewrite Hfetched, Hchanged, Hthrows. reflexivity.
  - intros Hlist Hreply. rewrite handle_update_run, Hreply, postAllStats_run.
    cbn [trackedPlayers record]. rewrite Hlist. cbn [length Nat.eqb].
    rewrite postAllStats_loop_cons, postPlayerStats_run, Hchannel. cbn [negb]. cbv zeta iota.
    cbn [fetches lastStats record]. rewrite Nat.add_0_r, Hfetched, Hchanged, Hthrows.
    reflexivity.
Qed.

Lemma pass_without_channel (players : list Player) (w : World) :
  channel env = false ->
  exists w',
    postAllStats_loop players w = (Ok tt, w')
    /\ trace w' = (trace w ++ repeat (Slept 2000) (length players))%list
    /\ lastStats w' = lastStats w
    /\ trackedPlayers w' = trackedPlayers w
    /\ fetches w' = fetches w
    /\ sends w' = sends w.
Proof.
  intros Hchannel. revert w. induction players as [ | p rest IH ]; intros w.
  - exists w. simpl. rewrite app_nil_r. repeat split; reflexivity.
  - rewrite postAllStats_loop_cons, postPlayerStats_run, Hchannel. cbn [negb]. cbv iota.
    destruct (IH (record (Slept 2000) w)) as (w' & Hrun & Htrace & Hcache & Hlist & Hf & Hs).
    exists w'. rewrite Hrun, Htrace, Hcache, Hlist, Hf, Hs. simpl.
    rewrite <- app_assoc, !Nat.add_0_r. repeat split; reflexivity.
Qed.

(** X5. Without the channel in the client's cache, a pass asks for
    nothing, posts nothing and leaves the cache of last stats alone; it
    still pauses two seconds for every tracked player, and returns
    normally. *)
Theorem pass_without_channel_only_pauses :
  forall w : World,
    channel env = false ->
    exists w',
      postAllStats w = (Ok tt, w')
      /\ trace w' = (trace w ++ repeat (Slept 2000) (length (trackedPlayers w)))%list
      /\ lastStats w' = lastStats w
      /\ trackedPlayers w' = trackedPlayers w
      /\ fetches w' = fetches w
      /\ sends w' = sends w.
Proof.
  intros w Hchannel. rewrite postAllStats_run.
  destruct (trackedPlayers w) as [ | p rest ] eqn:Hlist.
  - exists w. simpl. rewrite app_nil_r. repeat split; try reflexivity. exact Hlist.
  - cbn [length Nat.eqb].
    destruct (pass_without_channel (p :: rest) w Hchannel)
      as (w' & Hrun & Htrace & Hcache & Hsame & Hf & Hs).
    exists w'. rewrite Hsame, Hlist. repeat split; assumption.
Qed.

Lemma fetched_stats_truthy (o : FetchOutcome) (stats : json) :
  fetched_stats o = Some stats -> json_truthy stats = true.
Proof.
  destruct o as [ | [ [ | ] [ d | ] ] ]; simpl; try discriminate.
  destruct (json_truthy d) eqn:Hd; [ | discriminate ]. intros [= <-]. exact Hd.
Qed.

(** X6. Stats that were posted are not posted again. After a call of
    [postPlayerStats] that posts a player's stats, a later call for the
    player, from any world whose cache still has the entry of the player's
    key, that fetches stats the detector does not tell from the posted
    ones, and the posted stats themselves are such, ends with the request
    alone: nothing is posted and the cache stays. *)
Theorem posted_stats_are_not_posted_again :
  forall (p : Player) (w : World) (stats : json) (e : Embed),
    channel env = true ->
    fetched_stats (net env (fetches w) (stats_url p)) = Some stats ->
    statsChanged (Map_get (playerKey p) (lastStats w)) stats = true ->
    createStatsEmbed stats (name p) (platform p) = Some e ->
    send_ok env (sends w) = true ->
    let w1 := snd (postPlayerStats p w) in
    delivered (trace w1) = (delivered (trace w) ++ [e])%list
    /\ statsChanged (Some stats) stats = false
    /\ (forall (w2 : World) (stats' : json),
          Map_get (playerKey p) (lastStats w2) = Map_get (playerKey p) (lastStats w1) ->
          fetched_stats (net env (fetches w2) (stats_url p)) = Some stats' ->
          statsChanged (Some stats) stats' = false ->
          postPlayerStats p w2 = (Ok tt, record (Fetched (stats_url p)) w2)).
Proof.
  intros p w stats e Hchannel Hfetched Hchanged Hembed Hsend. cbv zeta.
  rewrite postPlayerStats_run, Hchannel. cbn [negb]. cbv zeta iota.
  rewrite Hfetched, Hchanged, Hembed, Hsend. cbn [snd].
  split; [ | split ].
  - cbn [trace set_lastStats record]. rewrite !delivered_app. simpl.
    rewrite !app_nil_r. reflexivity.
  - unfold statsChanged. rewrite (fetched_stats_truthy _ _ Hfetched). cbn [negb]. cbv iota.
    apply Bool.not_true_is_false. intros Hex.
    apply existsb_exists in Hex. destruct Hex as (field & _ & Hdiff).
    rewrite strict_eq_refl in Hdiff. destruct (negb _ && negb _); discriminate.
  - intros w2 stats' Hcache Hfetched' Hsame.
    rewrite postPlayerStats_run, Hchannel. cbn [negb]. cbv zeta iota.
    rewrite Hfetched', Hcache. cbn [lastStats set_lastStats].
    rewrite Map_get_set_same, Hsame. reflexivity.
Qed.

Lemma postPlayerStats_bounds (p : Player) (w : World) :
  let w' := snd (postPlayerStats p w) in
  trackedPlayers w' = trackedPlayers w
  /\ file w' = file w
  /\ writes w' = writes w
  /\ replies w' = replies w
  /\ (length (delivered (trace w')) <= S (length (delivered (trace w))))%nat
  /\ (fetches w' <= S (fetches w))%nat.
Proof.
  cbv zeta. rewrite postPlayerStats_run.
  destruct (channel env); cbn [negb]; cbv zeta iota;
    [ | cbn [snd]; repeat split; lia ].
  destruct (fetched_stats _) as [ stats | ];
    [ destruct (statsChanged _ stats);
      [ destruct (createStatsEmbed stats _ _) as [ e | ];
        [ destruct (send_ok env (sends w)) | ] | ] | ];
    cbn [snd trackedPlayers file writes replies trace fetches set_lastStats record];
    rewrite ?delivered_app, ?length_app; simpl; repeat split; lia.
Qed.

Lemma postAllStats_loop_bounds (players : list Player) (w : World) :
  let w' := snd (postAllStats_loop players w) in
  trackedPlayers w' = trackedPlayers w
  /\ file w' = file w
  /\ writes w' = writes w
  /\ replies w' = replies w
  /\ (length (delivered (trace w')) <= length (delivered (trace w)) + length players)%nat
  /\ (fetches w' <= fetches w + length players)%nat.
Proof.
  cbv zeta. revert w. induction players as [ | p rest IH ]; intros w.
  - simpl. repeat split; lia.
  - rewrite postAllStats_loop_cons.
    pose proof (postPlayerStats_bounds p w) as Hp. cbv zeta in Hp.
    destruct (postPlayerStats p w) as [[[] | ] w1]; cbn [snd] in Hp |- *;
      destruct Hp as (Hl & Hf & Hw & Hr & Hd & Hn).
    + specialize (IH (record (Slept 2000) w1)).
      cbn [trackedPlayers file writes replies trace fetches record] in IH.
      rewrite delivered_app in IH. simpl in IH. rewrite app_nil_r in IH.
      destruct IH as (IHl & IHf & IHw & IHr & IHd & IHn).
      rewrite IHl, IHf, IHw, IHr. simpl. repeat split; try congruence; lia.
    + simpl. repeat split; try assumption; lia.
Qed.

(** X7. A pass leaves the tracked list, the file and the counts of writes
    and replies as they were, posts at most one message for each tracked
    player and makes at most one request for each. *)
Theorem pass_posts_at_most_one_message_per_player :
  forall w : World,
    let w' := snd (postAllStats w) in
    trackedPlayers w' = trackedPlayers w
    /\ file w' = file w
    /\ writes w' = writes w
    /\ replies w' = replies w
    /\ (length (delivered (trace w'))
        <= length (delivered (trace w)) + length (trackedPlayers w))%nat
    /\ (fetches w' <= fetches w + length (trackedPlayers w))%nat.
Proof.
  intros w. cbv zeta. rewrite postAllStats_run.
  destruct (length (trackedPlayers w) =? 0)%nat.
  - simpl. repeat split; lia.
  - apply postAllStats_loop_bounds.
Qed.

Lemma postAllStats_store_kept (w : World) : store_kept w (snd (postAllStats w)).
Proof.
  rewrite postAllStats_run. destruct (length (trackedPlayers w) =? 0)%nat.
  - repeat split.
  - destruct (postAllStats_loop_bounds (trackedPlayers w) w) as (Hl & Hf & Hw & _).
    repeat split; assumption.
Qed.

End PollMore.

(** Bob's K/D ratio comes as a text: the pass over Bob and Alice stops at
    Bob. *)
Lemma render_throw_ends_the_pass_witness :
  postAllStats_loop no_StringToNumber no_fraction text_ratios [bob; alice]
    (tracking [bob; alice])
  = (Thrown, record (Fetched (stats_url no_fraction bob)) (tracking [bob; alice]))
  /\ (trackedPlayers (tracking [bob; alice]) = [bob; alice] ->
      reply_ok text_ratios (replies (tracking [bob; alice])) = true ->
      handle_update no_StringToNumber no_fraction text_ratios (tracking [bob; alice])
      = (Thrown, record (Fetched (stats_url no_fraction bob))
                   (record (Replied Updating) (tracking [bob; alice])))).
Proof.
  apply (render_throw_ends_the_pass no_StringToNumber no_fraction text_ratios bob [alice]
           (tracking [bob; alice]) text_ratio_stats);
    vm_compute; reflexivity.
Defined.

Lemma pass_without_channel_only_pauses_witness :
  exists w',
    postAllStats no_StringToNumber no_fraction no_channel (tracking [alice; bob]) = (Ok tt, w')
    /\ trace w'
       = (trace (tracking [alice; bob])
          ++ repeat (Slept 2000) (length (trackedPlayers (tracking [alice; bob]))))%list
    /\ lastStats w' = lastStats (tracking [alice; bob])
    /\ trackedPlayers w' = trackedPlayers (tracking [alice; bob])
    /\ fetches w' = fetches (tracking [alice; bob])
    /\ sends w' = sends (tracking [alice; bob]).
Proof.
  apply (pass_without_channel_only_pauses no_StringToNumber no_fraction no_channel
           (tracking [alice; bob])).
  reflexivity.
Defined.

(** Bob's stats are posted, and the next call, which fetches them again,
    posts nothing. *)
Lemma posted_stats_are_not_posted_again_witness :
  delivered (trace (snd (postPlayerStats no_StringToNumber no_fraction always_bob bob
                           (tracking [bob]))))
  = (delivered (trace (tracking [bob])) ++ [bob_embed])%list
  /\ statsChanged (Some bob_stats) bob_stats = false
  /\ (forall (w2 : World) (stats' : json),
        Map_get (playerKey no_fraction bob) (lastStats w2)
        = Map_get (playerKey no_fraction bob)
            (lastStats (snd (postPlayerStats no_StringToNumber no_fraction always_bob bob
                               (tracking [bob])))) ->
        fetched_stats (net always_bob (fetches w2) (stats_url no_fraction bob)) = Some stats' ->
        statsChanged (Some bob_stats) stats' = false ->
        postPlayerStats no_StringToNumber no_fraction always_bob bob w2
        = (Ok tt, record (Fetched (stats_url no_fraction bob)) w2)).
Proof.
  apply (posted_stats_are_not_posted_again no_StringToNumber no_fraction always_bob bob
           (tracking [bob]) bob_stats bob_embed);
    vm_compute; reflexivity.
Defined.

(** ** Start, restart and shutdown *)

Section Lifecycle.

Variable URL_pathname : string -> option string.
Variable StringToNumber : string -> option Q.
Variable Number_toString_fraction : Q -> string.
Variable env : Env.

#[local] Abbreviation ready := (ready StringToNumber Number_toString_fraction env).
#[local] Abbreviation deliver :=
  (deliver URL_pathname StringToNumber Number_toString_fraction env).
#[local] Abbreviation after_deliveries :=
  (after_deliveries URL_pathname StringToNumber Number_toString_fraction env).
#[local] Abbreviation postAllStats := (postAllStats StringToNumber Number_toString_fraction env).

Lemma loadTrackedPlayers_run (w : World) :
  loadTrackedPlayers env w =
  match file w with
  | Some (Json players) => (Ok tt, set_trackedPlayers players w)
  | Some Unreadable => (Ok tt, set_trackedPlayers [] w)
  | None => saveTrackedPlayers env (set_trackedPlayers [] w)
  end.
Proof.
  unfold loadTrackedPlayers, mbind, M_bind, gets, modify.
  destruct (file w) as [ [ players | ] | ]; reflexivity.
Qed.

Lemma loadTrackedPlayers_returns (w : World) :
  exists w', loadTrackedPlayers env w = (Ok tt, w') /\ lastStats w' = lastStats w.
Proof.
  rewrite loadTrackedPlayers_run.
  destruct (file w) as [ [ players | ] | ].
  - eexists. split; reflexivity.
  - eexists. split; reflexivity.
  - rewrite saveTrackedPlayers_run. eexists. split; [ reflexivity | ].
    destruct (write_ok env _); reflexivity.
Qed.

Lemma ready_run (w : World) :
  exists w1,
    loadTrackedPlayers env w = (Ok tt, w1)
    /\ store_kept w1 (snd (ready w)).
Proof.
  unfold Process.ready.
  destruct (loadTrackedPlayers_returns w) as (w1 & Hload & _).
  exists w1. split; [ exact Hload | ].
  unfold mbind, M_bind. rewrite Hload. unfold try_catch.
  pose proof (postAllStats_store_kept StringToNumber Number_toString_fraction env w1) as Hpass.
  destruct (postAllStats w1) as [[[] | ] w2]; exact Hpass.
Qed.

Lemma in_step_store_kept (w w' : World) : store_kept w w' -> in_step w -> in_step w'.
Proof.
  intros (Hl & Hf & _). unfold in_step. rewrite Hl, Hf. tauto.
Qed.

Lemma ready_in_step (w : World) :
  (forall n, write_ok env n = true) -> in_step (snd (ready w)).
Proof.
  intros Hwrites. destruct (ready_run w) as (w1 & Hload & Hkept).
  apply (in_step_store_kept _ _ Hkept).
  rewrite loadTrackedPlayers_run in Hload.
  destruct (file w) as [ [ players | ] | ] eqn:Hfile.
  - injection Hload as <-. left. exact Hfile.
  - injection Hload as <-. right. split; [ exact Hfile | reflexivity ].
  - rewrite saveTrackedPlayers_run, Hwrites in Hload. injection Hload as <-.
    left. reflexivity.
Qed.

Lemma deliver_in_step (d : Delivery) (w : World) :
  (forall n, write_ok env n = true) -> in_step w -> in_step (snd (deliver d w)).
Proof.
  intros Hwrites Hw. destruct d as [ author_bot content | ]; simpl.
  - destruct (messageCreate_outcome URL_pathname StringToNumber Number_toString_fraction env
                author_bot content w) as [ [Hkept _] | [(evs & r & _ & _ & Hfile) _] ].
    + apply (in_step_store_kept _ _ Hkept Hw).
    + left. apply Hfile, Hwrites.
  - apply (in_step_store_kept w); [ | exact Hw ].
    apply postAllStats_store_kept.
Qed.

Lemma after_deliveries_in_step (ds : list Delivery) (w : World) :
  (forall n, write_ok env n = true) -> in_step w -> in_step (after_deliveries ds w).
Proof.
  intros Hwrites. revert w. induction ds as [ | d ds IH ]; intros w Hw; [ exact Hw | ].
  apply (IH (snd (deliver d w))). apply deliver_in_step; assumption.
Qed.

Lemma restart_ready (w : World) :
  in_step w -> trackedPlayers (snd (ready (restart w))) = trackedPlayers w.
Proof.
  intros Hw. destruct (ready_run (restart w)) as (w1 & Hload & (Hl & _)).
  rewrite Hl. rewrite loadTrackedPlayers_run in Hload.
  change (file (restart w)) with (file w) in Hload.
  destruct Hw as [ Hfile | [Hfile Hempty] ]; rewrite Hfile in Hload;
    injection Hload as <-; simpl; congruence.
Qed.

(** X9. Tracked players survive a restart. While every write goes through,
    after the start and any sequence of messages and ticks of the timer,
    the file holds the tracked list, or it is unreadable and the list is
    empty; and a new process started then over the same file tracks the
    same players, in the same order. *)
Theorem tracked_players_survive_a_restart :
  forall (ds : list Delivery) (w0 : World),
    (forall n, write_ok env n = true) ->
    let w1 := after_deliveries ds (snd (ready w0)) in
    in_step w1
    /\ trackedPlayers (snd (ready (restart w1))) = trackedPlayers w1.
Proof.
  intros ds w0 Hwrites. cbv zeta.
  assert (Hstep : in_step (after_deliveries ds (snd (ready w0)))).
  { apply after_deliveries_in_step; [ exact Hwrites | ].
    apply ready_in_step. exact Hwrites. }
  split; [ exact Hstep | apply restart_ready; exact Hstep ].
Qed.

(** X10. The listener of SIGINT, and that of SIGTERM, never throws, leaves
    the tracked list alone and writes it twice: once itself and once more
    through the listener of [exit] that [process.exit] runs. If the second
    write goes through, the file holds the list, and a new process that
    loads the file tracks the same players. *)
Theorem shutdown_writes_the_tracked_players_twice :
  forall w : World,
  exists w',
    on_SIGINT env w = (Ok tt, w')
    /\ on_SIGTERM env w = (Ok tt, w')
    /\ trackedPlayers w' = trackedPlayers w
    /\ trace w' = (trace w ++ [Wrote (trackedPlayers w) (write_ok env (writes w));
                               Wrote (trackedPlayers w) (write_ok env (writes w + 1))])%list
    /\ (write_ok env (writes w + 1) = true ->
        file w' = Some (Json (trackedPlayers w))
        /\ trackedPlayers (snd (loadTrackedPlayers env (restart w'))) = trackedPlayers w).
Proof.
  intros w. unfold on_SIGTERM, on_SIGINT, process_exit, on_exit.
  unfold mbind, M_bind. rewrite saveTrackedPlayers_run, saveTrackedPlayers_run.
  eexists. split; [ reflexivity | ]. split; [ reflexivity | ].
  destruct (write_ok env (writes w)) eqn:Hfirst;
    cbn [writes trackedPlayers set_file record]; rewrite ?Nat.add_0_r;
    destruct (write_ok env (writes w + 1)) eqn:Hsecond;
    cbn [trace trackedPlayers set_file record]; rewrite <- ?app_assoc;
    (split; [ reflexivity | ]); (split; [ reflexivity | ]);
    try discriminate; intros _; (split; [ reflexivity | ]);
    rewrite loadTrackedPlayers_run; reflexivity.
Qed.

End Lifecycle.

(** Alice and Bob are tracked when the signal comes. *)
Lemma shutdown_writes_the_tracked_players_twice_witness :
  exists w',
    on_SIGINT first_fails (tracking [alice; bob]) = (Ok tt, w')
    /\ on_SIGTERM first_fails (tracking [alice; bob]) = (Ok tt, w')
    /\ trackedPlayers w' = trackedPlayers (tracking [alice; bob])
    /\ trace w'
       = (trace (tracking [alice; bob])
          ++ [Wrote (trackedPlayers (tracking [alice; bob]))
                (write_ok first_fails (writes (tracking [alice; bob])));
              Wrote (trackedPlayers (tracking [alice; bob]))
                (write_ok first_fails (writes (tracking [alice; bob]) + 1))])%list
    /\ (write_ok first_fails (writes (tracking [alice; bob]) + 1) = true ->
        file w' = Some (Json (trackedPlayers (tracking [alice; bob])))
        /\ trackedPlayers (snd (loadTrackedPlayers first_fails (restart w')))
           = trackedPlayers (tracking [alice; bob])).
Proof. apply (shutdown_writes_the_tracked_players_twice first_fails (tracking [alice; bob])). Defined.

(** A player file that holds Alice and Bob, a start, and two messages. *)
Lemma tracked_players_survive_a_restart_witness :
  in_step (after_deliveries plain_pathname no_StringToNumber no_fraction always_bob
             [Message false "!untrack alice"; Tick]
             (snd (ready no_StringToNumber no_fraction always_bob
                     (set_file (Json [alice; bob]) empty_world))))
  /\ trackedPlayers
       (snd (ready no_StringToNumber no_fraction always_bob
               (restart
                  (after_deliveries plain_pathname no_StringToNumber no_fraction always_bob
                     [Message false "!untrack alice"; Tick]
                     (snd (ready no_StringToNumber no_fraction always_bob
                             (set_file (Json [alice; bob]) empty_world)))))))
     = trackedPlayers
         (after_deliveries plain_pathname no_StringToNumber no_fraction always_bob
            [Message false "!untrack alice"; Tick]
            (snd (ready no_StringToNumber no_fraction always_bob
                    (set_file (Json [alice; bob]) empty_world)))).
Proof.
  apply (tracked_players_survive_a_restart plain_pathname no_StringToNumber no_fraction
           always_bob [Message false "!untrack alice"; Tick]
           (set_file (Json [alice; bob]) empty_world)).
  reflexivity.
Defined.

(** ** What the commands send and what they never send *)

Lemma append_cons (c : ascii) (a b : string) : String c a ++ b = String c (a ++ b).
Proof. reflexivity. Qed.

Lemma trimEnd_empty (s : string) : trimEnd s = "" <-> all_space s = true.
Proof.
  induction s as [ | c r IH ]; simpl; [ tauto | ].
  destruct (trimEnd r) as [ | c' r' ].
  - destruct (is_space c); simpl; [ | split; discriminate ].
    rewrite <- IH. tauto.
  - rewrite Bool.andb_true_iff, <- IH. split; [ discriminate | intros [_ [=]] ].
Qed.

Lemma all_space_trimStart (s : string) : all_space (trimStart s) = all_space s.
Proof.
  induction s as [ | c r IH ]; simpl; [ reflexivity | ].
  destruct (is_space c) eqn:Hc; simpl; [ exact IH | rewrite Hc; reflexivity ].
Qed.

Lemma trim_empty (s : string) : trim s = "" <-> all_space s = true.
Proof. unfold trim. rewrite trimEnd_empty, all_space_trimStart. tauto. Qed.

Lemma trimEnd_idempotent (s : string) : trimEnd (trimEnd s) = trimEnd s.
Proof.
  induction s as [ | c r IH ]; simpl; [ reflexivity | ].
  destruct (trimEnd r) as [ | c' r' ] eqn:Hr.
  - destruct (is_space c) eqn:Hc; simpl; [ reflexivity | rewrite Hc; reflexivity ].
  - change (trimEnd (String c (String c' r'))
            = String c (String c' r')).
    change (trimEnd (String c (String c' r')))
      with (match trimEnd (String c' r') with
            | EmptyString => if is_space c then EmptyString else String c EmptyString
            | r'' => String c r''
            end).
    rewrite IH. reflexivity.
Qed.

Lemma trimEnd_suffix (a b : string) : trimEnd (a ++ b) = a ++ b -> trimEnd b = b.
Proof.
  induction a as [ | c a IH ]; [ auto | ].
  rewrite append_cons. simpl.
  destruct (trimEnd (a ++ b)) as [ | c' r' ] eqn:Hr.
  - destruct (is_space c); [ discriminate | ].
    intros [= Hab]. destruct a, b; try discriminate Hab; reflexivity.
  - intros [= Hab]. apply IH. exact Hab.
Qed.

Lemma slice_append (p rest : string) : slice (String.length p) (p ++ rest) = rest.
Proof. induction p as [ | c p IH ]; [ reflexivity | exact IH ]. Qed.

(** After the word of a command and a space, a trimmed message has an
    argument that is not empty. *)
Lemma argument_nonempty (p message_content : string) :
  trimEnd p <> p ->
  startsWith p (trim message_content) = true ->
  trim (slice (String.length p) (trim message_content)) <> "".
Proof.
  intros Hp Hstarts. apply startsWith_split in Hstarts. destruct Hstarts as (rest & Hrest).
  assert (Htrimmed : trimEnd (p ++ rest) = p ++ rest).
  { rewrite <- Hrest. apply trimEnd_idempotent. }
  rewrite Hrest, slice_append. rewrite trim_empty. intros Hspace.
  pose proof (trimEnd_suffix _ _ Htrimmed) as Hsuffix.
  apply trimEnd_empty in Hspace. rewrite Hspace in Hsuffix.
  rewrite <- Hsuffix in Htrimmed.
  assert (Hnil : p ++ "" = p) by (clear; induction p as [ | c p IH ];
                                  [ reflexivity | rewrite append_cons, IH; reflexivity ]).
  rewrite Hnil in Htrimmed. contradiction.
Qed.

Section Emits.

Variable P : Event -> Prop.
Variable env : Env.

Lemma goes_on_with_refl (w : World) : goes_on_with P w w.
Proof. exists []. rewrite app_nil_r. split; [ reflexivity | constructor ]. Qed.

Lemma goes_on_with_trans (w1 w2 w3 : World) :
  goes_on_with P w1 w2 -> goes_on_with P w2 w3 -> goes_on_with P w1 w3.
Proof.
  intros (evs & H12 & Hevs) (evs' & H23 & Hevs'). exists (evs ++ evs')%list.
  rewrite H23, H12, app_assoc. split; [ reflexivity | ].
  apply Forall_app. split; assumption.
Qed.

Lemma goes_on_with_record (e : Event) (w : World) : P e -> goes_on_with P w (record e w).
Proof. intros He. exists [e]. split; [ reflexivity | ]. repeat constructor. exact He. Qed.

Lemma goes_on_with_same_trace (w w' : World) : trace w' = trace w -> goes_on_with P w w'.
Proof. intros H. exists []. rewrite app_nil_r. split; [ exact H | constructor ]. Qed.

Lemma emits_ret {A : Type} (a : A) : emits P (mret a).
Proof. intros w. apply goes_on_with_refl. Qed.

Lemma emits_throw {A : Type} : emits P (@throw A).
Proof. intros w. apply goes_on_with_refl. Qed.

Lemma emits_gets {A : Type} (f : World -> A) : emits P (gets f).
Proof. intros w. apply goes_on_with_refl. Qed.

Lemma emits_lift {A : Type} (r : option A) : emits P (lift r).
Proof. intros w. destruct r; apply goes_on_with_refl. Qed.

Lemma emits_modify (f : World -> World) :
  (forall w, trace (f w) = trace w) -> emits P (modify f).
Proof. intros Hf w. apply goes_on_with_same_trace, Hf. Qed.

Lemma emits_bind {A B : Type} (c : M A) (f : A -> M B) :
  emits P c -> (forall a, emits P (f a)) -> emits P (c ≫= f).
Proof.
  intros Hc Hf w. unfold mbind, M_bind. specialize (Hc w).
  destruct (c w) as [[ a | ] w1]; simpl in Hc; [ | exact Hc ].
  apply (goes_on_with_trans _ _ _ Hc), Hf.
Qed.

Lemma emits_try_catch {A : Type} (c h : M A) :
  emits P c -> emits P h -> emits P (try_catch c h).
Proof.
  intros Hc Hh w. unfold try_catch. specialize (Hc w).
  destruct (c w) as [[ a | ] w1]; simpl in Hc; [ exact Hc | ].
  apply (goes_on_with_trans _ _ _ Hc), Hh.
Qed.

Lemma emits_if {A : Type} (b : bool) (c d : M A) :
  emits P c -> emits P d -> emits P (if b then c else d).
Proof. destruct b; auto. Qed.

Lemma emits_fetch (url : string) : P (Fetched url) -> emits P (fetch env url).
Proof.
  intros He w. unfold fetch.
  destruct (net env (fetches w) url); apply goes_on_with_record, He.
Qed.

Lemma emits_response_json (r : Response) : emits P (response_json r).
Proof. apply emits_lift. Qed.

Lemma emits_sleep (ms : nat) : P (Slept ms) -> emits P (sleep ms).
Proof. intros He w. apply goes_on_with_record, He. Qed.

Lemma emits_reply (r : Reply) : P (Replied r) -> emits P (reply env r).
Proof. intros He w. apply goes_on_with_record, He. Qed.

Lemma emits_reply_embed (r : Reply) : P (Replied r) -> emits P (reply_embed env r).
Proof.
  intros He. unfold reply_embed.
  destruct (builds env r); [ apply emits_reply, He | apply emits_throw ].
Qed.

Lemma emits_send (e : Embed) : (forall b, P (Sent e b)) -> emits P (send env e).
Proof. intros He w. apply goes_on_with_record, He. Qed.

Lemma emits_writeFileSync (players : list Player) :
  (forall b, P (Wrote players b)) -> emits P (writeFileSync env players).
Proof.
  intros He w. unfold writeFileSync. destruct (write_ok env (writes w)).
  - apply (goes_on_with_trans _ (record (Wrote players true) w)).
    + apply goes_on_with_record, He.
    + apply goes_on_with_same_trace. reflexivity.
  - apply goes_on_with_record, He.
Qed.

End Emits.

Ltac emits_tac :=
  repeat first
    [ apply emits_ret | apply emits_throw | apply emits_gets | apply emits_lift
    | apply emits_response_json
    | apply emits_bind; [ | intros ? ]
    | apply emits_try_catch
    | apply emits_fetch | apply emits_sleep | apply emits_reply
    | apply emits_send; intros ?
    | apply emits_writeFileSync; intros ?
    | apply emits_modify; intros ?; reflexivity
    | match goal with
      | |- emits _ (match ?x with _ => _ end) => destruct x
      | |- emits _ (let _ := _ in _) => cbv zeta
      end ].

Section EmittedByCommands.

Variable URL_pathname : string -> option string.
Variable StringToNumber : string -> option Q.
Variable Number_toString_fraction : Q -> string.
Variable env : Env.
Variable P : Event -> Prop.

Hypothesis P_search : forall text platform, In platform platforms ->
  P (Fetched (search_url text platform)).
Hypothesis P_probe : forall text platform, In platform platforms ->
  P (Fetched (probe_url text platform)).
Hypothesis P_pause : P (Slept 500).
Hypothesis P_write : forall l b, P (Wrote l b).

Lemma emits_searchPlayers_loop (playerName : string) (todo : list string)
    (results : list SearchResult) :
  (forall platform, In platform todo -> In platform platforms) ->
  emits P (searchPlayers_loop env playerName todo results).
Proof.
  revert results. induction todo as [ | platform rest IH ]; intros results Hin; simpl.
  - apply emits_ret.
  - apply emits_bind; [ | intros results'; apply IH; intros q Hq; apply Hin; right; exact Hq ].
    unfold searchPlayers_step. fold (search_url playerName platform).
    emits_tac; try assumption. apply P_search, Hin. left. reflexivity.
Qed.

Lemma emits_track_probe (playerId : string) (todo : list string) :
  (forall platform, In platform todo -> In platform platforms) ->
  emits P (track_probe env playerId todo).
Proof.
  induction todo as [ | platform rest IH ]; intros Hin; simpl.
  - apply emits_ret.
  - apply emits_bind.
    + unfold track_probe_step. fold (probe_url playerId platform).
      emits_tac. apply P_probe, Hin. left. reflexivity.
    + intros [ f | ]; [ apply emits_ret | ]. apply IH. intros q Hq. apply Hin. right. exact Hq.
Qed.

Lemma emits_add_probe (playerId : string) (todo : list string) :
  (forall platform, In platform todo -> In platform platforms) ->
  emits P (add_probe env playerId todo).
Proof.
  induction todo as [ | platform rest IH ]; intros Hin; simpl.
  - apply emits_ret.
  - apply emits_bind.
    + unfold add_probe_step. fold (probe_url playerId platform).
      emits_tac; try assumption. apply P_probe, Hin. left. reflexivity.
    + intros [ f | ]; [ apply emits_ret | ]. apply IH. intros q Hq. apply Hin. right. exact Hq.
Qed.

Lemma emits_saveTrackedPlayers : emits P (saveTrackedPlayers env).
Proof. unfold saveTrackedPlayers. emits_tac. apply P_write. Qed.

Hypothesis P_reply : forall r, is_usage r = false -> P (Replied r).

Lemma emits_handle_search (content : string) :
  trim (slice 8 content) <> "" -> emits P (handle_search env content).
Proof.
  intros Harg. unfold handle_search. cbv zeta.
  apply String.eqb_neq in Harg. rewrite Harg.
  apply emits_bind; [ apply emits_reply, P_reply; reflexivity | intros _ ].
  apply emits_bind; [ apply emits_searchPlayers_loop; auto | intros results ].
  destruct (length results =? 0)%nat;
    [ apply emits_reply | apply emits_reply_embed ]; apply P_reply; reflexivity.
Qed.

Lemma emits_add_found (f : Player) : emits P (add_found env f).
Proof.
  unfold add_found. apply emits_bind; [ apply emits_gets | intros players ].
  destruct (List.find (sameAs f) players).
  - apply emits_reply, P_reply. reflexivity.
  - apply emits_bind; [ apply emits_modify; intros ?; reflexivity | intros _ ].
    apply emits_bind; [ apply emits_saveTrackedPlayers | intros _ ].
    apply emits_bind; [ apply emits_gets | intros total ].
    apply emits_reply_embed, P_reply. reflexivity.
Qed.

Lemma emits_track_found (f : Player) : emits P (track_found env f).
Proof.
  unfold track_found. apply emits_bind; [ apply emits_gets | intros players ].
  destruct (List.find (sameAs f) players).
  - apply emits_reply, P_reply. reflexivity.
  - apply emits_bind; [ apply emits_modify; intros ?; reflexivity | intros _ ].
    apply emits_bind; [ apply emits_saveTrackedPlayers | intros _ ].
    apply emits_bind; [ apply emits_gets | intros total ].
    apply emits_reply_embed, P_reply. reflexivity.
Qed.

Lemma emits_handle_add (content : string) :
  trim (slice 5 content) <> "" -> emits P (handle_add URL_pathname env content).
Proof.
  intros Harg. unfold handle_add. cbv zeta.
  apply String.eqb_neq in Harg. rewrite Harg.
  destruct (parseTrackerUrl URL_pathname _) as [ playerId | ];
    [ | apply emits_reply, P_reply; reflexivity ].
  destruct (String.eqb playerId ""); [ apply emits_reply, P_reply; reflexivity | ].
  apply emits_bind; [ apply emits_reply, P_reply; reflexivity | intros _ ].
  apply emits_bind; [ apply emits_add_probe; auto | intros [ f | ] ].
  - apply emits_add_found.
  - apply emits_reply, P_reply. reflexivity.
Qed.

Lemma emits_handle_track (content : string) :
  trim (slice 7 content) <> "" -> emits P (handle_track env content).
Proof.
  intros Harg. unfold handle_track. cbv zeta.
  apply String.eqb_neq in Harg. rewrite Harg.
  apply emits_bind; [ apply emits_track_probe; auto | intros [ f | ] ].
  - apply emits_track_found.
  - apply emits_reply, P_reply. reflexivity.
Qed.

Lemma emits_handle_list : emits P (handle_list env).
Proof.
  unfold handle_list. apply emits_bind; [ apply emits_gets | intros players ].
  destruct (length players =? 0)%nat;
    [ apply emits_reply | apply emits_reply_embed ]; apply P_reply; reflexivity.
Qed.

Lemma emits_handle_untrack (content : string) :
  trim (slice 9 content) <> "" ->
  emits P (handle_untrack Number_toString_fraction env content).
Proof.
  intros Harg. unfold handle_untrack. cbv zeta.
  apply String.eqb_neq in Harg. rewrite Harg.
  apply emits_bind; [ apply emits_gets | intros players ].
  apply emits_bind; [ apply emits_lift | intros [ [index removedPlayer] | ] ].
  - apply emits_bind; [ apply emits_modify; intros ?; reflexivity | intros _ ].
    apply emits_bind; [ apply emits_saveTrackedPlayers | intros _ ].
    apply emits_bind; [ apply emits_modify; intros ?; reflexivity | intros _ ].
    apply emits_reply, P_reply. reflexivity.
  - apply emits_reply, P_reply. reflexivity.
Qed.

(** A message that is no update command: the handler that takes it, if
    any, is given an argument that is not empty. *)
Lemma emits_messageCreate (author_bot : bool) (message_content : string) :
  String.eqb (trim message_content) "!update"
  || String.eqb (trim message_content) "!bf6update" = false ->
  emits P (messageCreate URL_pathname StringToNumber Number_toString_fraction env
             author_bot message_content).
Proof.
  intros Hupdate. unfold messageCreate. cbv zeta. rewrite Hupdate.
  destruct author_bot; [ apply emits_ret | ].
  destruct (startsWith "!search " (trim message_content)) eqn:Hsearch.
  { apply emits_handle_search.
    apply (argument_nonempty "!search " message_content); [ discriminate | exact Hsearch ]. }
  destruct (startsWith "!add " (trim message_content)) eqn:Hadd.
  { apply emits_handle_add.
    apply (argument_nonempty "!add " message_content); [ discriminate | exact Hadd ]. }
  destruct (startsWith "!track " (trim message_content)) eqn:Htrack.
  { apply emits_handle_track.
    apply (argument_nonempty "!track " message_content); [ discriminate | exact Htrack ]. }
  destruct (String.eqb (trim message_content) "!list"); [ apply emits_handle_list | ].
  destruct (startsWith "!untrack " (trim message_content)) eqn:Huntrack.
  { apply emits_handle_untrack.
    apply (argument_nonempty "!untrack " message_content); [ discriminate | exact Huntrack ]. }
  destruct (String.eqb (trim message_content) "!help" || _);
    [ apply emits_reply, P_reply; reflexivity | apply emits_ret ].
Qed.

End EmittedByCommands.

Section EmittedByPass.

Variable StringToNumber : string -> option Q.
Variable Number_toString_fraction : Q -> string.
Variable env : Env.
Variable P : Event -> Prop.

Hypothesis P_fetch : forall url, P (Fetched url).
Hypothesis P_sleep : forall ms, P (Slept ms).
Hypothesis P_send : forall e b, P (Sent e b).

Lemma emits_postPlayerStats (player : Player) :
  emits P (postPlayerStats StringToNumber Number_toString_fraction env player).
Proof.
  unfold postPlayerStats, fetchPlayerStats. emits_tac; auto.
Qed.

Lemma emits_postAllStats :
  emits P (postAllStats StringToNumber Number_toString_fraction env).
Proof.
  unfold postAllStats. apply emits_bind; [ apply emits_gets | intros players ].
  destruct (length players =? 0)%nat; [ apply emits_ret | ].
  induction players as [ | p rest IH ]; simpl; [ apply emits_ret | ].
  apply emits_bind; [ apply emits_postPlayerStats | intros _ ].
  apply emits_bind; [ apply emits_sleep, P_sleep | intros _; exact IH ].
Qed.

End EmittedByPass.

Section Replies.

Variable URL_pathname : string -> option string.
Variable StringToNumber : string -> option Q.
Variable Number_toString_fraction : Q -> string.
Variable env : Env.

#[local] Abbreviation messageCreate :=
  (messageCreate URL_pathname StringToNumber Number_toString_fraction env).

(** X11. The four replies that tell how a command is used are never sent.
    The text of a message is trimmed before the command is looked for, so a
    text that starts with the word of a command and a space goes on with
    an argument that is not empty; and a text that is the bare word
    search, add, track or untrack after the exclamation mark is no command
    at all: the handler returns without a reply and without any other
    effect. *)
Theorem usage_replies_are_never_sent :
  forall (author_bot : bool) (message_content : string) (w : World),
    goes_on_with no_usage w (snd (messageCreate author_bot message_content w))
    /\ (In (trim message_content) ["!search"; "!add"; "!track"; "!untrack"] ->
        messageCreate author_bot message_content w = (Ok tt, w)).
Proof.
  intros author_bot message_content w. split.
  - destruct (String.eqb (trim message_content) "!update"
              || String.eqb (trim message_content) "!bf6update") eqn:Hupdate.
    + unfold Bot.messageCreate. cbv zeta.
      destruct author_bot; [ apply goes_on_with_refl | ].
      apply Bool.orb_true_iff in Hupdate.
      assert (Hrun : emits no_usage (handle_update StringToNumber Number_toString_fraction env)).
      { unfold handle_update.
        apply emits_bind; [ apply emits_reply; reflexivity | intros _ ].
        apply emits_bind; [ apply emits_postAllStats; intros; exact I | intros _ ].
        apply emits_reply. reflexivity. }
      destruct Hupdate as [Hupdate | Hupdate]; apply String.eqb_eq in Hupdate;
        rewrite Hupdate; apply Hrun.
    + apply emits_messageCreate; try exact Hupdate; intros; try exact I. assumption.
  - intros Hbare. unfold Bot.messageCreate. cbv zeta.
    destruct author_bot; [ reflexivity | ].
    simpl in Hbare. destruct Hbare as [<- | [<- | [<- | [<- | []]]]]; reflexivity.
Qed.

(** X12. A message that is no update command never posts to the channel.
    All it requests are URLs of a search by name and of a lookup by id on
    pc, xbox or psn, and all its pauses are of half a second. *)
Theorem only_an_update_posts :
  forall (author_bot : bool) (message_content : string) (w : World),
    String.eqb (trim message_content) "!update"
    || String.eqb (trim message_content) "!bf6update" = false ->
    goes_on_with of_a_lookup w (snd (messageCreate author_bot message_content w)).
Proof.
  intros author_bot message_content w Hupdate.
  apply emits_messageCreate; try exact Hupdate; try (intros; exact I).
  - intros text platform Hin. exists text, platform. auto.
  - intros text platform Hin. exists text, platform. auto.
  - reflexivity.
Qed.

End Replies.

Lemma usage_replies_are_never_sent_witness :
  goes_on_with no_usage empty_world
    (snd (messageCreate plain_pathname no_StringToNumber no_fraction first_fails false
            "  !track  " empty_world))
  /\ (In (trim "  !track  ") ["!search"; "!add"; "!track"; "!untrack"] ->
      messageCreate plain_pathname no_StringToNumber no_fraction first_fails false
        "  !track  " empty_world
      = (Ok tt, empty_world)).
Proof.
  apply (usage_replies_are_never_sent plain_pathname no_StringToNumber no_fraction
           first_fails false "  !track  " empty_world).
Defined.

Lemma only_an_update_posts_witness :
  goes_on_with of_a_lookup (tracking [alice])
    (snd (messageCreate plain_pathname no_StringToNumber no_fraction first_fails false
            "!search Bob" (tracking [alice]))).
Proof.
  apply (only_an_update_posts plain_pathname no_StringToNumber no_fraction first_fails
           false "!search Bob" (tracking [alice])).
  reflexivity.
Defined.

(** ** More of the lookups and the commands *)

Section LookupOrder.

Variable env : Env.

Lemma track_probe_first (playerId : string) (todo : list string) (w : World) :
  let hits := imap (probe_hit env playerId w) todo in
  fst (track_probe env playerId todo w) = Ok (first_of hits)
  /\ requested (trace (snd (track_probe env playerId todo w)))
     = (requested (trace w) ++ map (probe_url playerId) (take (asked hits) todo))%list.
Proof.
  cbv zeta. revert w. induction todo as [ | platform rest IH ]; intros w.
  - simpl. rewrite app_nil_r. split; reflexivity.
  - cbn [track_probe imap]. unfold mbind, M_bind. rewrite track_probe_step_run. cbv zeta.
    unfold probe_hit at 1 3. rewrite Nat.add_0_r.
    assert (Hrest : imap (probe_hit env playerId w ∘ S) rest
                    = imap (probe_hit env playerId
                              (record (Fetched (probe_url playerId platform)) w)) rest).
    { apply imap_ext. intros i p _. unfold probe_hit, compose. cbn [fetches record].
      replace (fetches w + 1 + i)%nat with (fetches w + S i)%nat by lia. reflexivity. }
    destruct (IH (record (Fetched (probe_url playerId platform)) w)) as [IHfound IHrequested].
    destruct (answered _) as [ d | ]; [ destruct (recognizable d) | ];
      cbn [first_of asked take map fst snd].
    + unfold mret, M_ret. cbn [fst snd trace record].
      rewrite requested_app. split; reflexivity.
    + rewrite Hrest, IHfound, IHrequested. cbn [trace record].
      rewrite requested_app, <- app_assoc. split; reflexivity.
    + rewrite Hrest, IHfound, IHrequested. cbn [trace record].
      rewrite requested_app, <- app_assoc. split; reflexivity.
Qed.

(** X13. A lookup by id, that of [!track] and that of [!add], asks pc,
    xbox and psn in this order and takes the first platform whose answer is
    there and recognizable: it returns the player built from this answer
    and asks no platform after it; it returns no player when none of the
    three answers so. *)
Theorem lookup_takes_the_first_platform :
  forall (playerId : string) (w : World),
    let hits := [ probe_hit env playerId w 0 "pc"; probe_hit env playerId w 1 "xbox";
                  probe_hit env playerId w 2 "psn" ] in
    fst (track_probe env playerId platforms w) = Ok (first_of hits)
    /\ fst (add_probe env playerId platforms w) = Ok (first_of hits)
    /\ requested (trace (snd (track_probe env playerId platforms w)))
       = (requested (trace w) ++ map (probe_url playerId) (take (asked hits) platforms))%list
    /\ requested (trace (snd (add_probe env playerId platforms w)))
       = (requested (trace w) ++ map (probe_url playerId) (take (asked hits) platforms))%list.
Proof.
  intros playerId w. cbv zeta.
  destruct (track_probe_first playerId platforms w) as [Hfound Hrequested].
  destruct (probes_agree env playerId platforms w w (same_but_pauses_refl w))
    as (Hsame & Hworlds).
  assert (Hreq : requested (trace (snd (add_probe env playerId platforms w)))
                 = requested (trace (snd (track_probe env playerId platforms w)))).
  { destruct Hworlds as (_ & _ & _ & _ & _ & _ & _ & Htrace).
    rewrite <- (requested_without_pauses (trace (snd (add_probe _ _ _ _)))), Htrace.
    apply requested_without_pauses. }
  rewrite Hreq, Hsame. repeat split; assumption.
Qed.

End LookupOrder.

Lemma findIndex_throws {A : Type} (test : A -> option bool) (before after : list A) (x : A) :
  Forall (fun y => test y = Some false) before -> test x = None ->
  findIndex test (before ++ x :: after)%list = None.
Proof.
  intros Hbefore Hx. induction Hbefore as [ | y before Hy _ IH ]; simpl.
  - rewrite Hx. reflexivity.
  - rewrite Hy, IH. reflexivity.
Qed.

Lemma truthy_JStr (s : string) : truthy (JStr s) = true -> s <> "".
Proof. intros H ->. discriminate H. Qed.

Section CommandsMore.

Variable URL_pathname : string -> option string.
Variable Number_toString_fraction : Q -> string.
Variable env : Env.

#[local] Abbreviation playerKey := (playerKey Number_toString_fraction).
#[local] Abbreviation handle_untrack := (handle_untrack Number_toString_fraction env).
#[local] Abbreviation handle_add := (handle_add URL_pathname env).
#[local] Abbreviation untrack_test := (untrack_test env).
#[local] Abbreviation named_by := (named_by env).

(** The world after an untrack that finds the player at an index. *)
Lemma handle_untrack_found (content : string) (w : World) (index : nat) (p : Player) :
  trim (slice 9 content) <> "" ->
  findIndex (untrack_test (trim (slice 9 content))) (trackedPlayers w)
  = Some (Some (index, p)) ->
  let w' := snd (handle_untrack content w) in
  trackedPlayers w' = delete index (trackedPlayers w)
  /\ trace w' = (trace w ++ [Wrote (delete index (trackedPlayers w))
                                    (write_ok env (writes w));
                               Replied (Removed p)])%list
  /\ file w' = (if write_ok env (writes w)
                then Some (Json (delete index (trackedPlayers w))) else file w)
  /\ lastStats w' = Map_delete (playerKey p) (lastStats w).
Proof.
  intros Harg Hfound. cbv zeta.
  rewrite (handle_untrack_run Number_toString_fraction env content w Harg), Hfound.
  unfold spliced. rewrite saveTrackedPlayers_run.
  cbn [writes trackedPlayers set_trackedPlayers snd].
  destruct (write_ok env (writes w)); unfold reply;
    cbn [snd trackedPlayers trace file lastStats set_lastStats set_file record
           set_trackedPlayers];
    rewrite <- app_assoc; repeat split; reflexivity.
Qed.

(** X14. Tracking a player and then untracking it by its id gives back the
    list as it was. If [!track] appended a player whose personaId is a
    text, and no player tracked before has this text as its name, an
    [!untrack] with this text removes the appended player and no other:
    the list is the one before the [!track], the file is written with it,
    and the cache has no entry under the player's key. *)
Theorem track_then_untrack_restores_the_list :
  forall (content content' id : string) (f : Player) (w : World),
    let w1 := snd (handle_track env content w) in
    trackedPlayers w1 = (trackedPlayers w ++ [f])%list ->
    personaId f = JStr id ->
    trim (slice 9 content') = id ->
    (forall q, In q (trackedPlayers w) ->
       exists s, name q = JStr s
                 /\ String_toLowerCase env s <> String_toLowerCase env id) ->
    let w2 := snd (handle_untrack content' w1) in
    trackedPlayers w2 = trackedPlayers w
    /\ trace w2 = (trace w1 ++ [Wrote (trackedPlayers w) (write_ok env (writes w1));
                                Replied (Removed f)])%list
    /\ (write_ok env (writes w1) = true -> file w2 = Some (Json (trackedPlayers w)))
    /\ Map_get (playerKey f) (lastStats w2) = None.
Proof.
  intros content content' id f w. cbv zeta. intros Hadded Hid Harg Hnames.
  assert (Hfresh : List.find (sameAs f) (trackedPlayers w) = None
                   /\ truthy (personaId f) = true).
  { destruct (handle_track_outcome env content w) as [ [(Hsame & _) _] | (f' & Hl & Hfind & Ht & _) ].
    - rewrite Hsame in Hadded. apply (f_equal (@length Player)) in Hadded.
      rewrite length_app in Hadded. simpl in Hadded. lia.
    - rewrite Hl in Hadded. apply app_inj_tail in Hadded. destruct Hadded as [_ ->].
      split; assumption. }
  destruct Hfresh as [Hfind Htruthy].
  assert (Hne : id <> "") by (apply truthy_JStr; rewrite <- Hid; exact Htruthy).
  assert (Hothers : Forall (fun q => named_by id q = false) (trackedPlayers w)).
  { apply List.Forall_forall. intros q Hq. unfold Spec.named_by.
    destruct (Hnames q Hq) as (s & Hs & Hdiff). rewrite Hs.
    apply String.eqb_neq in Hdiff. rewrite Hdiff, Bool.orb_false_r.
    destruct (strict_eq (personaId q) (JStr id)) eqn:Hsame; [ | reflexivity ].
    pose proof (find_none _ _ Hfind q Hq) as Hnot. unfold sameAs in Hnot.
    rewrite Hid, Hsame, (strict_eq_truthy _ _ Hsame) in Hnot.
    rewrite <- Hid, Htruthy in Hnot. discriminate Hnot. }
  assert (Hfound : findIndex (untrack_test id) (trackedPlayers w ++ [f])%list
                   = Some (Some (length (trackedPlayers w), f))).
  { apply (findIndex_first _ (named_by id)).
    - intros y Hy. apply in_app_or in Hy. destruct Hy as [Hy | [<- | []]].
      + apply untrack_test_named_by; [ exact Hne | ].
        destruct (Hnames y Hy) as (s & Hs & _). exists s. exact Hs.
      + unfold Bot.untrack_test, Spec.named_by.
        rewrite Hid, strict_eq_refl, <- Hid, Htruthy. reflexivity.
    - exact Hothers.
    - unfold Spec.named_by. rewrite Hid, strict_eq_refl. reflexivity. }
  rewrite <- Hadded, <- Harg in Hfound. rewrite <- Harg in Hne.
  destruct (handle_untrack_found content' _ _ _ Hne Hfound) as (Hl & Htrace & Hfile & Hcache).
  rewrite Hadded, (delete_middle (trackedPlayers w) [] f), app_nil_r in Hl, Htrace, Hfile.
  repeat split.
  - exact Hl.
  - exact Htrace.
  - intros Hwrite. rewrite Hwrite in Hfile. exact Hfile.
  - rewrite Hcache. apply Map_get_delete_same.
Qed.


(** X16. A tracked player whose name is no text blocks [!untrack] for the
    players after it. When the first player of the list that the argument
    does not name by its personaId has a name without [toLowerCase], a
    number for one, the handler throws at this player: there is no reply,
    and the list, the file and the cache stay as they were, even if a
    player further on is the one named. *)
Theorem untrack_throws_at_a_name_that_is_no_text :
  forall (content : string) (w : World) (before after : list Player) (p : Player),
    trim (slice 9 content) <> "" ->
    trackedPlayers w = (before ++ p :: after)%list ->
    Forall (fun q => named q /\ named_by (trim (slice 9 content)) q = false) before ->
    (forall s, name p <> JStr s) ->
    strict_eq (personaId p) (JStr (trim (slice 9 content))) = false ->
    handle_untrack content w = (Thrown, w).
Proof.
  intros content w before after p Harg Hlist Hbefore Hname Hid.
  rewrite (handle_untrack_run Number_toString_fraction env content w Harg), Hlist.
  rewrite findIndex_throws; [ reflexivity | | ].
  - apply List.Forall_forall. intros q Hq.
    rewrite List.Forall_forall in Hbefore. destruct (Hbefore q Hq) as [Hnamed Hnot].
    rewrite (untrack_test_named_by env _ q Harg Hnamed), Hnot. reflexivity.
  - unfold Bot.untrack_test. rewrite Hid, Bool.andb_false_r.
    destruct (name p) as [ | | | | s ]; try reflexivity. destruct (Hname s). reflexivity.
Qed.

End CommandsMore.

(** Alice is tracked; the lookup of the id 2002 finds Bob on xbox. *)
Lemma track_then_untrack_restores_the_list_witness :
  trackedPlayers (snd (handle_untrack no_fraction first_fails "!untrack 2002"
                         (snd (handle_track first_fails "!track 2002" (tracking [alice])))))
  = trackedPlayers (tracking [alice])
  /\ trace (snd (handle_untrack no_fraction first_fails "!untrack 2002"
                   (snd (handle_track first_fails "!track 2002" (tracking [alice])))))
     = (trace (snd (handle_track first_fails "!track 2002" (tracking [alice])))
        ++ [Wrote (trackedPlayers (tracking [alice]))
              (write_ok first_fails
                 (writes (snd (handle_track first_fails "!track 2002" (tracking [alice])))));
            Replied (Removed bob_again)])%list
  /\ (write_ok first_fails
        (writes (snd (handle_track first_fails "!track 2002" (tracking [alice])))) = true ->
      file (snd (handle_untrack no_fraction first_fails "!untrack 2002"
                   (snd (handle_track first_fails "!track 2002" (tracking [alice])))))
      = Some (Json (trackedPlayers (tracking [alice]))))
  /\ Map_get (playerKey no_fraction bob_again)
       (lastStats (snd (handle_untrack no_fraction first_fails "!untrack 2002"
                          (snd (handle_track first_fails "!track 2002" (tracking [alice]))))))
     = None.
Proof.
  apply (track_then_untrack_restores_the_list no_fraction first_fails
           "!track 2002" "!untrack 2002" "2002" bob_again (tracking [alice])).
  - vm_compute. reflexivity.
  - reflexivity.
  - reflexivity.
  - intros q [<- | []]. exists "Alice". split; [ reflexivity | discriminate ].
Defined.


(** The lookup of the id 1003 is answered with a name that is a number; the
    player is tracked, and no [!untrack] by name gets past it. *)
Lemma untrack_throws_at_a_name_that_is_no_text_witness :
  trackedPlayers (snd (handle_track number_names "!track 1003" empty_world)) = [numbered]
  /\ handle_untrack no_fraction number_names "!untrack bob"
       (snd (handle_track number_names "!track 1003" empty_world))
     = (Thrown, snd (handle_track number_names "!track 1003" empty_world)).
Proof.
  split; [ vm_compute; reflexivity | ].
  apply (untrack_throws_at_a_name_that_is_no_text no_fraction number_names "!untrack bob"
           (snd (handle_track number_names "!track 1003" empty_world)) [] [] numbered).
  - discriminate.
  - vm_compute. reflexivity.
  - constructor.
  - intros s. discriminate.
  - reflexivity.
Defined.

(** ** The two versions of the poll loop *)

Section Versions.

Variable StringToNumber : string -> option Q.
Variable Number_toString_fraction : Q -> string.
Variable env : Env.

Lemma postPlayerStats_without_personaId (p : Player) (w : World) :
  truthy (personaId p) = false ->
  IndexJs.postPlayerStats StringToNumber Number_toString_fraction env (name p) (platform p) w
  = Bot.postPlayerStats StringToNumber Number_toString_fraction env p w.
Proof.
  intros Hid.
  unfold IndexJs.postPlayerStats, Bot.postPlayerStats, IndexJs.fetchPlayerStats,
    Bot.fetchPlayerStats, playerKey, or.
  rewrite Hid. reflexivity.
Qed.

Lemma postAllStats_loop_without_personaId (players : list Player) (w : World) :
  Forall (fun p => truthy (personaId p) = false) players ->
  IndexJs.postAllStats_loop StringToNumber Number_toString_fraction env players w
  = Bot.postAllStats_loop StringToNumber Number_toString_fraction env players w.
Proof.
  intros Hids. revert w. induction Hids as [ | p rest Hp _ IH ]; intros w; [ reflexivity | ].
  cbn [IndexJs.postAllStats_loop Bot.postAllStats_loop]. unfold mbind, M_bind.
  rewrite (postPlayerStats_without_personaId p w Hp).
  destruct (Bot.postPlayerStats _ _ _ p w) as [[[] | ] w1]; [ | reflexivity ].
  destruct (sleep 2000 w1) as [[[] | ] w2]; [ apply IH | reflexivity ].
Qed.

(** X17. On players without a personaId the poll loop is that of the
    version without a player file. When no tracked player has a truthy
    personaId, a pass of the later version does what index.js does for the
    same players taken from its configuration: the same requests, by name
    and platform only, the same cache entries under the name, an
    underscore and the platform, the same messages and the same result. *)
Theorem pass_without_personaId_is_the_pass_of_index_js :
  forall (PLAYERS : list Player) (w : World),
    Forall (fun p => truthy (personaId p) = false) PLAYERS ->
    trackedPlayers w = PLAYERS ->
    IndexJs.postAllStats StringToNumber Number_toString_fraction env PLAYERS w
    = Bot.postAllStats StringToNumber Number_toString_fraction env w.
Proof.
  intros PLAYERS w Hids Hlist.
  rewrite postAllStats_run, Hlist. unfold IndexJs.postAllStats.
  destruct (length PLAYERS =? 0)%nat; [ reflexivity | ].
  apply postAllStats_loop_without_personaId. exact Hids.
Qed.

End Versions.

(** A player of the configuration, with a name and a platform. *)
Lemma pass_without_personaId_is_the_pass_of_index_js_witness :
  IndexJs.postAllStats no_StringToNumber no_fraction always_bob [legacy] (tracking [legacy])
  = Bot.postAllStats no_StringToNumber no_fraction always_bob (tracking [legacy]).
Proof.
  apply (pass_without_personaId_is_the_pass_of_index_js no_StringToNumber no_fraction
           always_bob [legacy] (tracking [legacy])).
  - repeat constructor.
  - reflexivity.
Defined.

(** ** More of the requests *)

Section Requests.

Variable Number_toString_fraction : Q -> string.
Variable env : Env.

#[local] Abbreviation stats_url := (stats_url Number_toString_fraction).
#[local] Abbreviation fetchPlayerStats := (fetchPlayerStats Number_toString_fraction env).

(** X18. [fetchPlayerStats] never throws and makes one request, of the
    URL with the name and the platform, and with the personaId when it is
    truthy. It returns null when the request fails, when the answer is not
    ok and when the body of the answer does not parse, and the parsed body
    otherwise. *)
Theorem fetchPlayerStats_null_on_failure :
  forall (p : Player) (w : World),
  exists stats,
    fetchPlayerStats (name p) (platform p) (personaId p) w
    = (Ok stats, record (Fetched (stats_url p)) w)
    /\ (net env (fetches w) (stats_url p) = NetworkError -> stats = Prim JNull)
    /\ (forall r, net env (fetches w) (stats_url p) = Answer r ->
          stats = (if ok r then default (Prim JNull) (body r) else Prim JNull)).
Proof.
  intros p w. unfold Bot.fetchPlayerStats. fold (stats_url p). run.
  destruct (net env (fetches w) (stats_url p)) as [ | [ [ | ] [ d | ] ] ]; simpl;
    eexists; (split; [ reflexivity | ]); split; try discriminate; try reflexivity;
    intros r [= <-]; reflexivity.
Qed.

(** X19. [!search] with a name, once its first reply is delivered,
    requests the three platforms for the name and leaves the tracked
    list, the file and the cache as they were. It ends by replying that no
    player was found, exactly when no entry was found, and otherwise by
    building the embed of all the entries found, those of pc, xbox and
    psn in this order, and replying with it; when the builder throws,
    there is no second reply. *)
Theorem search_replies_with_what_was_found :
  forall (content : string) (w : World),
    trim (slice 8 content) <> "" ->
    reply_ok env (replies w) = true ->
    let playerName := trim (slice 8 content) in
    let found := (search_hit env playerName w 0 "pc" ++ search_hit env playerName w 1 "xbox"
                  ++ search_hit env playerName w 2 "psn")%list in
    exists w1,
      handle_search env content w
      = match found with
        | [] => reply env (NoPlayersFound playerName) w1
        | _ => reply_embed env (SearchResults playerName found) w1
        end
      /\ requested (trace w1)
         = (requested (trace w) ++ map (search_url playerName) platforms)%list
      /\ state_kept w w1.
Proof.
  intros content w Harg Hreply. cbv zeta.
  set (playerName := trim (slice 8 content)) in *.
  set (w0 := record (Replied (Searching playerName)) w).
  destruct (searchPlayers_loop_run env playerName platforms [] w0) as (w1 & Hrun & Hrequested).
  assert (Hfound : concat (imap (search_hit env playerName w0) platforms)
                   = (search_hit env playerName w 0 "pc" ++ search_hit env playerName w 1 "xbox"
                      ++ search_hit env playerName w 2 "psn")%list).
  { unfold platforms. cbn [imap concat compose]. unfold search_hit.
    cbn [fetches record w0]. rewrite !Nat.add_0_r, app_nil_r. reflexivity. }
  exists w1. split; [ | split ].
  - unfold handle_search. cbv zeta. fold playerName.
    apply String.eqb_neq in Harg. rewrite Harg.
    unfold mbind at 1, M_bind at 1. unfold reply at 1. rewrite Hreply. fold w0.
    unfold mbind, M_bind, searchPlayers. rewrite Hrun. cbn [app]. rewrite Hfound.
    match goal with |- context [ (length ?l =? 0)%nat ] => destruct l end; reflexivity.
  - rewrite Hrequested. unfold w0. cbn [trace record]. rewrite requested_app. simpl.
    rewrite app_nil_r. reflexivity.
  - pose proof (respects_searchPlayers state_kept env playerName w0) as Hkept.
    unfold searchPlayers in Hkept. rewrite Hrun in Hkept. cbn [snd] in Hkept.
    destruct Hkept as [(Hl & Hf & Hw) Hc]. unfold w0 in Hl, Hf, Hw, Hc.
    cbn [trackedPlayers file writes lastStats record] in Hl, Hf, Hw, Hc.
    rewrite Nat.add_0_r in Hw. repeat split; assumption.
Qed.

End Requests.

Lemma search_replies_with_what_was_found_witness :
  exists w1,
    handle_search first_fails "!search Bob" empty_world
    = match (search_hit first_fails (trim (slice 8 "!search Bob")) empty_world 0 "pc"
             ++ search_hit first_fails (trim (slice 8 "!search Bob")) empty_world 1 "xbox"
             ++ search_hit first_fails (trim (slice 8 "!search Bob")) empty_world 2 "psn")%list
      with
      | [] => reply first_fails (NoPlayersFound (trim (slice 8 "!search Bob"))) w1
      | _ =>
          reply_embed first_fails
            (SearchResults (trim (slice 8 "!search Bob"))
               (search_hit first_fails (trim (slice 8 "!search Bob")) empty_world 0 "pc"
                ++ search_hit first_fails (trim (slice 8 "!search Bob")) empty_world 1 "xbox"
                ++ search_hit first_fails (trim (slice 8 "!search Bob")) empty_world 2 "psn"))
            w1
      end
    /\ requested (trace w1)
       = (requested (trace empty_world)
          ++ map (search_url (trim (slice 8 "!search Bob"))) platforms)%list
    /\ state_kept empty_world w1.
Proof.
  apply (search_replies_with_what_was_found first_fails "!search Bob" empty_world).
  - discriminate.
  - reflexivity.
Defined.

(** ** Sends and replies that fail *)

Lemma track_probe_replies (env : Env) (playerId : string) (todo : list string) (w : World) :
  replies (snd (track_probe env playerId todo w)) = replies w.
Proof.
  revert w. induction todo as [ | platform rest IH ]; intros w; [ reflexivity | ].
  cbn [track_probe]. unfold mbind, M_bind. rewrite track_probe_step_run. cbv zeta.
  destruct (answered _) as [ d | ]; [ destruct (recognizable d) | ];
    rewrite ?IH; simpl; lia.
Qed.

Section Failures.

Variable URL_pathname : string -> option string.
Variable StringToNumber : string -> option Q.
Variable Number_toString_fraction : Q -> string.
Variable env : Env.

#[local] Abbreviation stats_url := (stats_url Number_toString_fraction).
#[local] Abbreviation playerKey := (playerKey Number_toString_fraction).
#[local] Abbreviation createStatsEmbed := (createStatsEmbed StringToNumber Number_toString_fraction).
#[local] Abbreviation postPlayerStats := (postPlayerStats StringToNumber Number_toString_fraction env).
#[local] Abbreviation handle_update := (handle_update StringToNumber Number_toString_fraction env).
#[local] Abbreviation handle_add := (handle_add URL_pathname env).
#[local] Abbreviation messageCreate :=
  (messageCreate URL_pathname StringToNumber Number_toString_fraction env).

(** X21. A message that could not be sent is tried again. When the send
    of a player's stats fails, the call ends normally and the cache keeps
    what it had for the player; so a later call for the player, from any
    world with that cache entry, that fetches the same stats posts them, if
    the send then goes through, and caches them. *)
Theorem failed_send_is_tried_again :
  forall (p : Player) (w : World) (stats : json) (e : Embed),
    channel env = true ->
    fetched_stats (net env (fetches w) (stats_url p)) = Some stats ->
    statsChanged (Map_get (playerKey p) (lastStats w)) stats = true ->
    createStatsEmbed stats (name p) (platform p) = Some e ->
    send_ok env (sends w) = false ->
    let w1 := snd (postPlayerStats p w) in
    fst (postPlayerStats p w) = Ok tt
    /\ delivered (trace w1) = delivered (trace w)
    /\ lastStats w1 = lastStats w
    /\ (forall w2 : World,
          Map_get (playerKey p) (lastStats w2) = Map_get (playerKey p) (lastStats w1) ->
          fetched_stats (net env (fetches w2) (stats_url p)) = Some stats ->
          send_ok env (sends w2) = true ->
          let w3 := snd (postPlayerStats p w2) in
          delivered (trace w3) = (delivered (trace w2) ++ [e])%list
          /\ Map_get (playerKey p) (lastStats w3) = Some stats).
Proof.
  intros p w stats e Hchannel Hfetched Hchanged Hembed Hsend. cbv zeta.
  rewrite postPlayerStats_run, Hchannel. cbn [negb]. cbv zeta iota.
  rewrite Hfetched, Hchanged, Hembed, Hsend. cbn [fst snd].
  split; [ reflexivity | ]. split; [ | split; [ reflexivity | ] ].
  - cbn [trace record]. rewrite !delivered_app. simpl. rewrite !app_nil_r. reflexivity.
  - intros w2 Hcache Hfetched' Hsend'. cbn [lastStats record] in Hcache.
    rewrite postPlayerStats_run, Hchannel. cbn [negb]. cbv zeta iota.
    rewrite Hfetched', Hcache, Hchanged, Hembed, Hsend'. cbn [snd].
    split.
    + cbn [trace set_lastStats record]. rewrite !delivered_app. simpl.
      rewrite !app_nil_r. reflexivity.
    + cbn [lastStats set_lastStats]. apply Map_get_set_same.
Qed.

(** X22. A first reply that cannot be delivered ends [!update], [!search]
    and [!add] before they do anything else: no pass is run and nothing is
    requested. [!track] replies only at its end: when this reply cannot be
    delivered the handler throws, and the player it found is tracked and
    written to the file all the same. *)
Theorem reply_that_fails :
  (forall w : World,
     reply_ok env (replies w) = false ->
     handle_update w = (Thrown, record (Replied Updating) w))
  /\ (forall (content : string) (w : World),
        trim (slice 8 content) <> "" ->
        reply_ok env (replies w) = false ->
        handle_search env content w
        = (Thrown, record (Replied (Searching (trim (slice 8 content)))) w))
  /\ (forall (content playerId : string) (w : World),
        trim (slice 5 content) <> "" ->
        parseTrackerUrl URL_pathname (trim (slice 5 content)) = Some playerId ->
        reply_ok env (replies w) = false ->
        handle_add content w = (Thrown, record (Replied (LookingUp playerId)) w))
  /\ (forall (content : string) (w w1 : World) (f : Player),
        trim (slice 7 content) <> "" ->
        track_probe env (trim (slice 7 content)) platforms w = (Ok (Some f), w1) ->
        List.find (sameAs f) (trackedPlayers w) = None ->
        reply_ok env (replies w) = false ->
        fst (handle_track env content w) = Thrown
        /\ trackedPlayers (snd (handle_track env content w)) = (trackedPlayers w ++ [f])%list
        /\ (write_ok env (writes w) = true ->
            file (snd (handle_track env content w))
            = Some (Json (trackedPlayers w ++ [f])%list))).
Proof.
  repeat apply conj.
  - intros w Hreply. rewrite handle_update_run, Hreply. reflexivity.
  - intros content w Harg Hreply. unfold handle_search. cbv zeta.
    apply String.eqb_neq in Harg. rewrite Harg.
    unfold mbind at 1, M_bind at 1. unfold reply at 1. rewrite Hreply. reflexivity.
  - intros content playerId w Harg Hparse Hreply.
    rewrite (handle_add_run URL_pathname env content playerId w Harg Hparse).
    unfold reply at 1. rewrite Hreply. reflexivity.
  - intros content w w1 f Harg Hprobe Hfind Hreply.
    pose proof (respects_track_probe store_kept env (trim (slice 7 content)) platforms w)
      as Hkept. rewrite Hprobe in Hkept. cbn [snd] in Hkept. destruct Hkept as (Hl & Hf & Hw).
    pose proof (track_probe_replies env (trim (slice 7 content)) platforms w) as Hr.
    rewrite Hprobe in Hr. cbn [snd] in Hr.
    rewrite (handle_track_run env content w Harg), Hprobe, track_found_run, Hl, Hfind.
    unfold pushed. rewrite saveTrackedPlayers_run. unfold reply_embed, reply, throw.
    cbn [writes trackedPlayers set_trackedPlayers]. rewrite Hw.
    destruct (builds env _); destruct (write_ok env (writes w));
      cbn [fst snd replies trackedPlayers file set_file record set_trackedPlayers];
      rewrite ?Nat.add_0_r, ?Hr, ?Hreply, Hl; repeat split; try reflexivity; discriminate.
Qed.

End Failures.

(** The send fails once: Bob's stats are posted by the next call. *)
Lemma failed_send_is_tried_again_witness :
  fst (postPlayerStats no_StringToNumber no_fraction one_send_fails bob (tracking [bob]))
  = Ok tt
  /\ delivered (trace (snd (postPlayerStats no_StringToNumber no_fraction one_send_fails bob
                              (tracking [bob]))))
     = delivered (trace (tracking [bob]))
  /\ lastStats (snd (postPlayerStats no_StringToNumber no_fraction one_send_fails bob
                       (tracking [bob])))
     = lastStats (tracking [bob])
  /\ (forall w2 : World,
        Map_get (playerKey no_fraction bob) (lastStats w2)
        = Map_get (playerKey no_fraction bob)
            (lastStats (snd (postPlayerStats no_StringToNumber no_fraction one_send_fails bob
                               (tracking [bob])))) ->
        fetched_stats (net one_send_fails (fetches w2) (stats_url no_fraction bob))
        = Some bob_stats ->
        send_ok one_send_fails (sends w2) = true ->
        delivered (trace (snd (postPlayerStats no_StringToNumber no_fraction one_send_fails
                                 bob w2)))
        = (delivered (trace w2) ++ [bob_embed])%list
        /\ Map_get (playerKey no_fraction bob)
             (lastStats (snd (postPlayerStats no_StringToNumber no_fraction one_send_fails
                                bob w2)))
           = Some bob_stats).
Proof.
  apply (failed_send_is_tried_again no_StringToNumber no_fraction one_send_fails bob
           (tracking [bob]) bob_stats bob_embed);
    vm_compute; reflexivity.
Defined.

(** No reply is delivered: Bob is tracked all the same. *)
Lemma reply_that_fails_witness :
  fst (handle_track no_replies "!track 2002" (tracking [alice])) = Thrown
  /\ trackedPlayers (snd (handle_track no_replies "!track 2002" (tracking [alice])))
     = (trackedPlayers (tracking [alice]) ++ [bob_again])%list
  /\ (write_ok no_replies (writes (tracking [alice])) = true ->
      file (snd (handle_track no_replies "!track 2002" (tracking [alice])))
      = Some (Json (trackedPlayers (tracking [alice]) ++ [bob_again])%list)).
Proof.
  destruct (reply_that_fails plain_pathname no_StringToNumber no_fraction no_replies)
    as (_ & _ & _ & Htrack).
  apply (Htrack "!track 2002" (tracking [alice])
           (snd (track_probe no_replies "2002" platforms (tracking [alice]))) bob_again).
  - discriminate.
  - vm_compute. reflexivity.
  - reflexivity.
  - reflexivity.
Defined.

(** ** The lines of a search result *)

Section SearchRendering.

Variable Number_toString_fraction : Q -> string.
Variable env : Env.

#[local] Abbreviation playerInfo := (playerInfo Number_toString_fraction).

(** A value that is truthy has [toLocaleString]. *)
Lemma truthy_toLocaleString (v : jsval) :
  truthy v = true -> method_toLocaleString Number_toString_fraction v <> None.
Proof. destruct v as [ | | [] | | ]; simpl; congruence. Qed.

Lemma playerInfo_returns (player : SearchResult) :
  sr_kills player = JNull \/ truthy (sr_kills player) = true ->
  playerInfo player <> None.
Proof.
  unfold Embeds.playerInfo. cbv zeta. intros [Hnull | Htruthy].
  - rewrite Hnull. cbn [strict_eq negb]. discriminate.
  - pose proof (truthy_toLocaleString _ Htruthy) as Hmethod.
    destruct (negb (strict_eq (sr_kills player) JNull)); [ | discriminate ].
    destruct (method_toLocaleString _ (sr_kills player)); [ discriminate | congruence ].
Qed.

Lemma playerInfo_search_entry (data : json) (playerName platform : string) :
  playerInfo (search_entry data playerName platform) <> None.
Proof.
  apply playerInfo_returns. unfold search_entry. cbn [sr_kills]. unfold or.
  destruct (truthy (prop data "kills")) eqn:Hkills; auto.
Qed.


End SearchRendering.
